(** * AssetStore: the asset-performance projection engine

    A shallow embedding of the computational methods of the class
    [AssetStore]: the compounding calculator, the dividend scheduler, the
    yearly projector, the lifetime projection driver, the
    actual-performance reconciler and the Monte Carlo simulator.

    Conventions of the embedding.
    - A JavaScript number is a rational ([Q]), a finite double being the
      rational it stands for; a number that the code obtains from
      [Math.round] or [Math.floor] is an integer ([Z]) and is injected back
      into [Q] where the code computes with it again.  NaN and the
      infinities are not numbers of the model.  The calculators come
      twice: first over exact arithmetic, which leaves the rounding of
      binary64 out, then, in [Rounded], over an arithmetic that rounds,
      [Binary64] being that of the program.
    - [undefined] and [null] in an optional position are [None].
    - An exception aborts the computation: fallible code returns an
      [Outcome], [Throw e] standing for a raised error of kind [e].
    - The runtime's local time zone is a parameter [tz], in minutes east of
      UTC, taken constant over time. *)

From Stdlib Require Import ZArith QArith Qround Qabs Qpower String Ascii List Lia Lqa.
From Stdlib Require DecimalString.
From Stdlib Require PrimFloat FloatOps SpecFloat.
From stdpp Require Import gmap strings list sorting.

Local Open Scope Z_scope.

(** ** JavaScript values and errors *)

Inductive JsError : Type :=
  | TypeError
  | RangeError.

Inductive Outcome (A : Type) : Type :=
  | Return (a : A)
  | Throw (e : JsError).

Arguments Return {A} a.
Arguments Throw {A} e.

Definition bind {A B : Type} (c : Outcome A) (k : A -> Outcome B) : Outcome B :=
  match c with
  | Return a => k a
  | Throw e => Throw e
  end.

Notation "'do' x <- c ; k" := (bind c (fun x => k))
  (at level 10, x name, c at level 100, k at level 200).

Definition isThrow {A : Type} (c : Outcome A) : Prop :=
  exists e, c = Throw e.

(** ** Math *)

Module Math.

(** [Math.round]: the nearest integer, a tie going towards +infinity. *)
Definition round (x : Q) : Z := Qfloor (x + (1 # 2)).

Definition floor (x : Q) : Z := Qfloor x.

(** [Math.pow] at an integer exponent. *)
Definition pow (b : Q) (n : Z) : Q := Qpower b n.

End Math.

(** ** Date

    Time values are milliseconds since the epoch, [None] being NaN (an
    invalid Date).  The day and year arithmetic follows ECMA-262, 21.4.1. *)

Module Date.

Definition msPerDay : Z := 86400000.
Definition msPerMinute : Z := 60000.

Definition TimeValue : Type := option Z.

Definition Day (t : Z) : Z := t / msPerDay.

Definition DayFromYear (y : Z) : Z :=
  365 * (y - 1970) + (y - 1969) / 4 - (y - 1901) / 100 + (y - 1601) / 400.

Definition isLeap (y : Z) : bool :=
  (y mod 4 =? 0) && (negb (y mod 100 =? 0) || (y mod 400 =? 0)).

Definition InLeapYear (y : Z) : Z := if isLeap y then 1 else 0.

(** The largest [y] with [DayFromYear y <= d]: an estimate from the mean
    length of a year, corrected by at most one year. *)
Definition YearFromDay (d : Z) : Z :=
  let y0 := 1970 + (d * 400) / 146097 in
  if DayFromYear (y0 + 1) <=? d then y0 + 1
  else if DayFromYear y0 <=? d then y0
  else y0 - 1.

(** The day of the year on which month [m] (0-based) starts. *)
Definition monthStart (leap : Z) (m : Z) : Z :=
  match m with
  | 0 => 0
  | 1 => 31
  | 2 => 59 + leap
  | 3 => 90 + leap
  | 4 => 120 + leap
  | 5 => 151 + leap
  | 6 => 181 + leap
  | 7 => 212 + leap
  | 8 => 243 + leap
  | 9 => 273 + leap
  | 10 => 304 + leap
  | 11 => 334 + leap
  | _ => 365 + leap
  end.

Definition MonthFromDayWithinYear (leap : Z) (dw : Z) : Z :=
  if dw <? 31 then 0
  else if dw <? 59 + leap then 1
  else if dw <? 90 + leap then 2
  else if dw <? 120 + leap then 3
  else if dw <? 151 + leap then 4
  else if dw <? 181 + leap then 5
  else if dw <? 212 + leap then 6
  else if dw <? 243 + leap then 7
  else if dw <? 273 + leap then 8
  else if dw <? 304 + leap then 9
  else if dw <? 334 + leap then 10
  else 11.

Definition YearFromTime (t : Z) : Z := YearFromDay (Day t).

Definition DayWithinYear (t : Z) : Z := Day t - DayFromYear (YearFromTime t).

Definition MonthFromTime (t : Z) : Z :=
  MonthFromDayWithinYear (InLeapYear (YearFromTime t)) (DayWithinYear t).

Definition DateFromTime (t : Z) : Z :=
  DayWithinYear t
  - monthStart (InLeapYear (YearFromTime t)) (MonthFromTime t) + 1.

(** [MakeDay (year, month, date)], month 0-based and carried into the
    year when outside 0..11. *)
Definition MakeDay (year month date : Z) : Z :=
  let ym := year + month / 12 in
  let mn := month mod 12 in
  DayFromYear ym + monthStart (InLeapYear ym) mn + date - 1.

Definition TimeClip (t : Z) : TimeValue :=
  if Z.abs t <=? 8640000000000000 then Some t else None.

(** A year 0..99 given to the Date constructor means 1900 + year. *)
Definition constructorYear (year : Z) : Z :=
  if (0 <=? year) && (year <=? 99) then 1900 + year else year.

Section LocalTime.

(** Offset of local time from UTC, in minutes (540 for Asia/Tokyo,
    -300 for America/New_York in winter, 0 for UTC). *)
Variable tz : Z.

Definition LocalTZA : Z := tz * msPerMinute.

(** [new Date(year, month, date)]: the fields are local time. *)
Definition fromFields (year month date : Z) : TimeValue :=
  TimeClip (MakeDay (constructorYear year) month date * msPerDay - LocalTZA).

(** [date.getFullYear()]: the year in local time, NaN for an invalid
    Date. *)
Definition getFullYear (t : TimeValue) : option Z :=
  match t with
  | Some tv => Some (YearFromTime (tv + LocalTZA))
  | None => None
  end.

End LocalTime.

(** The time value of a date-only ISO string ["YYYY-MM-DD"] handed to
    [new Date(string)]: midnight UTC of that day. *)
Definition parseDateOnly (year month1 date : Z) : TimeValue :=
  TimeClip (MakeDay year (month1 - 1) date * msPerDay).

(** Decimal printing with leading zeros. *)
Definition digit (n : Z) : ascii := ascii_of_nat (48 + Z.to_nat (n mod 10)).

Fixpoint pad (width : nat) (n : Z) (tail : string) : string :=
  match width with
  | O => tail
  | S w => pad w (n / 10) (String (digit n) tail)
  end.

Definition yearString (y : Z) : string :=
  if (0 <=? y) && (y <=? 9999) then pad 4 y EmptyString
  else if 0 <=? y then String "+"%char (pad 6 y EmptyString)
  else String "-"%char (pad 6 (- y) EmptyString).

(** [date.toISOString().split("T")[0]]: the UTC calendar date of the time
    value; [toISOString] raises a RangeError on an invalid Date. *)
Definition toISODateString (t : TimeValue) : Outcome string :=
  match t with
  | None => Throw RangeError
  | Some tv =>
      Return (yearString (YearFromTime tv)
              ++ String "-"%char (pad 2 (MonthFromTime tv + 1) EmptyString)
              ++ String "-"%char (pad 2 (DateFromTime tv) EmptyString))%string
  end.

End Date.


(** ** Data model *)

Record CapitalGain : Type := {
  annualRate : Q;
  compoundingFrequency : string
}.

Record IncomeGain : Type := {
  dividendYield : Q;
  paymentFrequency : string;
  reinvestDividends : bool
}.

(** [incomeGain] is optional: [validateAsset] checks it only when present
    and the asset form reads it with [incomeGain?.]. *)
Record ReturnModel : Type := {
  capitalGain : CapitalGain;
  incomeGain : option IncomeGain
}.

Record DividendPayment : Type := {
  date : string;
  amount : Z
}.

(** The payload of [updateActualPerformance]; a missing entry reads as
    [undefined]. *)
Module ActualData.
Record t : Type := {
  endValue : option Q;
  capitalGains : option Q;
  dividends : option (list (string * Q));
  totalDividends : option Q
}.
End ActualData.

Record YearlyPerformance : Type := {
  year : Z;
  startValue : Z;
  endValue : Z;
  capitalGains : Z;
  dividends : list DividendPayment;
  totalDividends : Z;
  actualEndValue : option Q;
  actualCapitalGains : option Q;
  actualDividends : option (list (string * Q));
  actualTotalDividends : option Q
}.

Module CapitalGainResult.
Record t : Type := {
  evaluationAmount : Q;
  capitalGain : Q
}.
End CapitalGainResult.

(** The creation payload; the form delivers dates as ["YYYY-MM-DD"] strings,
    kept here as the time value [new Date(string)] gives them (see
    [Date.parseDateOnly]).  A [maturityDate] that is [null], [undefined] or
    the empty string is [None]. *)
Module AssetData.
Record t : Type := {
  name : string;
  initialAmount : Q;
  category : string;
  startDate : Date.TimeValue;
  maturityDate : option Date.TimeValue;
  returns : ReturnModel
}.
End AssetData.

Record Asset : Type := {
  id : string;
  name : string;
  initialAmount : Q;
  category : string;
  startDate : Date.TimeValue;
  maturityDate : option Date.TimeValue;
  returns : ReturnModel;
  yearlyPerformance : list YearlyPerformance
}.

(** A property of an update payload: not there, there and [undefined], or
    there with a value. *)
Inductive Field (A : Type) : Type :=
  | Absent
  | Undefined
  | Given (a : A).

Arguments Absent {A}.
Arguments Undefined {A}.
Arguments Given {A} a.

(** The payload of [updateAsset].  Of the optional [maturityDate] all three
    states are kept ([Given None] is [maturityDate: null]); a required
    property is either absent or carries a value. *)
Module AssetUpdate.
Record t : Type := {
  name : option string;
  initialAmount : option Q;
  category : option string;
  startDate : option Date.TimeValue;
  maturityDate : Field (option Date.TimeValue);
  returns : option ReturnModel;
  yearlyPerformance : option (list YearlyPerformance)
}.
End AssetUpdate.

Record SimulationResult : Type := {
  bestCase : option Q;
  expected : option Q;
  worstCase : option Q;
  paths : list (list Q)
}.

(** ** Arrays *)

(** [array[index]]: [undefined] outside the array. *)
Definition Array_get {A : Type} (array : list A) (index : Z) : option A :=
  if index <? 0 then None else array !! Z.to_nat index.

(** [array.findIndex(f)], searching from position [i]: the first position
    whose element satisfies [f], or -1. *)
Fixpoint findIndexFrom {A : Type} (f : A -> bool) (array : list A) (i : Z) : Z :=
  match array with
  | [] => -1
  | x :: rest => if f x then i else findIndexFrom f rest (i + 1)
  end.

Definition findIndex {A : Type} (f : A -> bool) (array : list A) : Z :=
  findIndexFrom f array 0.

(** [array.sort((a, b) => a - b)] on numbers: ascending order. *)
Fixpoint insertAscending (x : Q) (sorted : list Q) : list Q :=
  match sorted with
  | [] => [x]
  | y :: rest => if Qle_bool x y then x :: sorted else y :: insertAscending x rest
  end.

Fixpoint sortAscending (array : list Q) : list Q :=
  match array with
  | [] => []
  | x :: rest => insertAscending x (sortAscending rest)
  end.

(** ** AssetStore *)

Section AssetStore.

(** The runtime: its time zone, [Math.exp], and the successive results of
    [normalRandom()] (Box-Muller over [Math.random]), the [k]-th call
    returning [normalRandom k]. *)
Variable tz : Z.
Variable Math_exp : Q -> Q.
Variable normalRandom : nat -> Q.

(** *** calculateCapitalGain *)

Definition calculateCapitalGain (initialAmount annualRate : Q)
    (compoundingFrequency : string) : CapitalGainResult.t :=
  let '(periods, rate) :=
    if String.eqb compoundingFrequency "daily" then (365, (annualRate / 365)%Q)
    else if String.eqb compoundingFrequency "monthly" then (12, (annualRate / 12)%Q)
    else (1, annualRate) in
  let finalAmount := (initialAmount * Math.pow (1 + rate) periods)%Q in
  {| CapitalGainResult.evaluationAmount := finalAmount;
     CapitalGainResult.capitalGain := (finalAmount - initialAmount)%Q |}.

(** *** calculateDividends *)

(** The loop [for (let i = 0; i < paymentsPerYear; i++)], with [n]
    iterations left. *)
Fixpoint calculateDividends_loop (dividendPerPayment : Q) (paymentsPerYear year : Z)
    (n : nat) (i : Z) (dividends : list DividendPayment)
    : Outcome (list DividendPayment) :=
  match n with
  | O => Return dividends
  | S n' =>
      let month := Math.floor ((12 / inject_Z paymentsPerYear) * inject_Z i)%Q in
      do date <- Date.toISODateString (Date.fromFields tz year month 1);
      calculateDividends_loop dividendPerPayment paymentsPerYear year n' (i + 1)
        (dividends ++ [ {| date := date; amount := Math.round dividendPerPayment |} ])
  end.

Definition calculateDividends (amount dividendYield : Q)
    (paymentFrequency : string) (year : Z) : Outcome (list DividendPayment) :=
  let paymentsPerYear :=
    if String.eqb paymentFrequency "monthly" then 12
    else if String.eqb paymentFrequency "quarterly" then 4
    else 1 in
  let dividendPerPayment := ((amount * dividendYield) / inject_Z paymentsPerYear)%Q in
  calculateDividends_loop dividendPerPayment paymentsPerYear year
    (Z.to_nat paymentsPerYear) 0 [].

(** *** calculateYearPerformance *)

(** The parameter destructuring
    [incomeGain: { dividendYield, paymentFrequency, reinvestDividends }]
    raises a TypeError when [returns.incomeGain] is undefined. *)
Definition calculateYearPerformance (year : Z) (startValue : Q)
    (returns : ReturnModel) : Outcome YearlyPerformance :=
  let annualRate := annualRate (capitalGain returns) in
  let compoundingFrequency := compoundingFrequency (capitalGain returns) in
  match incomeGain returns with
  | None => Throw TypeError
  | Some {| dividendYield := dividendYield;
            paymentFrequency := paymentFrequency;
            reinvestDividends := reinvestDividends |} =>
      let capitalGainResult :=
        calculateCapitalGain startValue annualRate compoundingFrequency in
      do dividends <- calculateDividends startValue dividendYield paymentFrequency year;
      let totalDividends := fold_left (fun sum div => sum + amount div) dividends 0 in
      let endValue :=
        if reinvestDividends
        then (CapitalGainResult.evaluationAmount capitalGainResult
              + inject_Z totalDividends)%Q
        else CapitalGainResult.evaluationAmount capitalGainResult in
      Return {| year := year;
                startValue := Math.round startValue;
                endValue := Math.round endValue;
                capitalGains :=
                  Math.round (CapitalGainResult.capitalGain capitalGainResult);
                dividends := dividends;
                totalDividends := Math.round (inject_Z totalDividends);
                actualEndValue := None;
                actualCapitalGains := None;
                actualDividends := None;
                actualTotalDividends := None |}
  end.

(** *** initializeYearlyPerformance *)

(** The loop [for (let year = startYear; year <= endYear; year++)], with
    [n] iterations left. *)
Fixpoint initializeYearlyPerformance_loop (returns : ReturnModel)
    (n : nat) (year : Z) (currentAmount : Q)
    (yearlyPerformance : list YearlyPerformance)
    : Outcome (list YearlyPerformance) :=
  match n with
  | O => Return yearlyPerformance
  | S n' =>
      do performance <- calculateYearPerformance year currentAmount returns;
      initializeYearlyPerformance_loop returns n' (year + 1)
        (inject_Z (endValue performance)) (yearlyPerformance ++ [performance])
  end.

(** A NaN year (an invalid date) makes [year <= endYear] false at once. *)
Definition initializeYearlyPerformance (startDate : Date.TimeValue)
    (maturityDate : option Date.TimeValue) (initialAmount : Q)
    (returns : ReturnModel) : Outcome (list YearlyPerformance) :=
  let startYear := Date.getFullYear tz startDate in
  let endYear :=
    match maturityDate with
    | Some maturity => Date.getFullYear tz maturity
    | None => option_map (fun y => y + 50) startYear
    end in
  match startYear, endYear with
  | Some startYear, Some endYear =>
      initializeYearlyPerformance_loop returns
        (Z.to_nat (endYear - startYear + 1)) startYear initialAmount []
  | _, _ => Return []
  end.

(** *** The asset map *)

(** [createAsset(data)], [id] being the identifier [nanoid()] returned.
    The map is written after the projection: an exception leaves it as it
    was. *)
Definition createAsset (id : string) (data : AssetData.t)
    (assets : gmap string Asset) : Outcome string * gmap string Asset :=
  match initializeYearlyPerformance (AssetData.startDate data)
          (AssetData.maturityDate data) (AssetData.initialAmount data)
          (AssetData.returns data) with
  | Throw e => (Throw e, assets)
  | Return performance =>
      let asset :=
        {| id := id;
           name := AssetData.name data;
           initialAmount := AssetData.initialAmount data;
           category := AssetData.category data;
           startDate := AssetData.startDate data;
           maturityDate := AssetData.maturityDate data;
           returns := AssetData.returns data;
           yearlyPerformance := performance |} in
      (Return id, <[id := asset]> assets)
  end.

(** [{ ...asset, ...data }]: every own property of [data], also one that
    holds [undefined], replaces the asset's. *)
Definition mergeAsset (asset : Asset) (data : AssetUpdate.t) : Asset :=
  {| id := id asset;
     name := default (name asset) (AssetUpdate.name data);
     initialAmount := default (initialAmount asset) (AssetUpdate.initialAmount data);
     category := default (category asset) (AssetUpdate.category data);
     startDate := default (startDate asset) (AssetUpdate.startDate data);
     maturityDate :=
       match AssetUpdate.maturityDate data with
       | Absent => maturityDate asset
       | Undefined => None
       | Given maturity => maturity
       end;
     returns := default (returns asset) (AssetUpdate.returns data);
     yearlyPerformance :=
       default (yearlyPerformance asset) (AssetUpdate.yearlyPerformance data) |}.

(** [data.initialAmount !== undefined || data.returns !== undefined ||
    data.startDate !== undefined || data.maturityDate !== undefined]. *)
Definition affectsValuation (data : AssetUpdate.t) : bool :=
  bool_decide (is_Some (AssetUpdate.initialAmount data))
  || bool_decide (is_Some (AssetUpdate.returns data))
  || bool_decide (is_Some (AssetUpdate.startDate data))
  || match AssetUpdate.maturityDate data with
     | Given _ => true
     | Absent | Undefined => false
     end.

Definition withYearlyPerformance (asset : Asset)
    (performance : list YearlyPerformance) : Asset :=
  {| id := id asset;
     name := name asset;
     initialAmount := initialAmount asset;
     category := category asset;
     startDate := startDate asset;
     maturityDate := maturityDate asset;
     returns := returns asset;
     yearlyPerformance := performance |}.

Definition updateAsset (id : string) (data : AssetUpdate.t)
    (assets : gmap string Asset) : Outcome unit * gmap string Asset :=
  match assets !! id with
  | Some asset =>
      let updatedAsset := mergeAsset asset data in
      if affectsValuation data then
        match initializeYearlyPerformance (startDate updatedAsset)
                (maturityDate updatedAsset) (initialAmount updatedAsset)
                (returns updatedAsset) with
        | Throw e => (Throw e, assets)
        | Return performance =>
            (Return tt,
             <[id := withYearlyPerformance updatedAsset performance]> assets)
        end
      else (Return tt, <[id := updatedAsset]> assets)
  | None => (Return tt, assets)
  end.

(** [{ ...performance, actualEndValue: ..., ... }]. *)
Definition withActual (actualData : ActualData.t)
    (performance : YearlyPerformance) : YearlyPerformance :=
  {| year := year performance;
     startValue := startValue performance;
     endValue := endValue performance;
     capitalGains := capitalGains performance;
     dividends := dividends performance;
     totalDividends := totalDividends performance;
     actualEndValue := ActualData.endValue actualData;
     actualCapitalGains := ActualData.capitalGains actualData;
     actualDividends := ActualData.dividends actualData;
     actualTotalDividends := ActualData.totalDividends actualData |}.

(** The record is replaced inside the asset's own array, which no other
    asset of the map shares; the asset keeps its place in the map. *)
Definition updateActualPerformance (id : string) (target : Z)
    (actualData : ActualData.t) (assets : gmap string Asset)
    : gmap string Asset :=
  match assets !! id with
  | Some asset =>
      let performanceIndex :=
        findIndex (fun p => year p =? target) (yearlyPerformance asset) in
      if performanceIndex =? -1 then assets
      else
        <[id := withYearlyPerformance asset
                  (alter (withActual actualData) (Z.to_nat performanceIndex)
                     (yearlyPerformance asset))]> assets
  | None => assets
  end.

(** *** Monte Carlo simulation *)

Definition getPercentile (sortedArray : list Q) (percentile : Q) : option Q :=
  let index := Math.floor (inject_Z (Z.of_nat (length sortedArray)) * percentile)%Q in
  Array_get sortedArray index.

(** The loop [for (let year = 1; year <= years; year++)], with [n]
    iterations left; [k] counts the calls of [normalRandom] so far. *)
Fixpoint simulatePath (annualRate volatility : Q) (n : nat) (k : nat)
    (value : Q) (path : list Q) : list Q * nat :=
  match n with
  | O => (path, k)
  | S n' =>
      let randomReturn :=
        (Math_exp (annualRate - 0.5 * volatility * volatility
                   + volatility * normalRandom k) - 1)%Q in
      let value := (value * (1 + randomReturn))%Q in
      simulatePath annualRate volatility n' (S k) value (path ++ [value])
  end.

(** The loop [for (let i = 0; i < iterations; i++)], with [n] iterations
    left. *)
Fixpoint simulatePaths (asset : Asset) (volatility : Q) (years : Z)
    (n : nat) (k : nat) (results : list (list Q)) : list (list Q) * nat :=
  match n with
  | O => (results, k)
  | S n' =>
      let value := initialAmount asset in
      let '(path, k') :=
        simulatePath (annualRate (capitalGain (returns asset))) volatility
          (Z.to_nat years) k value [value] in
      simulatePaths asset volatility years n' k' (results ++ [path])
  end.

(** [runMonteCarloSimulation(assetId, years, iterations = 1000)]; the
    result [None] is [null].  Returned with it are the map, which the
    method only reads, and the count of [normalRandom] calls. *)
Definition runMonteCarloSimulation (assetId : string) (years : Z)
    (iterations : option Z) (assets : gmap string Asset) (k : nat)
    : Outcome (option SimulationResult) * gmap string Asset * nat :=
  match assets !! assetId with
  | None => (Return None, assets, k)
  | Some asset =>
      let iterations := default 1000 iterations in
      let volatility := 0.15%Q in
      let '(results, k') :=
        simulatePaths asset volatility years (Z.to_nat iterations) k [] in
      let finalValues := sortAscending (map (fun path => List.last path 0%Q) results) in
      (Return (Some {| bestCase := getPercentile finalValues 0.95;
                       expected := getPercentile finalValues 0.5;
                       worstCase := getPercentile finalValues 0.05;
                       paths := results |}),
       assets, k')
  end.

End AssetStore.

(** ** Specification-side definitions *)

(** [chainedFrom v l]: the first record of [l] starts at [v] and every
    later record starts at the end value of the record before it. *)
Fixpoint chainedFrom (v : Z) (l : list YearlyPerformance) : Prop :=
  match l with
  | [] => True
  | p :: rest => startValue p = v /\ chainedFrom (endValue p) rest
  end.

(** An asset whose [yearlyPerformance] the lifetime projection produced:
    stored by [createAsset], or by [updateAsset] on a payload that
    triggers the recomputation. *)
Inductive Projected (tz : Z) : Asset -> Prop :=
  | Projected_create (id : string) (data : AssetData.t)
      (assets assets' : gmap string Asset) (asset : Asset) :
      createAsset tz id data assets = (Return id, assets') ->
      assets' !! id = Some asset ->
      Projected tz asset
  | Projected_update (id : string) (data : AssetUpdate.t)
      (assets assets' : gmap string Asset) (asset : Asset) :
      is_Some (assets !! id) ->
      affectsValuation data = true ->
      updateAsset tz id data assets = (Return tt, assets') ->
      assets' !! id = Some asset ->
      Projected tz asset.

(** The schedule of the compounding calculator in the specification's
    words: periods in a year and rate per period. *)
Definition periodsAndRate (annualRate : Q) (frequency : string) : Z * Q :=
  if decide (frequency = "daily") then (365, (annualRate / 365)%Q)
  else if decide (frequency = "monthly") then (12, (annualRate / 12)%Q)
  else (1, annualRate).

(** ** Example data *)

Definition quarterlyReturns : ReturnModel :=
  {| capitalGain := {| annualRate := 0.05; compoundingFrequency := "yearly" |};
     incomeGain := Some {| dividendYield := 0.02;
                           paymentFrequency := "quarterly";
                           reinvestDividends := true |} |}.

(** A bond bought on 2024-01-01 and maturing on 2026-06-30. *)
Definition bondData : AssetData.t :=
  {| AssetData.name := "bond";
     AssetData.initialAmount := 100000;
     AssetData.category := "bonds";
     AssetData.startDate := Date.parseDateOnly 2024 1 1;
     AssetData.maturityDate := Some (Date.parseDateOnly 2026 6 30);
     AssetData.returns := quarterlyReturns |}.

(** The same bond with a principal of 100000.5. *)
Definition fractionalData : AssetData.t :=
  {| AssetData.name := "bond";
     AssetData.initialAmount := 100000.5;
     AssetData.category := "bonds";
     AssetData.startDate := Date.parseDateOnly 2024 1 1;
     AssetData.maturityDate := Some (Date.parseDateOnly 2026 6 30);
     AssetData.returns := quarterlyReturns |}.

Definition storedAt (id : string) (assets : gmap string Asset) (fallback : Asset) : Asset :=
  default fallback (assets !! id).

Definition noAsset : Asset :=
  {| id := ""; name := ""; initialAmount := 0; category := "";
     startDate := None; maturityDate := None;
     returns := quarterlyReturns; yearlyPerformance := [] |}.

(** The assets the store holds after [createAsset] in a runtime on Tokyo
    time. *)
Definition bondAsset : Asset :=
  Eval vm_compute in storedAt "a1" (snd (createAsset 540 "a1" bondData ∅)) noAsset.

Definition fractionalAsset : Asset :=
  Eval vm_compute in storedAt "a1" (snd (createAsset 540 "a1" fractionalData ∅)) noAsset.

(** The scenario's return model: 5% compounded yearly, no income gain. *)
Definition scenarioReturns : ReturnModel :=
  {| capitalGain := {| annualRate := 0.05; compoundingFrequency := "yearly" |};
     incomeGain := None |}.

Definition scenarioData : AssetData.t :=
  {| AssetData.name := "fund";
     AssetData.initialAmount := 100000;
     AssetData.category := "funds";
     AssetData.startDate := Date.parseDateOnly 2024 1 1;
     AssetData.maturityDate := None;
     AssetData.returns := scenarioReturns |}.

(** The scenario with an income gain of yield zero in place of none. *)
Definition zeroYieldReturns : ReturnModel :=
  {| capitalGain := {| annualRate := 0.05; compoundingFrequency := "yearly" |};
     incomeGain := Some {| dividendYield := 0;
                           paymentFrequency := "yearly";
                           reinvestDividends := false |} |}.


(** The sum of the amounts of a year's payments. *)
Definition sumAmounts (dividends : list DividendPayment) : Z :=
  fold_left (fun sum div => sum + amount div) dividends 0.

(** The date string of [new Date(year, month, 1)]. *)
Definition firstOfMonth (tz year month : Z) : Outcome string :=
  Date.toISODateString (Date.fromFields tz year month 1).

(** Years a Date can hold for every month. *)
Definition yearInRange (y : Z) : Prop := -271820 <= y <= 275759.

(** The projected fields of a yearly record. *)
Definition projectedFields (p : YearlyPerformance)
    : Z * Z * Z * Z * list DividendPayment * Z :=
  (year p, startValue p, endValue p, capitalGains p, dividends p, totalDividends p).

(** Everything of an asset but its yearly records. *)
Definition assetSettings (a : Asset)
    : string * string * Q * string * Date.TimeValue * option Date.TimeValue
      * ReturnModel :=
  (id a, name a, initialAmount a, category a, startDate a, maturityDate a,
   returns a).

(** The matched record of a reconciliation: position [i] holds the first
    record of the year [target]. *)
Definition firstOfYear (target : Z) (l : list YearlyPerformance) (i : nat) : Prop :=
  (exists p, l !! i = Some p /\ year p = target) /\
  forall (j : nat) q, (j < i)%nat -> l !! j = Some q -> year q <> target.

Definition bondActual : ActualData.t :=
  {| ActualData.endValue := Some 113000%Q;
     ActualData.capitalGains := Some 4100%Q;
     ActualData.dividends := Some [("2025-06-30"%string, 1900%Q)];
     ActualData.totalDividends := Some 1900%Q |}.

(** The payload [{ maturityDate: undefined }]. *)
Definition clearMaturity : AssetUpdate.t :=
  {| AssetUpdate.name := None;
     AssetUpdate.initialAmount := None;
     AssetUpdate.category := None;
     AssetUpdate.startDate := None;
     AssetUpdate.maturityDate := Undefined;
     AssetUpdate.returns := None;
     AssetUpdate.yearlyPerformance := None |}.

(** The payload [{ maturityDate: null }]. *)
Definition nullMaturity : AssetUpdate.t :=
  {| AssetUpdate.name := None;
     AssetUpdate.initialAmount := None;
     AssetUpdate.category := None;
     AssetUpdate.startDate := None;
     AssetUpdate.maturityDate := Given None;
     AssetUpdate.returns := None;
     AssetUpdate.yearlyPerformance := None |}.

(** The payload [{ returns: { capitalGain: ... } }], without income gain. *)
Definition gainOnlyReturns : AssetUpdate.t :=
  {| AssetUpdate.name := None;
     AssetUpdate.initialAmount := None;
     AssetUpdate.category := None;
     AssetUpdate.startDate := None;
     AssetUpdate.maturityDate := Absent;
     AssetUpdate.returns := Some scenarioReturns;
     AssetUpdate.yearlyPerformance := None |}.

Definition bondStore : gmap string Asset := {[ "a1"%string := bondAsset ]}.

(** The payload edits one of the four settings the projection depends on:
    the property is there and holds a value ([null] included, for
    [maturityDate]). *)
Definition editsProjection (data : AssetUpdate.t) : Prop :=
  is_Some (AssetUpdate.initialAmount data) \/
  is_Some (AssetUpdate.returns data) \/
  is_Some (AssetUpdate.startDate data) \/
  exists maturity, AssetUpdate.maturityDate data = Given maturity.

(** The three percentiles the simulator reads. *)
Definition simulatorPercentile (p : Q) : Prop :=
  p = 0.95%Q \/ p = 0.5%Q \/ p = 0.05%Q.

(** A runtime for examples: [Math.exp] and the normal variates are never
    asked for when no year is simulated. *)
Definition idleExp (x : Q) : Q := x.
Definition idleNormal (k : nat) : Q := 0.

(** ** The percentile index in binary64

    [Math.floor(sortedArray.length * percentile)] as the runtime computes
    it, on IEEE 754 doubles: the literals are the doubles nearest to 0.95
    and 0.05, the product is rounded to nearest, and the floor is exact. *)
Module Double.
Import PrimFloat.

Definition one : float := 1%float.
Definition two52 : float := 4503599627370496%float.

(** [Math.floor] on a double in the range 0 .. 2^52: adding and removing
    2^52 rounds to an integer, one too high when it rounded up. *)
Definition floor (x : float) : float :=
  let r := ((x + two52) - two52)%float in
  if ltb x r then (r - 1)%float else r.

Definition percentileIndex (length percentile : float) : float :=
  floor (length * percentile).

Definition indexInBounds (length : float) : bool :=
  ltb (percentileIndex length 0x1.e666666666666p-1) length
  && ltb (percentileIndex length 0.5) length
  && ltb (percentileIndex length 0x1.999999999999ap-5) length.

(** [indexInBounds] at [count] successive lengths from [length] on. *)
Fixpoint allInBounds (count : nat) (length : float) : bool :=
  match count with
  | O => true
  | S count' => indexInBounds length && allInBounds count' (length + 1)
  end.

End Double.

(** * The rest of the store *)

(** ** Specification-side definitions for the projection *)

(** The calendar years from the start year to the end year of an asset, in
    local time; none when a date is invalid or the end lies before the
    start. *)
Definition projectionYears (tz : Z) (startDate : Date.TimeValue)
    (maturityDate : option Date.TimeValue) : list Z :=
  match Date.getFullYear tz startDate with
  | Some startYear =>
      match maturityDate with
      | Some maturity =>
          match Date.getFullYear tz maturity with
          | Some endYear => seqZ startYear (endYear - startYear + 1)
          | None => []
          end
      | None => seqZ startYear 51
      end
  | None => []
  end.

(** The number of payments in a year, by payment frequency. *)
Definition paymentsIn (paymentFrequency : string) : Z :=
  if decide (paymentFrequency = "monthly") then 12
  else if decide (paymentFrequency = "quarterly") then 4
  else 1.

(** ** deleteAsset *)

(** [deleteAsset(id)]: [this.assets.delete(id)]. *)
Definition deleteAsset (id : string) (assets : gmap string Asset)
    : gmap string Asset :=
  delete id assets.

(** A record without an actual-result overlay. *)
Definition noActual (p : YearlyPerformance) : Prop :=
  actualEndValue p = None /\ actualCapitalGains p = None /\
  actualDividends p = None /\ actualTotalDividends p = None.

(** The payload [{ name: "bond (renamed)" }]. *)
Definition renameOnly : AssetUpdate.t :=
  {| AssetUpdate.name := Some "bond (renamed)"%string;
     AssetUpdate.initialAmount := None;
     AssetUpdate.category := None;
     AssetUpdate.startDate := None;
     AssetUpdate.maturityDate := Absent;
     AssetUpdate.returns := None;
     AssetUpdate.yearlyPerformance := None |}.

(** The payload [{ initialAmount: 250000 }]. *)
Definition newPrincipal : AssetUpdate.t :=
  {| AssetUpdate.name := None;
     AssetUpdate.initialAmount := Some 250000%Q;
     AssetUpdate.category := None;
     AssetUpdate.startDate := None;
     AssetUpdate.maturityDate := Absent;
     AssetUpdate.returns := None;
     AssetUpdate.yearlyPerformance := None |}.

(** A second reconciliation payload. *)
Definition bondActualRevised : ActualData.t :=
  {| ActualData.endValue := Some 113500%Q;
     ActualData.capitalGains := None;
     ActualData.dividends := None;
     ActualData.totalDividends := Some 2000%Q |}.

(** ** The Map as an ordered collection

    A JavaScript [Map] keeps its entries in insertion order, which
    [serialize], [hydrate] and the getters expose.  Here it is the list of
    its entries, keys distinct; [view] is the lookup view that the
    operations above work on. *)
Module JsMap.
Section Ops.

Context {V : Type}.

(** [map.get(key)]. *)
Fixpoint get (key : string) (m : list (string * V)) : option V :=
  match m with
  | [] => None
  | (k, v) :: rest => if String.eqb k key then Some v else get key rest
  end.

(** [map.set(key, value)]: a known key keeps its place, a new key goes to
    the end. *)
Fixpoint set (key : string) (value : V) (m : list (string * V))
    : list (string * V) :=
  match m with
  | [] => [(key, value)]
  | (k, v) :: rest =>
      if String.eqb k key then (key, value) :: rest
      else (k, v) :: set key value rest
  end.

(** [map.delete(key)]. *)
Fixpoint delete (key : string) (m : list (string * V)) : list (string * V) :=
  match m with
  | [] => []
  | (k, v) :: rest =>
      if String.eqb k key then rest else (k, v) :: delete key rest
  end.

(** [Array.from(map.values())] and the keys, in insertion order. *)
Definition values (m : list (string * V)) : list V := map snd m.
Definition keys (m : list (string * V)) : list string := map fst m.

Definition view (m : list (string * V)) : gmap string V := list_to_map m.

End Ops.
End JsMap.

(** ** serialize, hydrate, reset *)

Definition serialize (assets : list (string * Asset)) : list Asset :=
  JsMap.values assets.

(** [hydrate(data)]: the map is cleared, then every asset of [data] is set
    under its own [id]. *)
Definition hydrate (data : list Asset) (assets : list (string * Asset))
    : list (string * Asset) :=
  fold_left (fun m asset => JsMap.set (id asset) asset m) data [].

Definition reset (assets : list (string * Asset)) : list (string * Asset) := [].

(** Every entry is stored under the [id] of its asset, as [createAsset],
    [updateAsset] and [hydrate] store it. *)
Definition keyedById (assets : list (string * Asset)) : Prop :=
  Forall (fun entry => fst entry = id (snd entry)) assets.

(** ** The getters *)

(** [array.sort(compare)] with a comparator that reports "not after": a
    stable sort.  [insertSorted] places an element before the first one it
    is not after. *)
Fixpoint insertSorted {A : Type} (notAfter : A -> A -> bool) (x : A)
    (sorted : list A) : list A :=
  match sorted with
  | [] => [x]
  | y :: rest =>
      if notAfter x y then x :: sorted
      else y :: insertSorted notAfter x rest
  end.

Fixpoint stableSort {A : Type} (notAfter : A -> A -> bool) (array : list A)
    : list A :=
  match array with
  | [] => []
  | x :: rest => insertSorted notAfter x (stableSort notAfter rest)
  end.

(** The comparator of [sortedAssets],
    [(a, b) => new Date(b.startDate) - new Date(a.startDate)], is not
    positive: [a] starts no earlier than [b].  With an invalid date the
    difference is NaN, which [sort] takes for zero. *)
Definition startsNoEarlier (a b : Asset) : bool :=
  match startDate b, startDate a with
  | Some tb, Some ta => tb - ta <=? 0
  | _, _ => true
  end.

Definition sortedAssets (assets : list (string * Asset)) : list Asset :=
  stableSort startsNoEarlier (JsMap.values assets).

(** [latestPerformance.actualEndValue || latestPerformance.endValue]: the
    actual value unless it is undefined or zero. *)
Definition latestValue (latestPerformance : YearlyPerformance) : Q :=
  match actualEndValue latestPerformance with
  | Some actual =>
      if Qeq_bool actual 0 then inject_Z (endValue latestPerformance) else actual
  | None => inject_Z (endValue latestPerformance)
  end.

(** The reduction of [totalAssetValue]; reading [actualEndValue] of the
    last record raises a TypeError when the asset has no record. *)
Fixpoint totalAssetValue_reduce (assets : list Asset) (total : Q) : Outcome Q :=
  match assets with
  | [] => Return total
  | asset :: rest =>
      match Array_get (yearlyPerformance asset)
              (Z.of_nat (length (yearlyPerformance asset)) - 1) with
      | None => Throw TypeError
      | Some latestPerformance =>
          totalAssetValue_reduce rest (total + latestValue latestPerformance)%Q
      end
  end.

Definition totalAssetValue (assets : list (string * Asset)) : Outcome Q :=
  totalAssetValue_reduce (JsMap.values assets) 0.

(** An asset whose start date does not parse. *)
Definition undatedData : AssetData.t :=
  {| AssetData.name := "undated";
     AssetData.initialAmount := 5000;
     AssetData.category := "bonds";
     AssetData.startDate := None;
     AssetData.maturityDate := None;
     AssetData.returns := quarterlyReturns |}.

Definition savingsAsset : Asset :=
  Eval vm_compute in
    storedAt "b2" (snd (createAsset 540 "b2"
       {| AssetData.name := "savings";
          AssetData.initialAmount := 20000;
          AssetData.category := "cash";
          AssetData.startDate := Date.parseDateOnly 2025 4 1;
          AssetData.maturityDate := Some (Date.parseDateOnly 2025 12 31);
          AssetData.returns := zeroYieldReturns |} ∅)) noAsset.

Definition twoAssets : list (string * Asset) :=
  [("a1"%string, bondAsset); ("b2"%string, savingsAsset)].

(** What an asset counts for in the total, read off its fields: the actual
    end value of its last record where that is recorded and not zero, the
    projected end value of that record otherwise. *)
Definition countedValue (asset : Asset) : Q :=
  match last (yearlyPerformance asset) with
  | Some record =>
      match actualEndValue record with
      | Some actual =>
          if Qeq_bool actual 0 then inject_Z (endValue record) else actual
      | None => inject_Z (endValue record)
      end
  | None => 0
  end.

Definition sumQ (values : list Q) : Q := fold_right Qplus 0%Q values.

(** The start time of an asset, for assets with a valid start date. *)
Definition startTime (asset : Asset) : Z := default 0 (startDate asset).

(** * GroupStore

    The income and the expense groups: two Maps from a group's id to the
    group, each group holding a list of items.  [drawn] counts the calls of
    [nanoid()] so far, the [k]-th call returning [nanoid k]. *)
Module GroupStore.
Section GroupStore.

(** The properties of an item other than its [id]; the store copies them. *)
Context {F : Type}.
Variable nanoid : nat -> string.

(** The array literals of [initializeDefaultGroups], without the ids: the
    name of each default group and the fields of its items. *)
Variable defaultIncomeGroups defaultExpenseGroups : list (string * list F).

(** An item as a caller hands it over or as it is stored; [itemId] is
    [None] when the property is missing. *)
Record Item : Type := {
  itemId : option string;
  itemFields : F
}.

Record Group : Type := {
  groupId : string;
  groupName : string;
  groupItems : list Item
}.

(** The payload of [createIncomeGroup] and [createExpenseGroup]. *)
Record GroupData : Type := {
  dataName : string;
  dataItems : option (list Item)
}.

(** The payload of [updateIncomeGroup] and [updateExpenseGroup]. *)
Record GroupUpdate : Type := {
  updateName : option string;
  updateItems : option (list Item)
}.

Record State : Type := {
  incomeGroups : list (string * Group);
  expenseGroups : list (string * Group);
  drawn : nat
}.

(** A string or [undefined] in a condition. *)
Definition truthy (s : option string) : bool :=
  match s with
  | Some text => negb (String.eqb text "")
  | None => false
  end.

(** [items.map((item) => ({ ...item, id: nanoid() }))], from the [k]-th
    call of [nanoid] on. *)
Fixpoint withFreshIds (items : list Item) (k : nat) : list Item * nat :=
  match items with
  | [] => ([], k)
  | item :: rest =>
      let item' := {| itemId := Some (nanoid k); itemFields := itemFields item |} in
      let '(rest', k') := withFreshIds rest (S k) in
      (item' :: rest', k')
  end.

(** [items.map((item) => ({ ...item, id: item.id || nanoid() }))]. *)
Fixpoint withMissingIds (items : list Item) (k : nat) : list Item * nat :=
  match items with
  | [] => ([], k)
  | item :: rest =>
      if truthy (itemId item) then
        let '(rest', k') := withMissingIds rest k in
        (item :: rest', k')
      else
        let item' := {| itemId := Some (nanoid k); itemFields := itemFields item |} in
        let '(rest', k') := withMissingIds rest (S k) in
        (item' :: rest', k')
  end.

(** The body shared by [createIncomeGroup] and [createExpenseGroup]:
    [data.items.map] raises a TypeError when [data.items] is undefined, the
    id of the group being drawn already. *)
Definition createGroup (data : GroupData) (groups : list (string * Group))
    (k : nat) : Outcome string * list (string * Group) * nat :=
  let id := nanoid k in
  match dataItems data with
  | None => (Throw TypeError, groups, S k)
  | Some items =>
      let '(items', k') := withFreshIds items (S k) in
      (Return id,
       JsMap.set id {| groupId := id; groupName := dataName data;
                       groupItems := items' |} groups,
       k')
  end.

(** The body shared by [updateIncomeGroup] and [updateExpenseGroup]. *)
Definition updateGroup (id : string) (data : GroupUpdate)
    (groups : list (string * Group)) (k : nat)
    : list (string * Group) * nat :=
  match JsMap.get id groups with
  | Some group =>
      let name :=
        if truthy (updateName data) then default (groupName group) (updateName data)
        else groupName group in
      let '(items, k') :=
        match updateItems data with
        | Some items => withMissingIds items k
        | None => (groupItems group, k)
        end in
      (JsMap.set id {| groupId := groupId group; groupName := name;
                       groupItems := items |} groups,
       k')
  | None => (groups, k)
  end.

(** The body shared by [addIncomeGroupItem] and [addExpenseGroupItem]. *)
Definition addGroupItem (groupId' : string) (item : Item)
    (groups : list (string * Group)) (k : nat)
    : list (string * Group) * nat :=
  match JsMap.get groupId' groups with
  | Some group =>
      (JsMap.set groupId'
         {| groupId := groupId group; groupName := groupName group;
            groupItems := groupItems group
                          ++ [ {| itemId := Some (nanoid k);
                                  itemFields := itemFields item |} ] |} groups,
       S k)
  | None => (groups, k)
  end.

(** The body shared by [removeIncomeGroupItem] and
    [removeExpenseGroupItem]: [items.filter((item) => item.id !== itemId)]. *)
Definition removeGroupItem (groupId' : string) (itemId' : string)
    (groups : list (string * Group)) : list (string * Group) :=
  match JsMap.get groupId' groups with
  | Some group =>
      JsMap.set groupId'
        {| groupId := groupId group; groupName := groupName group;
           groupItems :=
             filter (fun item => itemId item <> Some itemId') (groupItems group) |}
        groups
  | None => groups
  end.

Definition createIncomeGroup (data : GroupData) (st : State)
    : Outcome string * State :=
  let '(out, groups, k) := createGroup data (incomeGroups st) (drawn st) in
  (out, {| incomeGroups := groups; expenseGroups := expenseGroups st; drawn := k |}).

Definition createExpenseGroup (data : GroupData) (st : State)
    : Outcome string * State :=
  let '(out, groups, k) := createGroup data (expenseGroups st) (drawn st) in
  (out, {| incomeGroups := incomeGroups st; expenseGroups := groups; drawn := k |}).

Definition updateIncomeGroup (id : string) (data : GroupUpdate) (st : State) : State :=
  let '(groups, k) := updateGroup id data (incomeGroups st) (drawn st) in
  {| incomeGroups := groups; expenseGroups := expenseGroups st; drawn := k |}.

Definition updateExpenseGroup (id : string) (data : GroupUpdate) (st : State) : State :=
  let '(groups, k) := updateGroup id data (expenseGroups st) (drawn st) in
  {| incomeGroups := incomeGroups st; expenseGroups := groups; drawn := k |}.

Definition deleteIncomeGroup (id : string) (st : State) : State :=
  {| incomeGroups := JsMap.delete id (incomeGroups st);
     expenseGroups := expenseGroups st; drawn := drawn st |}.

Definition deleteExpenseGroup (id : string) (st : State) : State :=
  {| incomeGroups := incomeGroups st;
     expenseGroups := JsMap.delete id (expenseGroups st); drawn := drawn st |}.

Definition addIncomeGroupItem (groupId' : string) (item : Item) (st : State) : State :=
  let '(groups, k) := addGroupItem groupId' item (incomeGroups st) (drawn st) in
  {| incomeGroups := groups; expenseGroups := expenseGroups st; drawn := k |}.

Definition addExpenseGroupItem (groupId' : string) (item : Item) (st : State) : State :=
  let '(groups, k) := addGroupItem groupId' item (expenseGroups st) (drawn st) in
  {| incomeGroups := incomeGroups st; expenseGroups := groups; drawn := k |}.

Definition removeIncomeGroupItem (groupId' itemId' : string) (st : State) : State :=
  {| incomeGroups := removeGroupItem groupId' itemId' (incomeGroups st);
     expenseGroups := expenseGroups st; drawn := drawn st |}.

Definition removeExpenseGroupItem (groupId' itemId' : string) (st : State) : State :=
  {| incomeGroups := incomeGroups st;
     expenseGroups := removeGroupItem groupId' itemId' (expenseGroups st);
     drawn := drawn st |}.

(** *** initializeDefaultGroups, reset *)

(** An array literal of items, every item with [id: nanoid()]. *)
Fixpoint literalItems (fields : list F) (k : nat) : list Item * nat :=
  match fields with
  | [] => ([], k)
  | f :: rest =>
      let '(rest', k') := literalItems rest (S k) in
      ({| itemId := Some (nanoid k); itemFields := f |} :: rest', k')
  end.

(** An array literal of groups, [{ name, items: [...] }]. *)
Fixpoint literalGroups (groups : list (string * list F)) (k : nat)
    : list GroupData * nat :=
  match groups with
  | [] => ([], k)
  | (name, fields) :: rest =>
      let '(items, k1) := literalItems fields k in
      let '(rest', k2) := literalGroups rest k1 in
      ({| dataName := name; dataItems := Some items |} :: rest', k2)
  end.

(** [initializeDefaultGroups()]: the two literals are built first, drawing
    an id for every item, then every group is created, income groups
    first.  Every literal group has its items, so no creation raises. *)
Definition initializeDefaultGroups (st : State) : State :=
  let '(income, k1) := literalGroups defaultIncomeGroups (drawn st) in
  let '(expense, k2) := literalGroups defaultExpenseGroups k1 in
  let st1 :=
    fold_left (fun st' group => snd (createIncomeGroup group st')) income
      {| incomeGroups := incomeGroups st; expenseGroups := expenseGroups st;
         drawn := k2 |} in
  fold_left (fun st' group => snd (createExpenseGroup group st')) expense st1.

(** [reset()]: both Maps are cleared, then the defaults are created. *)
Definition reset (st : State) : State :=
  initializeDefaultGroups
    {| incomeGroups := []; expenseGroups := []; drawn := drawn st |}.

(** *** serialize, hydrate *)

(** What [serialize] returns and [hydrate] takes; [hydrate] skips a list
    that is missing ([data.incomeGroups?.forEach]). *)
Record Snapshot : Type := {
  snapshotIncome : option (list Group);
  snapshotExpense : option (list Group)
}.

Definition serialize (st : State) : Snapshot :=
  {| snapshotIncome := Some (JsMap.values (incomeGroups st));
     snapshotExpense := Some (JsMap.values (expenseGroups st)) |}.

(** [groups?.forEach((group) => map.set(group.id, group))] on a cleared
    Map: every group is stored as it comes. *)
Definition hydrateGroups (groups : option (list Group)) : list (string * Group) :=
  fold_left (fun m group => JsMap.set (groupId group) group m) (default [] groups) [].

Definition hydrate (data : Snapshot) (st : State) : State :=
  {| incomeGroups := hydrateGroups (snapshotIncome data);
     expenseGroups := hydrateGroups (snapshotExpense data);
     drawn := drawn st |}.

(** *** The writing methods *)

(** Every item of the group carries an id that is not empty. *)
Definition identifiedGroup (group : Group) : Prop :=
  Forall (fun item => truthy (itemId item) = true) (groupItems group).

Definition identifiedSnapshot (data : Snapshot) : Prop :=
  Forall identifiedGroup (default [] (snapshotIncome data)) /\
  Forall identifiedGroup (default [] (snapshotExpense data)).

(** One call of a method that writes the store.  [hydrate] stores the
    groups it is given as they come; the step is that of a snapshot whose
    items carry their ids, as [serialize] returns it from a store whose
    items do. *)
Inductive step : State -> State -> Prop :=
  | step_createIncome data st : step st (snd (createIncomeGroup data st))
  | step_createExpense data st : step st (snd (createExpenseGroup data st))
  | step_updateIncome id data st : step st (updateIncomeGroup id data st)
  | step_updateExpense id data st : step st (updateExpenseGroup id data st)
  | step_deleteIncome id st : step st (deleteIncomeGroup id st)
  | step_deleteExpense id st : step st (deleteExpenseGroup id st)
  | step_addIncome g item st : step st (addIncomeGroupItem g item st)
  | step_addExpense g item st : step st (addExpenseGroupItem g item st)
  | step_removeIncome g i st : step st (removeIncomeGroupItem g i st)
  | step_removeExpense g i st : step st (removeExpenseGroupItem g i st)
  | step_initializeDefaults st : step st (initializeDefaultGroups st)
  | step_reset st : step st (reset st)
  | step_hydrate data st : identifiedSnapshot data -> step st (hydrate data st).

(** Every item of every group carries an id that is not empty, and every
    group is stored under its own id. *)
Definition identified (groups : list (string * Group)) : Prop :=
  Forall (fun entry =>
            fst entry = groupId (snd entry) /\
            Forall (fun item => truthy (itemId item) = true)
              (groupItems (snd entry))) groups.

Definition wellIdentified (st : State) : Prop :=
  identified (incomeGroups st) /\ identified (expenseGroups st).

End GroupStore.
End GroupStore.

(** An id source for examples: "id-0", "id-1", ... up to nine, then
    "id-n". *)
Definition exampleIds (k : nat) : string :=
  match k with
  | 0%nat => "id-0" | 1%nat => "id-1" | 2%nat => "id-2" | 3%nat => "id-3"
  | 4%nat => "id-4" | 5%nat => "id-5" | 6%nat => "id-6" | 7%nat => "id-7"
  | 8%nat => "id-8" | _ => "id-n"
  end.

Definition salaryItems : list (@GroupStore.Item string) :=
  [ {| GroupStore.itemId := Some "given"%string; GroupStore.itemFields := "base pay"%string |};
    {| GroupStore.itemId := None; GroupStore.itemFields := "housing"%string |} ].

Definition emptyGroups : @GroupStore.State string :=
  {| GroupStore.incomeGroups := []; GroupStore.expenseGroups := [];
     GroupStore.drawn := 0 |}.

Definition salaryStore : @GroupStore.State string :=
  snd (GroupStore.createIncomeGroup exampleIds
         {| GroupStore.dataName := "salary"; GroupStore.dataItems := Some salaryItems |}
         emptyGroups).

(** The fields of a default item other than its id. *)
Module GroupItem.
Record t : Type := {
  name : string;
  amount : Z;
  frequency : string;
  category : string;
  group : string;
  date : option string
}.
End GroupItem.

(** The literals of [initializeDefaultGroups]. *)
Definition defaultIncomeGroups : list (string * list GroupItem.t) :=
  [ ("給与基本グループ"%string,
     [ {| GroupItem.name := "基本給"; GroupItem.amount := 300000;
          GroupItem.frequency := "monthly"; GroupItem.category := "給与収入";
          GroupItem.group := "給与基本グループ"; GroupItem.date := None |};
       {| GroupItem.name := "住宅手当"; GroupItem.amount := 20000;
          GroupItem.frequency := "monthly"; GroupItem.category := "給与収入";
          GroupItem.group := "給与基本グループ"; GroupItem.date := None |} ]);
    ("賞与グループ"%string,
     [ {| GroupItem.name := "夏季賞与"; GroupItem.amount := 600000;
          GroupItem.frequency := "yearly"; GroupItem.category := "給与収入";
          GroupItem.group := "賞与グループ";
          GroupItem.date := Some "2024-06-15"%string |};
       {| GroupItem.name := "冬季賞与"; GroupItem.amount := 600000;
          GroupItem.frequency := "yearly"; GroupItem.category := "給与収入";
          GroupItem.group := "賞与グループ";
          GroupItem.date := Some "2024-12-15"%string |} ]) ].

Definition defaultExpenseGroups : list (string * list GroupItem.t) :=
  [ ("基本生活費グループ"%string,
     [ {| GroupItem.name := "家賃"; GroupItem.amount := 80000;
          GroupItem.frequency := "monthly"; GroupItem.category := "固定費";
          GroupItem.group := "基本生活費グループ"; GroupItem.date := None |};
       {| GroupItem.name := "光熱費"; GroupItem.amount := 15000;
          GroupItem.frequency := "monthly"; GroupItem.category := "固定費";
          GroupItem.group := "基本生活費グループ"; GroupItem.date := None |};
       {| GroupItem.name := "通信費"; GroupItem.amount := 10000;
          GroupItem.frequency := "monthly"; GroupItem.category := "固定費";
          GroupItem.group := "基本生活費グループ"; GroupItem.date := None |} ]);
    ("定期支出グループ"%string,
     [ {| GroupItem.name := "生命保険料"; GroupItem.amount := 20000;
          GroupItem.frequency := "monthly"; GroupItem.category := "固定費";
          GroupItem.group := "定期支出グループ"; GroupItem.date := None |};
       {| GroupItem.name := "自動車保険料"; GroupItem.amount := 60000;
          GroupItem.frequency := "yearly"; GroupItem.category := "固定費";
          GroupItem.group := "定期支出グループ";
          GroupItem.date := Some "2024-04-01"%string |} ]) ].

(** An id source that never repeats: "id-0", "id-1", "id-2", ... *)
Definition numberedIds (k : nat) : string :=
  "id-" ++ DecimalString.NilEmpty.string_of_uint (Nat.to_uint k).

(** The store that [new GroupStore(rootStore)] builds, the constructor
    calling [initializeDefaultGroups] on two empty Maps. *)
Definition constructed (nanoid : nat -> string) : @GroupStore.State GroupItem.t :=
  GroupStore.initializeDefaultGroups nanoid defaultIncomeGroups defaultExpenseGroups
    {| GroupStore.incomeGroups := []; GroupStore.expenseGroups := [];
       GroupStore.drawn := 0 |}.

(** That store after a [reset()]. *)
Definition rebuilt : @GroupStore.State GroupItem.t :=
  GroupStore.reset numberedIds defaultIncomeGroups defaultExpenseGroups
    (constructed numberedIds).

(** A snapshot with an item that has no id, as an imported file may hold
    it. *)
Definition foreignSnapshot : @GroupStore.Snapshot string :=
  {| GroupStore.snapshotIncome :=
       Some [ {| GroupStore.groupId := "g";
                 GroupStore.groupName := "imported";
                 GroupStore.groupItems :=
                   [ {| GroupStore.itemId := None;
                        GroupStore.itemFields := "pension"%string |} ] |} ];
     GroupStore.snapshotExpense := None |}.

(** * Arithmetic that rounds

    The definitions above compute with exact rationals.  The program
    computes in binary64: every [+], [-], [*] and [/] returns the double
    nearest to the exact result, and [Math.pow] returns an approximation of
    the power that the language leaves to the engine.  Where a property
    depends on that, the calculators are taken over an [Arithmetic], the
    operations of the runtime on finite numbers, a finite double being the
    rational it stands for.  [Number.exact] gives back the definitions
    above; [Binary64.arithmetic] is the arithmetic of the program.

    Quantities that the code keeps whole (the results of [Math.round], their
    sums, loop counters) stay integers: on doubles their arithmetic is exact
    below 2^53.  Overflow to an infinity and NaN are not numbers of the
    model. *)

Module Number.

Record Arithmetic : Type := {
  add : Q -> Q -> Q;
  sub : Q -> Q -> Q;
  mul : Q -> Q -> Q;
  div : Q -> Q -> Q;
  pow : Q -> Z -> Q
}.

Definition exact : Arithmetic :=
  {| add := Qplus; sub := Qminus; mul := Qmult; div := Qdiv; pow := Math.pow |}.

End Number.

(** ** binary64

    Round to nearest, ties to even, with a significand of 53 bits and
    gradual underflow below 2^-1022 (IEEE 754, as ECMA-262 6.1.6.1 takes it
    over). *)

Module Binary64.

(** [floor (log2 |x|)] of a rational that is not zero: the difference of
    the bit lengths of numerator and denominator, or one less. *)
Definition exponent (x : Q) : Z :=
  let n := Z.abs (Qnum x) in
  let d := Zpos (Qden x) in
  let e := Z.log2 n - Z.log2 d in
  if (if 0 <=? e then d * 2 ^ e <=? n else d <=? n * 2 ^ (- e)) then e else e - 1.

(** The nearest integer, a tie going to the even one. *)
Definition nearestEven (x : Q) : Z :=
  let f := Qfloor x in
  match (x - inject_Z f ?= 1 # 2)%Q with
  | Lt => f
  | Gt => f + 1
  | Eq => if Z.even f then f else f + 1
  end.

(** The distance between neighbouring doubles around [x]. *)
Definition ulp (x : Q) : Q := Qpower 2 (Z.max (exponent x) (-1022) - 52).

(** The double nearest to [x]. *)
Definition round (x : Q) : Q :=
  if Qeq_bool x 0 then 0%Q
  else (inject_Z (nearestEven (x / ulp x)) * ulp x)%Q.

(** The arithmetic of the program, [Math_pow] being the engine's
    [Math.pow]. *)
Definition arithmetic (Math_pow : Q -> Z -> Q) : Number.Arithmetic :=
  {| Number.add := fun x y => round (x + y);
     Number.sub := fun x y => round (x - y);
     Number.mul := fun x y => round (x * y);
     Number.div := fun x y => round (x / y);
     Number.pow := Math_pow |}.

(** A [Math.pow] that returns the double nearest to the power. *)
Definition nearestPow (b : Q) (n : Z) : Q := round (Math.pow b n).

End Binary64.

(** ** The doubles of the machine

    The same four operations on the machine's binary64 numbers, to compare
    [Binary64.round] with. *)

Module Machine.
Import PrimFloat.

(** The rational that a finite double stands for. *)
Definition toQ (x : float) : Q :=
  match FloatOps.Prim2SF x with
  | SpecFloat.S754_finite negative m e =>
      ((if negative then -1 else 1) * inject_Z (Zpos m) * Qpower 2 e)%Q
  | _ => 0%Q
  end.

Definition agree (x y : float) : bool :=
  Qeq_bool (toQ (x + y)) (Binary64.round (toQ x + toQ y))
  && Qeq_bool (toQ (x - y)) (Binary64.round (toQ x - toQ y))
  && Qeq_bool (toQ (x * y)) (Binary64.round (toQ x * toQ y))
  && Qeq_bool (toQ (x / y)) (Binary64.round (toQ x / toQ y)).

(** [agree] at [count] left operands from [x] on, [step] apart, with every
    right operand of [ys]. *)
Fixpoint agreeFrom (count : nat) (x step : float) (ys : list float) : bool :=
  match count with
  | O => true
  | S count' => forallb (agree x) ys && agreeFrom count' (x + step) step ys
  end.

(** The doubles of 0.15, 0.02, 0.018, 0.03 and 1e-15, and the divisors of
    the calculators. *)
Definition operands : list float :=
  [ 0x1.3333333333333p-3; 0x1.47ae147ae147bp-6; 0x1.26e978d4fdf3bp-6;
    0x1.eb851eb851eb8p-6; 0x1.203af9ee75616p-50; 365; 12; 4; 3 ]%float.

Definition one : float := 1%float.
Definition step : float := 0x1.7ae147ae147aep-2%float.
Definition tiny : float := 0x1p-1030%float.
Definition tinyStep : float := 0x1.8p-1040%float.
Definition huge : float := 0x1.7e43c8800759cp+996%float.

End Machine.

(** ** The calculators over an arithmetic *)

Module Rounded.
Section Rounded.

Variable ops : Number.Arithmetic.
Variable tz : Z.

(** [calculateCapitalGain]. *)
Definition calculateCapitalGain (initialAmount annualRate : Q)
    (compoundingFrequency : string) : CapitalGainResult.t :=
  let '(periods, rate) :=
    if String.eqb compoundingFrequency "daily"
    then (365, Number.div ops annualRate 365)
    else if String.eqb compoundingFrequency "monthly"
    then (12, Number.div ops annualRate 12)
    else (1, annualRate) in
  let finalAmount :=
    Number.mul ops initialAmount
      (Number.pow ops (Number.add ops 1 rate) periods) in
  {| CapitalGainResult.evaluationAmount := finalAmount;
     CapitalGainResult.capitalGain := Number.sub ops finalAmount initialAmount |}.

(** [calculateDividends]; the months [(12 / paymentsPerYear) * i] are
    products of small integers, which no arithmetic rounds. *)
Definition calculateDividends (amount dividendYield : Q)
    (paymentFrequency : string) (year : Z) : Outcome (list DividendPayment) :=
  let paymentsPerYear :=
    if String.eqb paymentFrequency "monthly" then 12
    else if String.eqb paymentFrequency "quarterly" then 4
    else 1 in
  let dividendPerPayment :=
    Number.div ops (Number.mul ops amount dividendYield) (inject_Z paymentsPerYear) in
  calculateDividends_loop tz dividendPerPayment paymentsPerYear year
    (Z.to_nat paymentsPerYear) 0 [].

(** [calculateYearPerformance]. *)
Definition calculateYearPerformance (year : Z) (startValue : Q)
    (returns : ReturnModel) : Outcome YearlyPerformance :=
  let annualRate := annualRate (capitalGain returns) in
  let compoundingFrequency := compoundingFrequency (capitalGain returns) in
  match incomeGain returns with
  | None => Throw TypeError
  | Some {| dividendYield := dividendYield;
            paymentFrequency := paymentFrequency;
            reinvestDividends := reinvestDividends |} =>
      let capitalGainResult :=
        calculateCapitalGain startValue annualRate compoundingFrequency in
      do dividends <- calculateDividends startValue dividendYield paymentFrequency year;
      let totalDividends := fold_left (fun sum div => sum + amount div) dividends 0 in
      let endValue :=
        if reinvestDividends
        then Number.add ops (CapitalGainResult.evaluationAmount capitalGainResult)
               (inject_Z totalDividends)
        else CapitalGainResult.evaluationAmount capitalGainResult in
      Return {| year := year;
                startValue := Math.round startValue;
                endValue := Math.round endValue;
                capitalGains :=
                  Math.round (CapitalGainResult.capitalGain capitalGainResult);
                dividends := dividends;
                totalDividends := Math.round (inject_Z totalDividends);
                actualEndValue := None;
                actualCapitalGains := None;
                actualDividends := None;
                actualTotalDividends := None |}
  end.

(** The reduction of [totalAssetValue], the total being a sum of numbers
    that need not be whole. *)
Fixpoint totalAssetValue_reduce (assets : list Asset) (total : Q) : Outcome Q :=
  match assets with
  | [] => Return total
  | asset :: rest =>
      match Array_get (yearlyPerformance asset)
              (Z.of_nat (length (yearlyPerformance asset)) - 1) with
      | None => Throw TypeError
      | Some latestPerformance =>
          totalAssetValue_reduce rest
            (Number.add ops total (latestValue latestPerformance))
      end
  end.

Definition totalAssetValue (assets : list (string * Asset)) : Outcome Q :=
  totalAssetValue_reduce (JsMap.values assets) 0.

End Rounded.
End Rounded.

(** The rates 0.15, 0.02 and 0.018 as the program holds them, each the
    double nearest to the decimal. *)
Definition rate15 : Q := Eval vm_compute in Qred (Binary64.round 0.15).
Definition rate2 : Q := Eval vm_compute in Qred (Binary64.round 0.02).
Definition rate18 : Q := Eval vm_compute in Qred (Binary64.round 0.018).

(** A return of 15% compounded yearly with a quarterly dividend of 2%. *)
Definition roundingReturns (reinvest : bool) : ReturnModel :=
  {| capitalGain := {| annualRate := rate15; compoundingFrequency := "yearly" |};
     incomeGain := Some {| dividendYield := rate2;
                           paymentFrequency := "quarterly";
                           reinvestDividends := reinvest |} |}.
(** * Properties *)

(** ** Rounding *)

Lemma Qfloor_unique (x : Q) (n : Z) :
  (inject_Z n <= x)%Q -> (x < inject_Z (n + 1))%Q -> Qfloor x = n.
Proof.
  intros Hle Hlt.
  assert (n <= Qfloor x).
  { rewrite <- (Qfloor_Z n). now apply Qfloor_resp_le. }
  assert (Qfloor x < n + 1).
  { rewrite Zlt_Qlt. eapply Qle_lt_trans; [apply Qfloor_le | exact Hlt]. }
  lia.
Qed.

Lemma round_inject_Z (n : Z) : Math.round (inject_Z n) = n.
Proof.
  unfold Math.round. apply Qfloor_unique.
  - rewrite <- (Qplus_0_r (inject_Z n)) at 1.
    apply Qplus_le_r. discriminate.
  - rewrite inject_Z_plus. apply Qplus_lt_r. reflexivity.
Qed.

Lemma round_plus_inject_Z (x : Q) (n : Z) :
  Math.round (x + inject_Z n) = Math.round x + n.
Proof.
  unfold Math.round.
  assert (E : (x + inject_Z n + (1 # 2) == (x + (1 # 2)) + inject_Z n)%Q) by ring.
  rewrite E. apply Qfloor_unique.
  - rewrite inject_Z_plus. apply Qplus_le_l, Qfloor_le.
  - replace (Qfloor (x + (1 # 2)) + n + 1) with ((Qfloor (x + (1 # 2)) + 1) + n) by lia.
    rewrite (inject_Z_plus _ n).
    apply Qplus_lt_l, Qlt_floor.
Qed.

Lemma round_whole (x : Q) (n : Z) : (x == inject_Z n)%Q -> Math.round x = n.
Proof.
  intros H. unfold Math.round. rewrite H. apply round_inject_Z.
Qed.

(** ** Calendar arithmetic *)

Module DateFacts.
Import Date.

Lemma DayFromYear_succ (y : Z) :
  DayFromYear (y + 1) = DayFromYear y + 365 + InLeapYear y.
Proof.
  unfold DayFromYear, InLeapYear, isLeap.
  destruct (Z.eqb_spec (y mod 4) 0); destruct (Z.eqb_spec (y mod 100) 0);
    destruct (Z.eqb_spec (y mod 400) 0); cbn [andb orb negb];
    Z.div_mod_to_equations; lia.
Qed.

Lemma YearFromDay_spec (y d : Z) :
  DayFromYear y <= d < DayFromYear (y + 1) -> YearFromDay d = y.
Proof.
  intros H. rewrite DayFromYear_succ in H.
  assert (HL : 0 <= InLeapYear y <= 1) by (unfold InLeapYear; destruct (isLeap y); lia).
  unfold YearFromDay.
  set (y0 := 1970 + d * 400 / 146097).
  assert (Hy0 : y - 1 <= y0 <= y + 1).
  { unfold y0, DayFromYear in *. Z.div_mod_to_equations. lia. }
  pose proof (DayFromYear_succ y0) as S0.
  pose proof (DayFromYear_succ (y0 - 1)) as S1.
  replace (y0 - 1 + 1) with y0 in S1 by lia.
  assert (HL0 : 0 <= InLeapYear y0 <= 1) by (unfold InLeapYear; destruct (isLeap y0); lia).
  assert (HL1 : 0 <= InLeapYear (y0 - 1) <= 1) by (unfold InLeapYear; destruct (isLeap (y0 - 1)); lia).
  assert (C : y0 = y - 1 \/ y0 = y \/ y0 = y + 1) by lia.
  destruct C as [C | [C | C]].
  - rewrite C in *. replace (y - 1 + 1) with y in * by lia.
    destruct (Z.leb_spec (DayFromYear y) d); [reflexivity | lia].
  - rewrite C in *.
    pose proof (DayFromYear_succ y).
    destruct (Z.leb_spec (DayFromYear (y + 1)) d); [lia |].
    destruct (Z.leb_spec (DayFromYear y) d); [reflexivity | lia].
  - rewrite C in *.
    pose proof (DayFromYear_succ (y + 1)).
    pose proof (DayFromYear_succ y).
    assert (0 <= InLeapYear (y + 1) <= 1) by (unfold InLeapYear; destruct (isLeap (y + 1)); lia).
    destruct (Z.leb_spec (DayFromYear (y + 1 + 1)) d); [lia |].
    destruct (Z.leb_spec (DayFromYear (y + 1)) d); [lia |]. lia.
Qed.

Lemma InLeapYear_range (y : Z) : 0 <= InLeapYear y <= 1.
Proof. unfold InLeapYear. destruct (isLeap y); lia. Qed.

Lemma monthStart_range (leap m : Z) :
  0 <= leap <= 1 -> 0 <= m <= 11 ->
  0 <= monthStart leap m <= 334 + leap.
Proof.
  intros Hl Hm.
  assert (C : m = 0 \/ m = 1 \/ m = 2 \/ m = 3 \/ m = 4 \/ m = 5 \/ m = 6
              \/ m = 7 \/ m = 8 \/ m = 9 \/ m = 10 \/ m = 11) by lia.
  repeat (destruct C as [-> | C]); try subst m; cbn; lia.
Qed.

Lemma MonthFromDayWithinYear_monthStart (leap m : Z) :
  0 <= leap <= 1 -> 0 <= m <= 11 ->
  MonthFromDayWithinYear leap (monthStart leap m) = m.
Proof.
  intros Hl Hm.
  assert (C : m = 0 \/ m = 1 \/ m = 2 \/ m = 3 \/ m = 4 \/ m = 5 \/ m = 6
              \/ m = 7 \/ m = 8 \/ m = 9 \/ m = 10 \/ m = 11) by lia.
  assert (L : leap = 0 \/ leap = 1) by lia.
  destruct L as [-> | ->];
    repeat (destruct C as [-> | C]); try subst m; reflexivity.
Qed.

Lemma MakeDay_first (y m : Z) :
  0 <= m <= 11 ->
  MakeDay y m 1 = DayFromYear y + monthStart (InLeapYear y) m.
Proof.
  intros Hm. unfold MakeDay.
  rewrite (Z.div_small m 12), (Z.mod_small m 12) by lia.
  rewrite Z.add_0_r. lia.
Qed.

(** Local midnight seen from UTC: the same day where local time is UTC or
    behind it, the day before where it is ahead. *)
Lemma Day_local_midnight (tz d : Z) :
  -1440 < tz <= 0 -> Day (d * msPerDay - LocalTZA tz) = d.
Proof.
  intros Htz. unfold Day, LocalTZA, msPerDay, msPerMinute.
  Z.div_mod_to_equations. lia.
Qed.

Lemma Day_local_midnight_east (tz d : Z) :
  0 < tz < 1440 -> Day (d * msPerDay - LocalTZA tz) = d - 1.
Proof.
  intros Htz. unfold Day, LocalTZA, msPerDay, msPerMinute.
  Z.div_mod_to_equations. lia.
Qed.

(** The calendar fields of a time value on day [k] of the year [y]. *)
Lemma calendar_fields (t y k : Z) :
  Day t = DayFromYear y + k -> 0 <= k < 365 + InLeapYear y ->
  YearFromTime t = y /\
  MonthFromTime t = MonthFromDayWithinYear (InLeapYear y) k /\
  DateFromTime t
  = k - monthStart (InLeapYear y) (MonthFromDayWithinYear (InLeapYear y) k) + 1.
Proof.
  intros Hd Hk.
  assert (Hy : YearFromTime t = y).
  { unfold YearFromTime. apply YearFromDay_spec. rewrite DayFromYear_succ. lia. }
  assert (Hw : DayWithinYear t = k) by (unfold DayWithinYear; rewrite Hy; lia).
  unfold MonthFromTime, DateFromTime, MonthFromTime. now rewrite Hw, Hy.
Qed.

Lemma MonthFromDayWithinYear_before (leap m : Z) :
  0 <= leap <= 1 -> 1 <= m <= 11 ->
  MonthFromDayWithinYear leap (monthStart leap m - 1) = m - 1.
Proof.
  intros Hl Hm.
  assert (C : m = 1 \/ m = 2 \/ m = 3 \/ m = 4 \/ m = 5 \/ m = 6
              \/ m = 7 \/ m = 8 \/ m = 9 \/ m = 10 \/ m = 11) by lia.
  assert (L : leap = 0 \/ leap = 1) by lia.
  destruct L as [-> | ->];
    repeat (destruct C as [-> | C]); try subst m; reflexivity.
Qed.

Lemma calendar_first (tz y m : Z) :
  -1440 < tz <= 0 -> 0 <= m <= 11 ->
  let t := MakeDay y m 1 * msPerDay - LocalTZA tz in
  YearFromTime t = y /\ MonthFromTime t = m /\ DateFromTime t = 1.
Proof.
  intros Htz Hm t.
  pose proof (InLeapYear_range y) as Hl.
  pose proof (monthStart_range (InLeapYear y) m Hl Hm) as Hs.
  destruct (calendar_fields t y (monthStart (InLeapYear y) m)) as (Y & M & D).
  - subst t. rewrite Day_local_midnight, MakeDay_first by assumption. reflexivity.
  - lia.
  - rewrite MonthFromDayWithinYear_monthStart in M, D by assumption.
    repeat split; [assumption .. | lia].
Qed.

(** East of UTC the first of a month after January is seen as the last day
    of the month before, and the first of January as the 31st of December
    of the year before. *)
Lemma calendar_first_east (tz y m : Z) :
  0 < tz < 1440 -> 1 <= m <= 11 ->
  let t := MakeDay y m 1 * msPerDay - LocalTZA tz in
  YearFromTime t = y /\ MonthFromTime t = m - 1 /\
  DateFromTime t
  = monthStart (InLeapYear y) m - monthStart (InLeapYear y) (m - 1).
Proof.
  intros Htz Hm t.
  pose proof (InLeapYear_range y) as Hl.
  pose proof (monthStart_range (InLeapYear y) m Hl ltac:(lia)) as Hs.
  assert (H1 : 31 <= monthStart (InLeapYear y) m).
  { assert (C : m = 1 \/ m = 2 \/ m = 3 \/ m = 4 \/ m = 5 \/ m = 6
                \/ m = 7 \/ m = 8 \/ m = 9 \/ m = 10 \/ m = 11) by lia.
    repeat (destruct C as [-> | C]); try subst m; cbn; lia. }
  destruct (calendar_fields t y (monthStart (InLeapYear y) m - 1)) as (Y & M & D).
  - subst t. rewrite Day_local_midnight_east, MakeDay_first by (assumption || lia).
    lia.
  - lia.
  - rewrite MonthFromDayWithinYear_before in M, D by assumption.
    repeat split; [assumption .. | lia].
Qed.

Lemma calendar_first_of_January_east (tz y : Z) :
  0 < tz < 1440 ->
  let t := MakeDay y 0 1 * msPerDay - LocalTZA tz in
  YearFromTime t = y - 1 /\ MonthFromTime t = 11 /\ DateFromTime t = 31.
Proof.
  intros Htz t.
  pose proof (InLeapYear_range (y - 1)) as Hl.
  pose proof (DayFromYear_succ (y - 1)) as Hs.
  replace (y - 1 + 1) with y in Hs by lia.
  destruct (calendar_fields t (y - 1) (364 + InLeapYear (y - 1))) as (Y & M & D).
  - subst t. rewrite Day_local_midnight_east, MakeDay_first by (assumption || lia).
    cbn [monthStart]. lia.
  - lia.
  - assert (E : MonthFromDayWithinYear (InLeapYear (y - 1))
                  (364 + InLeapYear (y - 1)) = 11).
    { assert (L : InLeapYear (y - 1) = 0 \/ InLeapYear (y - 1) = 1) by lia.
      destruct L as [-> | ->]; reflexivity. }
    rewrite E in M, D. cbn [monthStart] in D.
    repeat split; [assumption .. | lia].
Qed.

Lemma DayFromYear_bounds (y : Z) :
  -271820 <= y <= 275759 -> -99999744 <= DayFromYear y <= 99999379.
Proof.
  intros H. unfold DayFromYear. Z.div_mod_to_equations. lia.
Qed.

Lemma fromFields_valid (tz year m : Z) :
  -1440 <= tz <= 1440 -> -271820 <= year <= 275759 -> 0 <= m <= 11 ->
  fromFields tz year m 1
  = Some (MakeDay (constructorYear year) m 1 * msPerDay - LocalTZA tz).
Proof.
  intros Htz Hy Hm. unfold fromFields.
  assert (Hc : -271820 <= constructorYear year <= 275759).
  { unfold constructorYear.
    destruct (Z.leb_spec 0 year); destruct (Z.leb_spec year 99); cbn; lia. }
  unfold TimeClip.
  destruct (Z.leb_spec (Z.abs (MakeDay (constructorYear year) m 1 * msPerDay
                                - LocalTZA tz)) 8640000000000000) as [| Hbad];
    [reflexivity |].
  exfalso. rewrite MakeDay_first in Hbad by assumption.
  pose proof (DayFromYear_bounds _ Hc).
  pose proof (InLeapYear_range (constructorYear year)) as Hl.
  pose proof (monthStart_range _ m Hl Hm).
  unfold LocalTZA, msPerDay, msPerMinute in Hbad. lia.
Qed.

(** The date string of local midnight on the first of a month, where
    local time is UTC or behind it. *)
Lemma toISODateString_first (tz year m : Z) :
  -1440 < tz <= 0 -> -271820 <= year <= 275759 -> 0 <= m <= 11 ->
  toISODateString (fromFields tz year m 1)
  = Return (yearString (constructorYear year)
            ++ String "-"%char (pad 2 (m + 1) EmptyString)
            ++ "-01")%string.
Proof.
  intros Htz Hy Hm. rewrite fromFields_valid by (assumption || lia).
  unfold toISODateString.
  destruct (calendar_first tz (constructorYear year) m Htz Hm) as (-> & -> & ->).
  reflexivity.
Qed.

(** The same where local time is ahead of UTC. *)
Lemma toISODateString_first_east (tz year m : Z) :
  0 < tz < 1440 -> -271820 <= year <= 275759 -> 1 <= m <= 11 ->
  toISODateString (fromFields tz year m 1)
  = Return (yearString (constructorYear year)
            ++ String "-"%char (pad 2 m EmptyString)
            ++ String "-"%char
                 (pad 2 (monthStart (InLeapYear (constructorYear year)) m
                         - monthStart (InLeapYear (constructorYear year)) (m - 1))
                    EmptyString))%string.
Proof.
  intros Htz Hy Hm. rewrite fromFields_valid by (assumption || lia).
  unfold toISODateString.
  destruct (calendar_first_east tz (constructorYear year) m Htz Hm) as (-> & -> & ->).
  now replace (m - 1 + 1) with m by lia.
Qed.

Lemma toISODateString_first_of_January_east (tz year : Z) :
  0 < tz < 1440 -> -271820 <= year <= 275759 ->
  toISODateString (fromFields tz year 0 1)
  = Return (yearString (constructorYear year - 1) ++ "-12-31")%string.
Proof.
  intros Htz Hy. rewrite fromFields_valid by (assumption || lia).
  unfold toISODateString.
  destruct (calendar_first_of_January_east tz (constructorYear year) Htz)
    as (-> & -> & ->).
  reflexivity.
Qed.

End DateFacts.

(** ** The projection returns *)

Section Returns.

Variable tz : Z.
Hypothesis Htz : -1440 <= tz <= 1440.

Lemma paymentMonth_range (paymentsPerYear i : Z) :
  paymentsPerYear = 12 \/ paymentsPerYear = 4 \/ paymentsPerYear = 1 ->
  0 <= i < paymentsPerYear ->
  0 <= Math.floor ((12 / inject_Z paymentsPerYear) * inject_Z i)%Q <= 11.
Proof.
  intros [-> | [-> | ->]] Hi.
  - assert (C : i = 0 \/ i = 1 \/ i = 2 \/ i = 3 \/ i = 4 \/ i = 5 \/ i = 6
                \/ i = 7 \/ i = 8 \/ i = 9 \/ i = 10 \/ i = 11) by lia.
    repeat (destruct C as [-> | C]); try subst i; vm_compute;
      split; discriminate.
  - assert (C : i = 0 \/ i = 1 \/ i = 2 \/ i = 3) by lia.
    repeat (destruct C as [-> | C]); try subst i; vm_compute;
      split; discriminate.
  - assert (i = 0) as -> by lia. vm_compute. split; discriminate.
Qed.

Lemma calculateDividends_loop_returns (each : Q) (paymentsPerYear y : Z) :
  paymentsPerYear = 12 \/ paymentsPerYear = 4 \/ paymentsPerYear = 1 ->
  yearInRange y ->
  forall (n : nat) (i : Z) (acc : list DividendPayment),
    0 <= i -> i + Z.of_nat n <= paymentsPerYear ->
    exists l, calculateDividends_loop tz each paymentsPerYear y n i acc = Return l.
Proof.
  intros Hp Hy. induction n as [| n IH]; intros i acc Hi Hn.
  - now exists acc.
  - cbn [calculateDividends_loop].
    pose proof (paymentMonth_range paymentsPerYear i Hp ltac:(lia)) as Hm.
    rewrite (DateFacts.fromFields_valid tz y _ Htz Hy Hm).
    cbn [Date.toISODateString bind]. apply IH; lia.
Qed.

Lemma calculateDividends_returns (a dy : Q) (pf : string) (y : Z) :
  yearInRange y -> exists l, calculateDividends tz a dy pf y = Return l.
Proof.
  intros Hy. unfold calculateDividends.
  destruct (String.eqb pf "monthly");
    [| destruct (String.eqb pf "quarterly")];
    apply calculateDividends_loop_returns; (assumption || lia || auto).
Qed.

Lemma calculateYearPerformance_returns (y : Z) (v : Q) (r : ReturnModel) :
  is_Some (incomeGain r) -> yearInRange y ->
  exists p, calculateYearPerformance tz y v r = Return p.
Proof.
  intros [[dy pf re] Hr] Hy. unfold calculateYearPerformance. rewrite Hr.
  destruct (calculateDividends_returns v dy pf y Hy) as [l ->].
  cbn [bind]. eauto.
Qed.

Lemma initializeYearlyPerformance_loop_returns (r : ReturnModel) :
  is_Some (incomeGain r) ->
  forall (n : nat) (y : Z) (cur : Q) (acc : list YearlyPerformance),
    yearInRange y -> yearInRange (y + Z.of_nat n - 1) ->
    exists out, initializeYearlyPerformance_loop tz r n y cur acc = Return out.
Proof.
  intros Hr. induction n as [| n IH]; intros y cur acc Hy Hn.
  - now exists acc.
  - cbn [initializeYearlyPerformance_loop].
    destruct (calculateYearPerformance_returns y cur r Hr Hy) as [p ->].
    cbn [bind]. destruct n as [| n'].
    + eexists. reflexivity.
    + apply IH; unfold yearInRange in *; lia.
Qed.

(** The lifetime projection returns a sequence whenever the return model
    has an income gain and the years it covers are years a Date can
    hold. *)
Lemma initializeYearlyPerformance_returns (s : Date.TimeValue)
    (m : option Date.TimeValue) (a : Q) (r : ReturnModel) (sy ey : Z) :
  is_Some (incomeGain r) ->
  Date.getFullYear tz s = Some sy ->
  match m with
  | Some maturity => Date.getFullYear tz maturity = Some ey
  | None => ey = sy + 50
  end ->
  yearInRange sy -> yearInRange ey ->
  exists perf, initializeYearlyPerformance tz s m a r = Return perf.
Proof.
  intros Hr Hs Hm Hsy Hey. unfold initializeYearlyPerformance. rewrite Hs.
  assert (E : match m with
              | Some maturity => Date.getFullYear tz maturity
              | None => option_map (fun y => y + 50) (Some sy)
              end = Some ey).
  { destruct m; [assumption | now subst ey]. }
  rewrite E.
  destruct (Z.to_nat (ey - sy + 1)) as [| n] eqn:En.
  - eexists. reflexivity.
  - apply initializeYearlyPerformance_loop_returns; [assumption .. |].
    rewrite <- En. unfold yearInRange in *. lia.
Qed.

End Returns.

(** ** The chain of yearly records *)

Lemma chainedFrom_lookup (v : Z) (l : list YearlyPerformance) :
  chainedFrom v l ->
  (forall p, l !! 0%nat = Some p -> startValue p = v) /\
  (forall (i : nat) p q,
      l !! i = Some p -> l !! S i = Some q -> startValue q = endValue p).
Proof.
  revert v. induction l as [| a rest IH]; intros v Hc.
  - split; intros; discriminate.
  - destruct Hc as [Hstart Hrest]. destruct (IH _ Hrest) as [IH0 IHS].
    split.
    + intros p Hp. simpl in Hp. congruence.
    + intros [| i] p q Hp Hq; simpl in Hp, Hq.
      * injection Hp as <-. now apply IH0.
      * eapply IHS; eassumption.
Qed.

Section Projection.

Variable tz : Z.

Lemma calculateYearPerformance_inv (y : Z) (v : Q) (r : ReturnModel)
    (p : YearlyPerformance) :
  calculateYearPerformance tz y v r = Return p ->
  year p = y /\ startValue p = Math.round v.
Proof.
  unfold calculateYearPerformance.
  destruct (incomeGain r) as [[dy pf re] |]; [| discriminate].
  destruct (calculateDividends tz v dy pf y); simpl; [| discriminate].
  intros [= <-]. now split.
Qed.

Lemma initializeYearlyPerformance_loop_spec (r : ReturnModel) (n : nat) :
  forall (y : Z) (cur : Q) (acc out : list YearlyPerformance),
    initializeYearlyPerformance_loop tz r n y cur acc = Return out ->
    exists ext,
      out = acc ++ ext /\ length ext = n /\ chainedFrom (Math.round cur) ext.
Proof.
  induction n as [| n IH]; intros y cur acc out H; simpl in H.
  - injection H as <-. exists []. now rewrite app_nil_r.
  - destruct (calculateYearPerformance tz y cur r) as [p |] eqn:Hp;
      simpl in H; [| discriminate].
    destruct (IH _ _ _ _ H) as (ext & -> & Hlen & Hchain).
    exists (p :: ext). rewrite <- app_assoc. repeat split.
    + simpl. now rewrite Hlen.
    + now apply calculateYearPerformance_inv in Hp.
    + now rewrite round_inject_Z in Hchain.
Qed.

Lemma initializeYearlyPerformance_chained (s : Date.TimeValue)
    (m : option Date.TimeValue) (a : Q) (r : ReturnModel)
    (perf : list YearlyPerformance) :
  initializeYearlyPerformance tz s m a r = Return perf ->
  chainedFrom (Math.round a) perf.
Proof.
  unfold initializeYearlyPerformance.
  destruct (Date.getFullYear tz s) as [sy |];
    [destruct (match m with
               | Some maturity => Date.getFullYear tz maturity
               | None => option_map (fun y => y + 50) (Some sy)
               end) as [ey |] |].
  - intros H. apply initializeYearlyPerformance_loop_spec in H.
    destruct H as (ext & -> & _ & Hc). exact Hc.
  - intros [= <-]. exact I.
  - destruct (match m with
              | Some maturity => Date.getFullYear tz maturity
              | None => option_map (fun y => y + 50) None
              end); intros [= <-]; exact I.
Qed.

Lemma Projected_inv (asset : Asset) :
  Projected tz asset ->
  initializeYearlyPerformance tz (startDate asset) (maturityDate asset)
    (initialAmount asset) (returns asset)
  = Return (yearlyPerformance asset).
Proof.
  intros [id data assets assets' a Hc Hl | id data assets assets' a [old Ho] Ha Hu Hl].
  - unfold createAsset in Hc.
    destruct (initializeYearlyPerformance tz (AssetData.startDate data)
                (AssetData.maturityDate data) (AssetData.initialAmount data)
                (AssetData.returns data)) as [perf |] eqn:E; [| discriminate].
    injection Hc as <-. rewrite lookup_insert_eq in Hl. injection Hl as <-.
    exact E.
  - unfold updateAsset in Hu. rewrite Ho, Ha in Hu.
    destruct (initializeYearlyPerformance tz (startDate (mergeAsset old data))
                (maturityDate (mergeAsset old data))
                (initialAmount (mergeAsset old data))
                (returns (mergeAsset old data))) as [perf |] eqn:E;
      [| discriminate].
    injection Hu as <-. rewrite lookup_insert_eq in Hl. injection Hl as <-.
    exact E.
Qed.

End Projection.

(** [createAsset] stores a projected asset whenever the return model has
    an income gain and the years to cover are years a Date can hold. *)
Lemma createAsset_projects (tz : Z) (id : string) (data : AssetData.t)
    (assets : gmap string Asset) (sy ey : Z) :
  -1440 <= tz <= 1440 ->
  is_Some (incomeGain (AssetData.returns data)) ->
  Date.getFullYear tz (AssetData.startDate data) = Some sy ->
  match AssetData.maturityDate data with
  | Some maturity => Date.getFullYear tz maturity = Some ey
  | None => ey = sy + 50
  end ->
  yearInRange sy -> yearInRange ey ->
  exists asset,
    createAsset tz id data assets = (Return id, <[id := asset]> assets) /\
    Projected tz asset.
Proof.
  intros Htz Hr Hs Hm Hsy Hey.
  destruct (initializeYearlyPerformance_returns tz Htz _ _
              (AssetData.initialAmount data) _ sy ey Hr Hs Hm Hsy Hey)
    as [perf Hperf].
  assert (E : createAsset tz id data assets
              = (Return id,
                 <[id := {| id := id;
                            name := AssetData.name data;
                            initialAmount := AssetData.initialAmount data;
                            category := AssetData.category data;
                            startDate := AssetData.startDate data;
                            maturityDate := AssetData.maturityDate data;
                            returns := AssetData.returns data;
                            yearlyPerformance := perf |}]> assets)).
  { unfold createAsset. now rewrite Hperf. }
  eexists. split; [exact E |].
  eapply Projected_create; [exact E | apply lookup_insert_eq].
Qed.

Lemma bondAsset_Projected : Projected 540 bondAsset.
Proof.
  apply (Projected_create 540 "a1" bondData ∅ (snd (createAsset 540 "a1" bondData ∅))).
  - vm_compute. reflexivity.
  - vm_compute. reflexivity.
Defined.

Lemma fractionalAsset_Projected : Projected 540 fractionalAsset.
Proof.
  apply (Projected_create 540 "a1" fractionalData ∅
           (snd (createAsset 540 "a1" fractionalData ∅))).
  - vm_compute. reflexivity.
  - vm_compute. reflexivity.
Defined.

(** ** C1 *)

(** C1, as stated, fails: the first record's [startValue] is the rounded
    principal.  For the principal 100000.5 the first record starts at
    100001. *)
Lemma C1_first_startValue_not_initialAmount :
  Projected 540 fractionalAsset /\
  exists p, yearlyPerformance fractionalAsset !! 0%nat = Some p /\
            startValue p = 100001 /\
            ~ (inject_Z (startValue p) == initialAmount fractionalAsset)%Q.
Proof.
  split; [exact fractionalAsset_Projected |].
  eexists. split; [reflexivity |]. split; [reflexivity |].
  vm_compute. discriminate.
Qed.

(** C1 (amended): in every [yearlyPerformance] produced by the lifetime
    projection (through [createAsset] or through the recomputation of
    [updateAsset]) each record starts at the end value of the record before
    it, and the first record starts at [Math.round(initialAmount)], which is
    [initialAmount] itself when that is a whole amount. *)
Theorem C1_chain_invariant (tz : Z) (asset : Asset) :
  Projected tz asset ->
  (forall (i : nat) p q,
      yearlyPerformance asset !! i = Some p ->
      yearlyPerformance asset !! S i = Some q ->
      startValue q = endValue p) /\
  (forall p, yearlyPerformance asset !! 0%nat = Some p ->
             startValue p = Math.round (initialAmount asset)) /\
  (forall p n, (initialAmount asset == inject_Z n)%Q ->
               yearlyPerformance asset !! 0%nat = Some p ->
               (inject_Z (startValue p) == initialAmount asset)%Q).
Proof.
  intros Hp. apply Projected_inv, initializeYearlyPerformance_chained in Hp.
  apply chainedFrom_lookup in Hp. destruct Hp as [H0 HS].
  split; [exact HS |]. split; [exact H0 |].
  intros p n Hn Hl. rewrite (H0 p Hl), (round_whole _ _ Hn). now rewrite Hn.
Qed.

Lemma C1_chain_invariant_witness :
  Projected 540 bondAsset /\
  ((forall (i : nat) p q,
       yearlyPerformance bondAsset !! i = Some p ->
       yearlyPerformance bondAsset !! S i = Some q ->
       startValue q = endValue p) /\
   (forall p, yearlyPerformance bondAsset !! 0%nat = Some p ->
              startValue p = Math.round (initialAmount bondAsset)) /\
   (forall p n, (initialAmount bondAsset == inject_Z n)%Q ->
                yearlyPerformance bondAsset !! 0%nat = Some p ->
                (inject_Z (startValue p) == initialAmount bondAsset)%Q)).
Proof.
  split; [exact bondAsset_Projected |].
  apply (C1_chain_invariant 540 bondAsset). exact bondAsset_Projected.
Defined.

(** ** C2 *)

Lemma getFullYear_Some (tz t : Z) :
  Date.getFullYear tz (Some t) = Some (Date.YearFromTime (t + Date.LocalTZA tz)).
Proof. reflexivity. Qed.

Lemma projection_without_incomeGain (tz t : Z) (a : Q) (r : ReturnModel) :
  incomeGain r = None ->
  initializeYearlyPerformance tz (Some t) None a r = Throw TypeError.
Proof.
  intros Hr. unfold initializeYearlyPerformance.
  rewrite getFullYear_Some. cbn [option_map].
  set (y := Date.YearFromTime _).
  replace (y + 50 - y + 1) with 51 by lia.
  change (Z.to_nat 51) with (S 50).
  cbn [initializeYearlyPerformance_loop].
  unfold calculateYearPerformance. now rewrite Hr.
Qed.

(** C2 (code): on the scenario of the claim the projection does not produce
    a record.  With [returns.incomeGain] absent, [calculateYearPerformance]
    raises a TypeError in the first year, whatever the time zone;
    [createAsset] passes the error on and stores nothing. *)
Theorem C2_scenario_raises_TypeError (tz : Z) (id : string)
    (assets : gmap string Asset) :
  calculateYearPerformance tz 2024 100000 scenarioReturns = Throw TypeError /\
  initializeYearlyPerformance tz (Date.parseDateOnly 2024 1 1) None 100000
    scenarioReturns = Throw TypeError /\
  createAsset tz id scenarioData assets = (Throw TypeError, assets).
Proof.
  split; [reflexivity |].
  assert (H : initializeYearlyPerformance tz (Date.parseDateOnly 2024 1 1) None
                100000 scenarioReturns = Throw TypeError)
    by (apply (projection_without_incomeGain tz 1704067200000); reflexivity).
  split; [exact H |].
  unfold createAsset. cbn [AssetData.startDate AssetData.maturityDate
    AssetData.initialAmount AssetData.returns scenarioData].
  now rewrite H.
Qed.

(** With an income gain present and of yield zero, the year-2024 record of
    the scenario is the one the claim gives (Tokyo time and UTC). *)
Lemma scenario_with_zero_yield (tz : Z) :
  tz = 540 \/ tz = 0 ->
  exists perf p,
    initializeYearlyPerformance tz (Date.parseDateOnly 2024 1 1) None 100000
      zeroYieldReturns = Return perf /\
    length perf = 51%nat /\
    perf !! 0%nat = Some p /\
    year p = 2024 /\ startValue p = 100000 /\ capitalGains p = 5000 /\
    endValue p = 105000 /\ totalDividends p = 0.
Proof.
  intros [-> | ->].
  - eexists. eexists. split; [vm_compute; reflexivity |]. now vm_compute.
  - eexists. eexists. split; [vm_compute; reflexivity |]. now vm_compute.
Qed.

(** The starting year is the year of [startDate] in local time: west of
    UTC the string "2024-01-01", midnight UTC, still lies in 2023. *)
Lemma startYear_is_local :
  Date.getFullYear (-300) (Date.parseDateOnly 2024 1 1) = Some 2023 /\
  Date.getFullYear 0 (Date.parseDateOnly 2024 1 1) = Some 2024 /\
  Date.getFullYear 540 (Date.parseDateOnly 2024 1 1) = Some 2024.
Proof. now vm_compute. Qed.

(** ** C3 *)

Lemma String_eqb_decide (s t : string) :
  String.eqb s t = bool_decide (s = t).
Proof.
  destruct (String.eqb_spec s t) as [E | E].
  - now rewrite bool_decide_eq_true_2.
  - now rewrite bool_decide_eq_false_2.
Qed.

Lemma calculateCapitalGain_schedule (s a : Q) (f : string) :
  calculateCapitalGain s a f =
  {| CapitalGainResult.evaluationAmount :=
       (s * (1 + snd (periodsAndRate a f)) ^ fst (periodsAndRate a f))%Q;
     CapitalGainResult.capitalGain :=
       (s * (1 + snd (periodsAndRate a f)) ^ fst (periodsAndRate a f) - s)%Q |}.
Proof.
  unfold calculateCapitalGain, periodsAndRate, Math.pow.
  rewrite !String_eqb_decide.
  destruct (decide (f = "daily")) as [E | E].
  - now rewrite bool_decide_eq_true_2.
  - rewrite bool_decide_eq_false_2 by assumption.
    destruct (decide (f = "monthly")) as [E' | E'].
    + now rewrite bool_decide_eq_true_2.
    + now rewrite bool_decide_eq_false_2.
Qed.

(** An unrecognised frequency is treated as "yearly". *)
Lemma calculateCapitalGain_unrecognised (s a : Q) (f : string) :
  f <> "daily"%string -> f <> "monthly"%string ->
  calculateCapitalGain s a f = calculateCapitalGain s a "yearly".
Proof.
  intros Hd Hm. rewrite !calculateCapitalGain_schedule. unfold periodsAndRate.
  now rewrite !decide_False.
Qed.


(** ** C4 *)

Lemma calculateDividends_quarterly (tz : Z) (a dy : Q) (y : Z) :
  calculateDividends tz a dy "quarterly" y =
  let each := Math.round (a * dy / inject_Z 4)%Q in
  do d0 <- firstOfMonth tz y 0;
  do d1 <- firstOfMonth tz y 3;
  do d2 <- firstOfMonth tz y 6;
  do d3 <- firstOfMonth tz y 9;
  Return [ {| date := d0; amount := each |}; {| date := d1; amount := each |};
           {| date := d2; amount := each |}; {| date := d3; amount := each |} ].
Proof. reflexivity. Qed.

(** Whatever the time zone, a quarterly schedule that is returned has four
    payments, each of the rounded quarter of the year's dividend. *)
Lemma calculateDividends_quarterly_shape (tz : Z) (a dy : Q) (y : Z)
    (l : list DividendPayment) :
  calculateDividends tz a dy "quarterly" y = Return l ->
  length l = 4%nat /\
  Forall (fun p => amount p = Math.round (a * dy / 4)%Q) l.
Proof.
  rewrite calculateDividends_quarterly. cbv zeta. unfold bind.
  destruct (firstOfMonth tz y 0); [| discriminate].
  destruct (firstOfMonth tz y 3); [| discriminate].
  destruct (firstOfMonth tz y 6); [| discriminate].
  destruct (firstOfMonth tz y 9); [| discriminate].
  intros [= <-]. split; [reflexivity |].
  repeat constructor.
Qed.

(** Where local time is UTC or behind it, the four payments are dated the
    first of January, April, July and October of the year (of 1900 + year
    for a year 0..99). *)
Lemma calculateDividends_quarterly_west (tz : Z) (a dy : Q) (y : Z) :
  -1440 < tz <= 0 -> yearInRange y ->
  calculateDividends tz a dy "quarterly" y =
  let each := Math.round (a * dy / 4)%Q in
  let yyyy := Date.yearString (Date.constructorYear y) in
  Return [ {| date := yyyy ++ "-01-01"; amount := each |};
           {| date := yyyy ++ "-04-01"; amount := each |};
           {| date := yyyy ++ "-07-01"; amount := each |};
           {| date := yyyy ++ "-10-01"; amount := each |} ].
Proof.
  intros Htz Hy. rewrite calculateDividends_quarterly. unfold firstOfMonth.
  rewrite !DateFacts.toISODateString_first by (assumption || lia).
  reflexivity.
Qed.

(** Where local time is ahead of UTC, the four payments are dated the
    31st of December of the year before and the last days of March, June
    and September. *)
Lemma calculateDividends_quarterly_east (tz : Z) (a dy : Q) (y : Z) :
  0 < tz < 1440 -> yearInRange y ->
  calculateDividends tz a dy "quarterly" y =
  let each := Math.round (a * dy / 4)%Q in
  let yyyy := Date.yearString (Date.constructorYear y) in
  Return [ {| date := Date.yearString (Date.constructorYear y - 1) ++ "-12-31";
              amount := each |};
           {| date := yyyy ++ "-03-31"; amount := each |};
           {| date := yyyy ++ "-06-30"; amount := each |};
           {| date := yyyy ++ "-09-30"; amount := each |} ].
Proof.
  intros Htz Hy. rewrite calculateDividends_quarterly. unfold firstOfMonth.
  rewrite DateFacts.toISODateString_first_of_January_east by assumption.
  rewrite !DateFacts.toISODateString_first_east by (assumption || lia).
  change (3 - 1) with 2. change (6 - 1) with 5. change (9 - 1) with 8.
  cbn [Date.monthStart].
  replace (90 + _ - (59 + _)) with 31 by lia.
  replace (181 + _ - (151 + _)) with 30 by lia.
  replace (273 + _ - (243 + _)) with 30 by lia.
  reflexivity.
Qed.

(** C4 (code): on Tokyo time (UTC+9) the quarterly payments of 2024 are
    dated the last day of the month before: [new Date(2024, m, 1)] is local
    midnight and [toISOString] prints the UTC date, nine hours earlier.
    The count and the amounts are as claimed. *)
Theorem C4_quarterly_dates_east_of_UTC :
  calculateDividends 540 1000 0.04 "quarterly" 2024 =
  Return [ {| date := "2023-12-31"; amount := 10 |};
           {| date := "2024-03-31"; amount := 10 |};
           {| date := "2024-06-30"; amount := 10 |};
           {| date := "2024-09-30"; amount := 10 |} ].
Proof. vm_compute. reflexivity. Qed.

(** The same call on UTC. *)
Lemma quarterly_dates_on_UTC :
  calculateDividends 0 1000 0.04 "quarterly" 2024 =
  Return [ {| date := "2024-01-01"; amount := 10 |};
           {| date := "2024-04-01"; amount := 10 |};
           {| date := "2024-07-01"; amount := 10 |};
           {| date := "2024-10-01"; amount := 10 |} ].
Proof. vm_compute. reflexivity. Qed.

(** ** C5 *)

Lemma calculateYearPerformance_endValue (tz y : Z) (v : Q) (cg : CapitalGain)
    (dy : Q) (pf : string) (re : bool) (p : YearlyPerformance) :
  calculateYearPerformance tz y v
    {| capitalGain := cg;
       incomeGain := Some {| dividendYield := dy; paymentFrequency := pf;
                             reinvestDividends := re |} |} = Return p ->
  let evaluation :=
    CapitalGainResult.evaluationAmount
      (calculateCapitalGain v (annualRate cg) (compoundingFrequency cg)) in
  calculateDividends tz v dy pf y = Return (dividends p) /\
  totalDividends p = sumAmounts (dividends p) /\
  endValue p = if re then Math.round evaluation + sumAmounts (dividends p)
               else Math.round evaluation.
Proof.
  unfold calculateYearPerformance. cbn [capitalGain incomeGain].
  destruct (calculateDividends tz v dy pf y) as [l |]; [| discriminate].
  cbn [bind]. intros [= <-]. cbn [dividends totalDividends endValue].
  fold (sumAmounts l). split; [reflexivity |].
  split; [apply round_inject_Z |].
  destruct re; [apply round_plus_inject_Z | reflexivity].
Qed.

(** *** Rounding in binary64 *)

Lemma round_near (x y d : Q) :
  (Qabs (y - x) <= d)%Q ->
  (inject_Z (Z.abs (Math.round y - Math.round x)) < 1 + d)%Q.
Proof.
  intros H. apply Qabs_Qle_condition in H. destruct H as [Hlo Hhi].
  unfold Math.round.
  pose proof (Qfloor_le (x + (1 # 2))) as Hx1.
  pose proof (Qlt_floor (x + (1 # 2))) as Hx2.
  pose proof (Qfloor_le (y + (1 # 2))) as Hy1.
  pose proof (Qlt_floor (y + (1 # 2))) as Hy2.
  rewrite inject_Z_plus in Hx2, Hy2. change (inject_Z 1) with 1%Q in Hx2, Hy2.
  destruct (Z.abs_spec (Qfloor (y + (1 # 2)) - Qfloor (x + (1 # 2))))
    as [[_ ->] | [_ ->]].
  - unfold Z.sub. rewrite inject_Z_plus, inject_Z_opp. lra.
  - rewrite Z.opp_sub_distr, Z.add_comm.
    unfold Z.sub. rewrite inject_Z_plus, inject_Z_opp. lra.
Qed.

Module Binary64Facts.
Import Binary64.

Lemma nearestEven_error (x : Q) :
  (Qabs (inject_Z (nearestEven x) - x) <= 1 # 2)%Q.
Proof.
  unfold nearestEven.
  pose proof (Qfloor_le x) as Hlo. pose proof (Qlt_floor x) as Hhi.
  rewrite inject_Z_plus in Hhi. change (inject_Z 1) with 1%Q in Hhi.
  apply Qabs_Qle_condition.
  destruct (Qcompare_spec (x - inject_Z (Qfloor x)) (1 # 2)) as [E | L | G].
  - destruct (Z.even (Qfloor x)).
    + lra.
    + rewrite inject_Z_plus. change (inject_Z 1) with 1%Q. lra.
  - lra.
  - rewrite inject_Z_plus. change (inject_Z 1) with 1%Q. lra.
Qed.

Lemma exponent_le (x : Q) :
  ~ (x == 0)%Q -> (Qabs x < inject_Z (2 ^ 53))%Q -> exponent x <= 52.
Proof.
  intros Hx Hlt. unfold exponent.
  destruct x as [n d]. cbn [Qnum Qden].
  assert (Hn : 0 < Z.abs n).
  { assert (n <> 0) by (intros ->; apply Hx; reflexivity). lia. }
  assert (Hb : Z.abs n < 2 ^ 53 * Zpos d).
  { unfold Qlt in Hlt. cbn in Hlt. lia. }
  pose proof (Z.log2_spec (Zpos d) eq_refl) as [Hd1 Hd2].
  pose proof (Z.log2_spec (Z.abs n) Hn) as [Hn1 Hn2].
  pose proof (Z.log2_nonneg (Z.abs n)). pose proof (Z.log2_nonneg (Zpos d)).
  set (ln := Z.log2 (Z.abs n)) in *. set (ld := Z.log2 (Zpos d)) in *.
  assert (He0 : ln - ld <= 53).
  { destruct (Z.le_gt_cases (ln - ld) 53) as [| Hgt]; [assumption | exfalso].
    assert (2 ^ (ld + 54) <= 2 ^ ln) by (apply Z.pow_le_mono_r; lia).
    rewrite Z.pow_add_r in H1 by lia.
    replace (Z.succ ld) with (ld + 1) in Hd2 by lia.
    rewrite Z.pow_add_r in Hd2 by lia. change (2 ^ 1) with 2 in Hd2.
    change (2 ^ 54) with (2 * 2 ^ 53) in H1. nia. }
  destruct (Z.leb_spec 0 (ln - ld)) as [Hpos | Hneg].
  - destruct (Z.leb_spec (Zpos d * 2 ^ (ln - ld)) (Z.abs n)) as [Hle | _]; [| lia].
    destruct (Z.le_gt_cases (ln - ld) 52) as [| Hgt]; [assumption | exfalso].
    assert (2 ^ 53 <= 2 ^ (ln - ld)) by (apply Z.pow_le_mono_r; lia).
    nia.
  - destruct (Zpos d <=? Z.abs n * 2 ^ (- (ln - ld))); lia.
Qed.

Lemma ulp_pos (x : Q) : (0 < ulp x)%Q.
Proof. unfold ulp. apply Qpower_0_lt. reflexivity. Qed.

Lemma ulp_le_1 (x : Q) :
  ~ (x == 0)%Q -> (Qabs x < inject_Z (2 ^ 53))%Q -> (ulp x <= 1)%Q.
Proof.
  intros Hx Hlt. pose proof (exponent_le x Hx Hlt) as He. unfold ulp.
  set (k := Z.max (exponent x) (-1022) - 52).
  assert (Hk : k <= 0) by lia. clearbody k.
  replace k with (- (- k)) by lia. rewrite Qpower_opp.
  assert (H1 : (1 <= 2 ^ (- k))%Q) by (apply Qpower_1_le; [discriminate | lia]).
  apply Qle_shift_inv_r; [lra | lra].
Qed.

(** Rounding moves a number by half the distance between doubles at
    most. *)
Lemma round_error (x : Q) : (Qabs (round x - x) <= ulp x / 2)%Q.
Proof.
  unfold round. pose proof (ulp_pos x) as Hpos.
  destruct (Qeq_bool x 0) eqn:E.
  - apply Qeq_bool_eq in E.
    assert (E' : (0 - x == 0)%Q) by (rewrite E; reflexivity).
    rewrite E'. change (Qabs 0) with 0%Q.
    apply Qle_shift_div_l; [reflexivity | lra].
  - pose proof (nearestEven_error (x / ulp x)) as Herr.
    set (u := ulp x) in *. set (N := inject_Z (nearestEven (x / u))) in *.
    assert (Hx : (N * u - x == (N - x / u) * u)%Q) by (field; lra).
    rewrite Hx, Qabs_Qmult. rewrite (Qabs_pos u) by lra.
    apply Qle_trans with ((1 # 2) * u)%Q.
    + apply Qmult_le_compat_r; [assumption | lra].
    + apply Qle_shift_div_l; [reflexivity | lra].
Qed.

(** Below 2^53 that is half a unit at most. *)
Lemma round_error_safe (x : Q) :
  (Qabs x < inject_Z (2 ^ 53))%Q -> (ulp x / 2 <= 1 # 2)%Q \/ (x == 0)%Q.
Proof.
  intros Hlt. destruct (Qeq_dec x 0) as [E | E]; [now right | left].
  pose proof (ulp_le_1 x E Hlt). apply Qle_shift_div_r; [reflexivity | lra].
Qed.

(** [round] returns what the machine returns: for sums, differences,
    products and quotients of 300 amounts from 1 on, of numbers around
    2^-1030, where doubles thin out, and of one around 10^300. *)
Lemma round_agrees_with_machine :
  Machine.agreeFrom 300 Machine.one Machine.step Machine.operands = true /\
  Machine.agreeFrom 4 Machine.tiny Machine.tinyStep Machine.operands = true /\
  Machine.agree Machine.huge Machine.step = true.
Proof. repeat split; vm_compute; reflexivity. Qed.

End Binary64Facts.

Module RoundedFacts.
Section Facts.

Variable ops : Number.Arithmetic.
Variable tz : Z.

Lemma rounded_endValue (y : Z) (v : Q) (cg : CapitalGain)
    (dy : Q) (pf : string) (re : bool) (p : YearlyPerformance) :
  Rounded.calculateYearPerformance ops tz y v
    {| capitalGain := cg;
       incomeGain := Some {| dividendYield := dy; paymentFrequency := pf;
                             reinvestDividends := re |} |} = Return p ->
  let evaluation :=
    CapitalGainResult.evaluationAmount
      (Rounded.calculateCapitalGain ops v (annualRate cg) (compoundingFrequency cg)) in
  Rounded.calculateDividends ops tz v dy pf y = Return (dividends p) /\
  totalDividends p = sumAmounts (dividends p) /\
  endValue p
  = Math.round (if re
                then Number.add ops evaluation (inject_Z (sumAmounts (dividends p)))
                else evaluation).
Proof.
  unfold Rounded.calculateYearPerformance. cbn [capitalGain incomeGain].
  destruct (Rounded.calculateDividends ops tz v dy pf y) as [l |]; [| discriminate].
  cbn [bind]. intros [= <-]. cbn [dividends totalDividends endValue].
  fold (sumAmounts l). split; [reflexivity |].
  split; [apply round_inject_Z |]. now destruct re.
Qed.

Lemma rounded_computed (y : Z) (v : Q) (cg : CapitalGain)
    (dy : Q) (pf : string) (re : bool) (l : list DividendPayment) :
  Rounded.calculateDividends ops tz v dy pf y = Return l ->
  exists p,
    Rounded.calculateYearPerformance ops tz y v
      {| capitalGain := cg;
         incomeGain := Some {| dividendYield := dy; paymentFrequency := pf;
                               reinvestDividends := re |} |} = Return p /\
    dividends p = l.
Proof.
  intros Hl. unfold Rounded.calculateYearPerformance. cbn [capitalGain incomeGain].
  rewrite Hl. cbn [bind]. eexists. split; reflexivity.
Qed.

End Facts.

(** With exact arithmetic the calculators are those of the exact model. *)
Lemma calculateCapitalGain_exact (v a : Q) (f : string) :
  Rounded.calculateCapitalGain Number.exact v a f = calculateCapitalGain v a f.
Proof.
  unfold Rounded.calculateCapitalGain, calculateCapitalGain.
  destruct (String.eqb f "daily"); [reflexivity |].
  destruct (String.eqb f "monthly"); reflexivity.
Qed.

Lemma calculateDividends_exact (tz : Z) (a dy : Q) (pf : string) (y : Z) :
  Rounded.calculateDividends Number.exact tz a dy pf y = calculateDividends tz a dy pf y.
Proof. reflexivity. Qed.

Lemma calculateYearPerformance_exact (tz y : Z) (v : Q) (r : ReturnModel) :
  Rounded.calculateYearPerformance Number.exact tz y v r
  = calculateYearPerformance tz y v r.
Proof.
  unfold Rounded.calculateYearPerformance, calculateYearPerformance.
  destruct (incomeGain r) as [[dy pf re] |]; [| reflexivity].
  rewrite calculateCapitalGain_exact, calculateDividends_exact. reflexivity.
Qed.

End RoundedFacts.

(** C5: in binary64, whatever [Math.pow] returns, the record computed
    with [reinvestDividends = true] ends within rounding of
    [round(evaluationAmount) + totalDividends], [totalDividends] being the
    sum of the year's payments: the distance is below one plus half the
    distance between doubles at the sum, hence at most 1 for a sum below
    2^53, and 0 when the sum is a double.  The record computed with
    [reinvestDividends = false], all else equal, is computed as well, has
    the same dividends and ends at [round(evaluationAmount)]. *)
Theorem C5_reinvestment_additivity (Math_pow : Q -> Z -> Q) (tz y : Z) (v : Q)
    (cg : CapitalGain) (dy : Q) (pf : string) (pT : YearlyPerformance) :
  Rounded.calculateYearPerformance (Binary64.arithmetic Math_pow) tz y v
    {| capitalGain := cg;
       incomeGain := Some {| dividendYield := dy; paymentFrequency := pf;
                             reinvestDividends := true |} |} = Return pT ->
  let evaluation :=
    CapitalGainResult.evaluationAmount
      (Rounded.calculateCapitalGain (Binary64.arithmetic Math_pow) v
         (annualRate cg) (compoundingFrequency cg)) in
  let sum := (evaluation + inject_Z (totalDividends pT))%Q in
  let distance := Z.abs (endValue pT - (Math.round evaluation + totalDividends pT)) in
  totalDividends pT = sumAmounts (dividends pT) /\
  (inject_Z distance < 1 + Binary64.ulp sum / 2)%Q /\
  ((Qabs sum < inject_Z (2 ^ 53))%Q -> distance <= 1) /\
  ((Binary64.round sum == sum)%Q -> distance = 0) /\
  exists pF,
    Rounded.calculateYearPerformance (Binary64.arithmetic Math_pow) tz y v
      {| capitalGain := cg;
         incomeGain := Some {| dividendYield := dy; paymentFrequency := pf;
                               reinvestDividends := false |} |} = Return pF /\
    dividends pF = dividends pT /\
    totalDividends pF = totalDividends pT /\
    endValue pF = Math.round evaluation.
Proof.
  intros HT evaluation sum distance. set (ops := Binary64.arithmetic Math_pow) in *.
  apply RoundedFacts.rounded_endValue in HT. cbv zeta in HT.
  destruct HT as (DT & TT & ET). fold evaluation in ET. rewrite <- TT in ET.
  change (Number.add ops evaluation (inject_Z (totalDividends pT)))
    with (Binary64.round sum) in ET.
  assert (Hexact : Math.round evaluation + totalDividends pT = Math.round sum)
    by (symmetry; apply round_plus_inject_Z).
  assert (Hgen : (inject_Z distance < 1 + Binary64.ulp sum / 2)%Q).
  { subst distance. rewrite Hexact, ET.
    apply round_near, Binary64Facts.round_error. }
  split; [assumption |]. split; [exact Hgen |]. split; [| split].
  - intros Hsafe.
    destruct (Binary64Facts.round_error_safe sum Hsafe) as [Hu | Hz].
    + assert (H : (inject_Z distance < inject_Z 2)%Q).
      { change (inject_Z 2) with 2%Q. lra. }
      rewrite <- Zlt_Qlt in H. lia.
    + subst distance. rewrite Hexact, ET.
      assert (E : (Binary64.round sum == sum)%Q).
      { unfold Binary64.round. destruct (Qeq_bool sum 0) eqn:Eb.
        - now rewrite Hz.
        - apply Qeq_bool_neq in Eb. contradiction. }
      unfold Math.round. rewrite E. lia.
  - intros E. subst distance. rewrite Hexact, ET.
    unfold Math.round. rewrite E. lia.
  - destruct (RoundedFacts.rounded_computed ops tz y v cg dy pf false _ DT)
      as (pF & HF & DF).
    exists pF. split; [assumption |]. split; [assumption |].
    apply RoundedFacts.rounded_endValue in HF. cbv zeta in HF.
    destruct HF as (_ & TF & EF). rewrite TF, TT, EF, DF. now split.
Qed.

(** At 110 with 15% a year and a quarterly dividend of 2%, reinvested: the
    product 110 * 1.15 is the double just below 126.5 and its sum with the
    dividends of 4 is the double 130.5, so the year ends at 131, one above
    126 + 4. *)
Lemma C5_reinvestment_additivity_witness :
  exists pT,
    endValue pT = 131 /\ totalDividends pT = 4 /\
    let evaluation :=
      CapitalGainResult.evaluationAmount
        (Rounded.calculateCapitalGain (Binary64.arithmetic Binary64.nearestPow) 110
           rate15 "yearly") in
    let sum := (evaluation + inject_Z (totalDividends pT))%Q in
    let distance := Z.abs (endValue pT - (Math.round evaluation + totalDividends pT)) in
    Math.round evaluation = 126 /\
    (totalDividends pT = sumAmounts (dividends pT) /\
     (inject_Z distance < 1 + Binary64.ulp sum / 2)%Q /\
     ((Qabs sum < inject_Z (2 ^ 53))%Q -> distance <= 1) /\
     ((Binary64.round sum == sum)%Q -> distance = 0) /\
     exists pF,
       Rounded.calculateYearPerformance (Binary64.arithmetic Binary64.nearestPow)
         540 2024 110 (roundingReturns false) = Return pF /\
       dividends pF = dividends pT /\
       totalDividends pF = totalDividends pT /\
       endValue pF = Math.round evaluation).
Proof.
  eexists.
  split; [| split; [| split; [|
    apply (C5_reinvestment_additivity Binary64.nearestPow 540 2024 110
             {| annualRate := rate15; compoundingFrequency := "yearly" |}
             rate2 "quarterly"); vm_compute; reflexivity ]]];
  vm_compute; reflexivity.
Defined.

(** ** C6 *)

Lemma findIndexFrom_spec {A : Type} (f : A -> bool) (l : list A) :
  forall i : Z,
    (findIndexFrom f l i = -1 /\ Forall (fun x => f x = false) l) \/
    (exists (k : nat) x,
        findIndexFrom f l i = i + Z.of_nat k /\ l !! k = Some x /\ f x = true /\
        forall (j : nat) y, (j < k)%nat -> l !! j = Some y -> f y = false) \/
    i < 0.
Proof.
  induction l as [| a rest IH]; intros i.
  - left. split; [reflexivity | constructor].
  - destruct (Z.ltb_spec i 0) as [Hneg | Hpos]; [right; now right |].
    cbn [findIndexFrom]. destruct (f a) eqn:Ha.
    + right; left. exists 0%nat, a. repeat split; [lia | assumption |].
      intros j y Hj. lia.
    + destruct (IH (i + 1)) as [[E F] | [(k & x & E & Hk & Hx & Hbefore) | Hbad]];
        [| | lia].
      * left. split; [assumption | now constructor].
      * right; left. exists (S k), x. repeat split; [lia | assumption ..|].
        intros [| j] y Hj Hy; cbn in Hy.
        -- congruence.
        -- eapply Hbefore; [| eassumption]. lia.
Qed.

Lemma updateActualPerformance_unknown_id (id : string) (target : Z)
    (actualData : ActualData.t) (assets : gmap string Asset) :
  assets !! id = None ->
  updateActualPerformance id target actualData assets = assets.
Proof. intros H. unfold updateActualPerformance. now rewrite H. Qed.

Lemma updateActualPerformance_cases (id : string) (target : Z)
    (actualData : ActualData.t) (assets : gmap string Asset) (asset : Asset) :
  assets !! id = Some asset ->
  (Forall (fun p => year p <> target) (yearlyPerformance asset) /\
   updateActualPerformance id target actualData assets = assets) \/
  (exists k : nat,
      firstOfYear target (yearlyPerformance asset) k /\
      updateActualPerformance id target actualData assets
      = <[id := withYearlyPerformance asset
                  (alter (withActual actualData) k (yearlyPerformance asset))]>
          assets).
Proof.
  intros H. unfold updateActualPerformance, findIndex. rewrite H.
  destruct (findIndexFrom_spec (fun p => year p =? target)
              (yearlyPerformance asset) 0)
    as [[E F] | [(k & x & E & Hk & Hx & Hbefore) | Hbad]]; [| | lia].
  - left. rewrite E. split; [| reflexivity].
    eapply Forall_impl; [exact F |]. cbn. intros p Hp. lia.
  - right. exists k. rewrite E.
    destruct (Z.eqb_spec (0 + Z.of_nat k) (-1)) as [| _]; [lia |].
    replace (Z.to_nat (0 + Z.of_nat k)) with k by lia.
    split; [| reflexivity]. split.
    + exists x. split; [assumption | lia].
    + intros j q Hj Hq. specialize (Hbefore j q Hj Hq). cbn in Hbefore. lia.
Qed.

(** C6: [updateActualPerformance] on a stored asset leaves every other
    asset and the asset's own settings as they were; when no record has the
    target year the store is unchanged; otherwise the first record of that
    year gets the payload as its four [actual*] fields, its projected
    fields staying as they were, and every other record is identical to
    what it was. *)
Theorem C6_reconciliation_isolation (id : string) (target : Z)
    (actualData : ActualData.t) (assets : gmap string Asset) (asset : Asset) :
  assets !! id = Some asset ->
  let assets' := updateActualPerformance id target actualData assets in
  (forall other, other <> id -> assets' !! other = assets !! other) /\
  ((forall p, p ∈ yearlyPerformance asset -> year p <> target) -> assets' = assets) /\
  exists asset',
    assets' !! id = Some asset' /\
    assetSettings asset' = assetSettings asset /\
    length (yearlyPerformance asset') = length (yearlyPerformance asset) /\
    forall (i : nat) p,
      yearlyPerformance asset !! i = Some p ->
      exists p',
        yearlyPerformance asset' !! i = Some p' /\
        projectedFields p' = projectedFields p /\
        (year p <> target -> p' = p) /\
        (~ firstOfYear target (yearlyPerformance asset) i -> p' = p) /\
        (firstOfYear target (yearlyPerformance asset) i ->
         p' = withActual actualData p /\
         actualEndValue p' = ActualData.endValue actualData /\
         actualCapitalGains p' = ActualData.capitalGains actualData /\
         actualDividends p' = ActualData.dividends actualData /\
         actualTotalDividends p' = ActualData.totalDividends actualData).
Proof.
  intros H assets'. subst assets'.
  destruct (updateActualPerformance_cases id target actualData assets asset H)
    as [[Hnone ->] | (k & Hk & ->)].
  - split; [reflexivity |]. split; [reflexivity |].
    exists asset. split; [assumption |]. split; [reflexivity |].
    split; [reflexivity |].
    intros i p Hp. exists p. split; [assumption |]. split; [reflexivity |].
    split; [reflexivity |]. split; [reflexivity |].
    intros [(q & Hq & Hy) _]. exfalso.
    rewrite Forall_lookup in Hnone. exact (Hnone i q Hq Hy).
  - split; [intros other Ho; now rewrite lookup_insert_ne |].
    split.
    { intros Hno. destruct Hk as [(q & Hq & Hy) _].
      exfalso. apply (Hno q); [| assumption].
      eapply list_elem_of_lookup_2; eassumption. }
    eexists. split; [apply lookup_insert_eq |].
    split; [reflexivity |]. split; [apply length_alter |].
    intros i p Hp. cbn [yearlyPerformance withYearlyPerformance].
    destruct (decide (k = i)) as [<- | Hne].
    + exists (withActual actualData p).
      split; [now rewrite list_lookup_alter_eq, Hp |].
      split; [reflexivity |].
      split.
      { intros Hy. destruct Hk as [(q & Hq & Hyq) _]. congruence. }
      split; [intros Hn; now destruct Hn |].
      intros _. repeat split.
    + exists p. split; [now rewrite list_lookup_alter_ne |].
      split; [reflexivity |]. split; [reflexivity |].
      split; [reflexivity |].
      intros Hi. exfalso.
      destruct Hk as [(q & Hq & Hyq) Hkb], Hi as [(q' & Hq' & Hyq') Hib].
      destruct (Nat.lt_trichotomy k i) as [Hlt | [Heq | Hgt]]; [| congruence |].
      * exact (Hib k q Hlt Hq Hyq).
      * exact (Hkb i q' Hgt Hq' Hyq').
Qed.

Lemma C6_reconciliation_isolation_witness :
  bondStore !! "a1"%string = Some bondAsset /\
  (let assets' := updateActualPerformance "a1"%string 2025 bondActual bondStore in
  (forall other, other <> "a1"%string -> assets' !! other = bondStore !! other) /\
  ((forall p, p ∈ yearlyPerformance bondAsset -> year p <> 2025) -> assets' = bondStore) /\
  exists asset',
    assets' !! "a1"%string = Some asset' /\
    assetSettings asset' = assetSettings bondAsset /\
    length (yearlyPerformance asset') = length (yearlyPerformance bondAsset) /\
    forall (i : nat) p,
      yearlyPerformance bondAsset !! i = Some p ->
      exists p',
        yearlyPerformance asset' !! i = Some p' /\
        projectedFields p' = projectedFields p /\
        (year p <> 2025 -> p' = p) /\
        (~ firstOfYear 2025 (yearlyPerformance bondAsset) i -> p' = p) /\
        (firstOfYear 2025 (yearlyPerformance bondAsset) i ->
         p' = withActual bondActual p /\
         actualEndValue p' = ActualData.endValue bondActual /\
         actualCapitalGains p' = ActualData.capitalGains bondActual /\
         actualDividends p' = ActualData.dividends bondActual /\
         actualTotalDividends p' = ActualData.totalDividends bondActual)).
Proof.
  split; [reflexivity |].
  apply (C6_reconciliation_isolation "a1" 2025 bondActual bondStore bondAsset).
  reflexivity.
Defined.

(** ** C7 *)

Lemma affectsValuation_edits (data : AssetUpdate.t) :
  affectsValuation data = true <-> editsProjection data.
Proof.
  unfold affectsValuation, editsProjection.
  rewrite !orb_true_iff, !bool_decide_eq_true.
  destruct (AssetUpdate.maturityDate data) as [| | maturity].
  - split; [intros [[[H | H] | H] | H]; auto; discriminate
           | intros [H | [H | [H | [? H]]]]; auto; discriminate].
  - split; [intros [[[H | H] | H] | H]; auto; discriminate
           | intros [H | [H | [H | [? H]]]]; auto; discriminate].
  - split; [intros _; right; right; right; eauto | auto].
Qed.

(** A payload that edits one of the four settings replaces the whole
    sequence by the projection of the merged settings, when that projection
    returns; when it raises, the error is passed on and the map stays as it
    was. *)
Lemma updateAsset_recomputes (tz : Z) (id : string) (data : AssetUpdate.t)
    (assets : gmap string Asset) (old : Asset) :
  assets !! id = Some old ->
  editsProjection data ->
  let merged := mergeAsset old data in
  match initializeYearlyPerformance tz (startDate merged) (maturityDate merged)
          (initialAmount merged) (returns merged) with
  | Return perf =>
      updateAsset tz id data assets
      = (Return tt, <[id := withYearlyPerformance merged perf]> assets)
  | Throw e => updateAsset tz id data assets = (Throw e, assets)
  end.
Proof.
  intros Ho He. apply affectsValuation_edits in He. cbv zeta.
  unfold updateAsset. rewrite Ho, He.
  now destruct (initializeYearlyPerformance tz _ _ _ _).
Qed.

(** Removing the maturity date with [null] recomputes: the bond's three
    records become the fifty-one of an asset without maturity. *)
Lemma updateAsset_null_maturity :
  exists asset',
    updateAsset 540 "a1" nullMaturity bondStore = (Return tt, {[ "a1"%string := asset' ]}) /\
    maturityDate asset' = None /\
    length (yearlyPerformance asset') = 51%nat /\
    initializeYearlyPerformance 540 (startDate asset') (maturityDate asset')
      (initialAmount asset') (returns asset') = Return (yearlyPerformance asset').
Proof.
  eexists. split; [vm_compute; reflexivity |]. now vm_compute.
Qed.

(** An edit whose merged return model has no income gain raises the
    TypeError of the projection and leaves the asset as it was. *)
Lemma updateAsset_without_incomeGain :
  updateAsset 540 "a1" gainOnlyReturns bondStore = (Throw TypeError, bondStore).
Proof. vm_compute. reflexivity. Qed.

(** C7 (code): the payload [{ maturityDate: undefined }] removes the
    bond's maturity date, the spread copying the property, but does not
    count as an edit in the test [data.maturityDate !== undefined]: the
    three records projected up to the old maturity year are kept, where the
    projection of the merged settings has fifty-one. *)
Theorem C7_undefined_maturity_keeps_old_sequence :
  exists asset' fresh,
    updateAsset 540 "a1" clearMaturity bondStore
    = (Return tt, {[ "a1"%string := asset' ]}) /\
    maturityDate bondAsset = Some (Date.parseDateOnly 2026 6 30) /\
    maturityDate asset' = None /\
    yearlyPerformance asset' = yearlyPerformance bondAsset /\
    length (yearlyPerformance asset') = 3%nat /\
    initializeYearlyPerformance 540 (startDate asset') (maturityDate asset')
      (initialAmount asset') (returns asset') = Return fresh /\
    length fresh = 51%nat /\
    fresh <> yearlyPerformance asset'.
Proof.
  eexists. eexists. split; [vm_compute; reflexivity |].
  split; [reflexivity |]. split; [reflexivity |]. split; [reflexivity |].
  split; [reflexivity |]. split; [vm_compute; reflexivity |].
  split; [reflexivity |]. intros E. apply (f_equal length) in E.
  vm_compute in E. discriminate.
Qed.

(** ** Percentiles (C9) *)

Lemma floor_fraction_range (n : nat) (p : Q) :
  (0 <= p)%Q -> (p < 1)%Q -> (1 <= n)%nat ->
  0 <= Math.floor (inject_Z (Z.of_nat n) * p)%Q < Z.of_nat n.
Proof.
  intros H0 H1 Hn. unfold Math.floor.
  assert (Hpos : (0 < inject_Z (Z.of_nat n))%Q).
  { rewrite <- (Zlt_Qlt 0). lia. }
  split.
  - rewrite <- (Qfloor_Z 0). apply Qfloor_resp_le.
    apply Qmult_le_0_compat; [now apply Qlt_le_weak | assumption].
  - rewrite Zlt_Qlt.
    eapply Qle_lt_trans; [apply Qfloor_le |].
    rewrite <- (Qmult_1_r (inject_Z (Z.of_nat n))) at 2.
    now apply Qmult_lt_l.
Qed.

Lemma simulatorPercentile_range (p : Q) :
  simulatorPercentile p -> (0 <= p)%Q /\ (p < 1)%Q.
Proof. intros [-> | [-> | ->]]; split; easy. Qed.

Lemma getPercentile_in_bounds (l : list Q) (p : Q) :
  simulatorPercentile p -> l <> [] ->
  exists (i : nat) v,
    Math.floor (inject_Z (Z.of_nat (length l)) * p)%Q = Z.of_nat i /\
    (i < length l)%nat /\ l !! i = Some v /\ getPercentile l p = Some v.
Proof.
  intros Hp Hl. destruct (simulatorPercentile_range p Hp) as [H0 H1].
  assert (Hn : (1 <= length l)%nat) by (destruct l; [congruence | cbn; lia]).
  pose proof (floor_fraction_range (length l) p H0 H1 Hn) as Hi.
  set (index := Math.floor _) in *.
  assert (Hlt : (Z.to_nat index < length l)%nat) by lia.
  destruct (lookup_lt_is_Some_2 l _ Hlt) as [v Hv].
  exists (Z.to_nat index), v. repeat split; [lia | assumption .. |].
  unfold getPercentile, Array_get. fold index.
  destruct (Z.ltb_spec index 0); [lia | assumption].
Qed.

(** C9, as stated, fails: for no sample count of at least one does
    [floor(length * p)] equal [length]. *)
Lemma C9_index_below_length :
  ~ exists (n : nat) (p : Q),
      (1 <= n)%nat /\ simulatorPercentile p /\
      Math.floor (inject_Z (Z.of_nat n) * p)%Q = Z.of_nat n.
Proof.
  intros (n & p & Hn & Hp & E).
  destruct (simulatorPercentile_range p Hp) as [H0 H1].
  pose proof (floor_fraction_range n p H0 H1 Hn). lia.
Qed.

(** The same on doubles, for every sample count from 1 to 100000: the
    rounded product never reaches the length. *)
Lemma percentile_index_in_bounds_binary64 :
  Double.allInBounds (Z.to_nat 100000) Double.one = true.
Proof. vm_compute. reflexivity. Qed.

(** C9 (amended): [getPercentile] reads the sorted values at
    [floor(length * p)] without clamping; for a list of at least one value
    and p among 0.95, 0.50 and 0.05 that index lies below [length] and a
    value of the list is returned; the index equals [length] for the empty
    list only, where the read is out of bounds and yields [undefined]. *)
Theorem C9_getPercentile_index (sortedArray : list Q) (p : Q) :
  simulatorPercentile p ->
  let index := Math.floor (inject_Z (Z.of_nat (length sortedArray)) * p)%Q in
  getPercentile sortedArray p = Array_get sortedArray index /\
  (sortedArray <> [] ->
   0 <= index < Z.of_nat (length sortedArray) /\
   exists v, v ∈ sortedArray /\ getPercentile sortedArray p = Some v) /\
  (sortedArray = [] ->
   index = Z.of_nat (length sortedArray) /\ getPercentile sortedArray p = None).
Proof.
  intros Hp index. split; [reflexivity |]. split.
  - intros Hl.
    destruct (getPercentile_in_bounds sortedArray p Hp Hl) as (i & v & E & Hi & Hv & G).
    split; [subst index; lia |].
    exists v. split; [eapply list_elem_of_lookup_2; eassumption | assumption].
  - intros ->. subst index. cbn [length Z.of_nat inject_Z].
    destruct Hp as [-> | [-> | ->]]; now vm_compute.
Qed.

Lemma C9_getPercentile_index_witness :
  simulatorPercentile 0.95 /\
  (let index := Math.floor (inject_Z (Z.of_nat (length [1%Q; 2%Q; 3%Q])) * 0.95)%Q in
   getPercentile [1%Q; 2%Q; 3%Q] 0.95 = Array_get [1%Q; 2%Q; 3%Q] index /\
   ([1%Q; 2%Q; 3%Q] <> [] ->
    0 <= index < Z.of_nat (length [1%Q; 2%Q; 3%Q]) /\
    exists v, v ∈ [1%Q; 2%Q; 3%Q] /\ getPercentile [1%Q; 2%Q; 3%Q] 0.95 = Some v) /\
   ([1%Q; 2%Q; 3%Q] = [] ->
    index = Z.of_nat (length [1%Q; 2%Q; 3%Q]) /\
    getPercentile [1%Q; 2%Q; 3%Q] 0.95 = None)).
Proof.
  split; [left; reflexivity |].
  apply (C9_getPercentile_index [1%Q; 2%Q; 3%Q] 0.95). left; reflexivity.
Defined.

(** ** Monte Carlo simulation (C8, C10) *)

Lemma sortAscending_replicate (n : nat) (x : Q) :
  sortAscending (replicate n x) = replicate n x.
Proof.
  induction n as [| n IH]; [reflexivity |].
  cbn [replicate sortAscending]. rewrite IH.
  destruct n as [| n]; [reflexivity |].
  cbn [replicate insertAscending].
  assert (H : Qle_bool x x = true) by (apply Qle_bool_iff, Qle_refl).
  now rewrite H.
Qed.

Lemma map_replicate {A B : Type} (f : A -> B) (n : nat) (x : A) :
  map f (replicate n x) = replicate n (f x).
Proof. induction n as [| n IH]; [reflexivity | cbn; now rewrite IH]. Qed.

Section Simulation.

Variable Math_exp : Q -> Q.
Variable normalRandom : nat -> Q.

(** Without a year to simulate every path is the principal alone and
    [normalRandom] is not called. *)
Lemma simulatePaths_no_years (asset : Asset) (volatility : Q) (years : Z) :
  years <= 0 ->
  forall (n k : nat) (results : list (list Q)),
    simulatePaths Math_exp normalRandom asset volatility years n k results
    = (results ++ replicate n [initialAmount asset], k).
Proof.
  intros Hy. replace (Z.to_nat years) with 0%nat by lia.
  induction n as [| n IH]; intros k results.
  - cbn [simulatePaths replicate]. now rewrite app_nil_r.
  - cbn [simulatePaths simulatePath replicate].
    replace (Z.to_nat years) with 0%nat by lia.
    cbn [simulatePath]. rewrite IH, <- app_assoc. reflexivity.
Qed.

Lemma runMonteCarloSimulation_no_iterations (assetId : string) (years : Z)
    (iterations : option Z) (assets : gmap string Asset) (asset : Asset)
    (k : nat) :
  assets !! assetId = Some asset ->
  default 1000 iterations <= 0 ->
  runMonteCarloSimulation Math_exp normalRandom assetId years iterations assets k
  = (Return (Some {| bestCase := None; expected := None; worstCase := None;
                     paths := [] |}), assets, k).
Proof.
  intros Ha Hi. unfold runMonteCarloSimulation. rewrite Ha.
  replace (Z.to_nat (default 1000 iterations)) with 0%nat by lia.
  reflexivity.
Qed.

Lemma runMonteCarloSimulation_no_years (assetId : string) (years : Z)
    (iterations : option Z) (assets : gmap string Asset) (asset : Asset)
    (k : nat) :
  assets !! assetId = Some asset ->
  years <= 0 ->
  let n := Z.to_nat (default 1000 iterations) in
  let principal := if decide (n = 0%nat) then None else Some (initialAmount asset) in
  runMonteCarloSimulation Math_exp normalRandom assetId years iterations assets k
  = (Return (Some {| bestCase := principal; expected := principal;
                     worstCase := principal;
                     paths := replicate n [initialAmount asset] |}), assets, k).
Proof.
  intros Ha Hy n principal. unfold runMonteCarloSimulation. rewrite Ha.
  fold n. rewrite simulatePaths_no_years by assumption.
  cbn [app]. rewrite map_replicate. cbn [List.last].
  rewrite sortAscending_replicate.
  assert (G : forall p, simulatorPercentile p ->
                        getPercentile (replicate n (initialAmount asset)) p = principal).
  { intros p Hp. subst principal. destruct (decide (n = 0%nat)) as [-> | Hn].
    - destruct Hp as [-> | [-> | ->]]; reflexivity.
    - destruct (getPercentile_in_bounds (replicate n (initialAmount asset)) p Hp)
        as (i & v & _ & _ & Hv & ->).
      { destruct n; [congruence | discriminate]. }
      apply lookup_replicate in Hv. now destruct Hv as [-> _]. }
  rewrite !G by (unfold simulatorPercentile; auto).
  reflexivity.
Qed.

End Simulation.

(** C8, as stated, fails: a request with [years = 0], and one with
    [iterations = 0], on a stored asset returns a result object and raises
    nothing. *)
Lemma C8_nonpositive_parameters_return :
  runMonteCarloSimulation idleExp idleNormal "a1" 0 (Some 2) bondStore 0
  = (Return (Some {| bestCase := Some 100000%Q; expected := Some 100000%Q;
                     worstCase := Some 100000%Q;
                     paths := [[100000%Q]; [100000%Q]] |}), bondStore, 0%nat) /\
  runMonteCarloSimulation idleExp idleNormal "a1" 10 (Some 0) bondStore 0
  = (Return (Some {| bestCase := None; expected := None; worstCase := None;
                     paths := [] |}), bondStore, 0%nat) /\
  ~ isThrow (fst (fst (runMonteCarloSimulation idleExp idleNormal "a1" 0 (Some 2)
                         bondStore 0))) /\
  ~ isThrow (fst (fst (runMonteCarloSimulation idleExp idleNormal "a1" 10 (Some 0)
                         bondStore 0))).
Proof.
  split; [vm_compute; reflexivity |]. split; [vm_compute; reflexivity |].
  split; intros [e He]; vm_compute in He; discriminate.
Qed.

(** C8 (amended): for a stored asset, a simulation request with
    [years <= 0] or [iterations <= 0] raises no error and returns a result
    object, without drawing a random number: with [iterations <= 0] there
    are no paths and the three percentiles are [undefined]; with
    [years <= 0] every path is the principal alone and the three
    percentiles are the principal. *)
Theorem C8_nonpositive_parameters (Math_exp : Q -> Q) (normalRandom : nat -> Q)
    (assetId : string) (years : Z) (iterations : option Z)
    (assets : gmap string Asset) (asset : Asset) (k : nat) :
  assets !! assetId = Some asset ->
  years <= 0 \/ default 1000 iterations <= 0 ->
  exists result,
    runMonteCarloSimulation Math_exp normalRandom assetId years iterations assets k
    = (Return (Some result), assets, k) /\
    (default 1000 iterations <= 0 ->
     paths result = [] /\ bestCase result = None /\ expected result = None /\
     worstCase result = None) /\
    (years <= 0 ->
     paths result
     = replicate (Z.to_nat (default 1000 iterations)) [initialAmount asset] /\
     (0 < default 1000 iterations ->
      bestCase result = Some (initialAmount asset) /\
      expected result = Some (initialAmount asset) /\
      worstCase result = Some (initialAmount asset))).
Proof.
  intros Ha Hnp.
  destruct (Z.leb_spec (default 1000 iterations) 0) as [Hi | Hi].
  - rewrite (runMonteCarloSimulation_no_iterations _ _ _ _ _ _ _ _ Ha Hi).
    eexists. split; [reflexivity |]. split; [now intros _ |].
    intros _. cbn [paths]. replace (Z.to_nat (default 1000 iterations)) with 0%nat by lia.
    split; [reflexivity | lia].
  - destruct Hnp as [Hy | Hbad]; [| lia].
    rewrite (runMonteCarloSimulation_no_years _ _ _ _ _ _ _ _ Ha Hy).
    eexists. split; [reflexivity |]. split; [lia |].
    intros _. cbn [paths bestCase expected worstCase]. split; [reflexivity |].
    intros _. destruct (decide (Z.to_nat (default 1000 iterations) = 0%nat)); [lia |].
    now repeat split.
Qed.

Lemma C8_nonpositive_parameters_witness :
  bondStore !! "a1"%string = Some bondAsset /\
  (0 <= 0 \/ default 1000 (Some 2) <= 0) /\
  exists result,
    runMonteCarloSimulation idleExp idleNormal "a1" 0 (Some 2) bondStore 0
    = (Return (Some result), bondStore, 0%nat) /\
    (default 1000 (Some 2) <= 0 ->
     paths result = [] /\ bestCase result = None /\ expected result = None /\
     worstCase result = None) /\
    (0 <= 0 ->
     paths result
     = replicate (Z.to_nat (default 1000 (Some 2))) [initialAmount bondAsset] /\
     (0 < default 1000 (Some 2) ->
      bestCase result = Some (initialAmount bondAsset) /\
      expected result = Some (initialAmount bondAsset) /\
      worstCase result = Some (initialAmount bondAsset))).
Proof.
  split; [reflexivity |]. split; [left; lia |].
  apply (C8_nonpositive_parameters idleExp idleNormal "a1" 0 (Some 2) bondStore
           bondAsset 0); [reflexivity | left; lia].
Defined.

(** C10: for an [assetId] the store does not hold,
    [runMonteCarloSimulation] returns [null], raising nothing, drawing no
    random number and leaving the store as it was. *)
Theorem C10_unknown_asset_returns_null (Math_exp : Q -> Q)
    (normalRandom : nat -> Q) (assetId : string) (years : Z)
    (iterations : option Z) (assets : gmap string Asset) (k : nat) :
  assets !! assetId = None ->
  runMonteCarloSimulation Math_exp normalRandom assetId years iterations assets k
  = (Return None, assets, k).
Proof.
  intros H. unfold runMonteCarloSimulation. now rewrite H.
Qed.

Lemma C10_unknown_asset_returns_null_witness :
  bondStore !! "zz"%string = None /\
  runMonteCarloSimulation idleExp idleNormal "zz" 30 None bondStore 7
  = (Return None, bondStore, 7%nat).
Proof.
  split; [reflexivity |].
  apply (C10_unknown_asset_returns_null idleExp idleNormal "zz" 30 None bondStore 7).
  reflexivity.
Defined.

(** * Further properties *)

(** ** The years of a projection *)

Lemma initializeYearlyPerformance_loop_years (tz : Z) (r : ReturnModel) (n : nat) :
  forall (y : Z) (cur : Q) (acc out : list YearlyPerformance),
    initializeYearlyPerformance_loop tz r n y cur acc = Return out ->
    exists ext, out = acc ++ ext /\ map year ext = seqZ y (Z.of_nat n).
Proof.
  induction n as [| n IH]; intros y cur acc out H; cbn [initializeYearlyPerformance_loop] in H.
  - injection H as <-. exists []. now rewrite app_nil_r.
  - destruct (calculateYearPerformance tz y cur r) as [p |] eqn:Hp;
      cbn [bind] in H; [| discriminate].
    destruct (IH _ _ _ _ H) as (ext & -> & Hy).
    exists (p :: ext). rewrite <- app_assoc. split; [reflexivity |].
    apply calculateYearPerformance_inv in Hp. destruct Hp as [Hyear _].
    rewrite seqZ_cons by lia. cbn [map]. rewrite Hyear, Hy.
    f_equal. f_equal; lia.
Qed.

Lemma initializeYearlyPerformance_years (tz : Z) (s : Date.TimeValue)
    (m : option Date.TimeValue) (a : Q) (r : ReturnModel)
    (perf : list YearlyPerformance) :
  initializeYearlyPerformance tz s m a r = Return perf ->
  map year perf = projectionYears tz s m.
Proof.
  unfold initializeYearlyPerformance, projectionYears.
  destruct (Date.getFullYear tz s) as [sy |]; cbn [option_map].
  - destruct m as [maturity |].
    + destruct (Date.getFullYear tz maturity) as [ey |].
      * intros H. apply initializeYearlyPerformance_loop_years in H.
        destruct H as (ext & -> & Hy). cbn [app]. rewrite Hy.
        destruct (Z.le_gt_cases 0 (ey - sy + 1)).
        -- now rewrite Z2Nat.id.
        -- rewrite (seqZ_nil sy (ey - sy + 1)) by lia.
           replace (Z.to_nat (ey - sy + 1)) with 0%nat by lia. reflexivity.
      * now intros [= <-].
    + intros H. apply initializeYearlyPerformance_loop_years in H.
      destruct H as (ext & -> & Hy). cbn [app]. rewrite Hy.
      f_equal. lia.
  - destruct m; now intros [= <-].
Qed.

(** X1: a lifetime projection that returns holds exactly one record per
    calendar year from the start year to the end year (the maturity year,
    or the start year plus 50), in ascending order; it is empty when a date
    is invalid or the end year lies before the start year. *)
Theorem projection_covers_years (tz : Z) (s : Date.TimeValue)
    (m : option Date.TimeValue) (a : Q) (r : ReturnModel)
    (perf : list YearlyPerformance) :
  initializeYearlyPerformance tz s m a r = Return perf ->
  map year perf = projectionYears tz s m /\
  length perf = length (projectionYears tz s m) /\
  StronglySorted Z.lt (map year perf).
Proof.
  intros H. apply initializeYearlyPerformance_years in H.
  split; [exact H |]. split; [now rewrite <- H, length_map |].
  rewrite H. unfold projectionYears.
  assert (G : forall n y, StronglySorted Z.lt (seqZ y (Z.of_nat n))).
  { induction n as [| n IH]; intros y.
    - constructor.
    - rewrite seqZ_cons by lia. constructor.
      + replace (Z.pred (Z.of_nat (S n))) with (Z.of_nat n) by lia. apply IH.
      + apply Forall_forall. intros x Hx. apply elem_of_seqZ in Hx. lia. }
  assert (G' : forall len y, StronglySorted Z.lt (seqZ y len)).
  { intros len y. destruct (Z.le_gt_cases 0 len).
    - rewrite <- (Z2Nat.id len) by assumption. apply G.
    - rewrite seqZ_nil by lia. constructor. }
  destruct (Date.getFullYear tz s) as [sy |]; cbn [option_map]; [| destruct m; constructor].
  destruct m as [maturity |]; [| apply G'].
  destruct (Date.getFullYear tz maturity); [apply G' | constructor].
Qed.

Lemma projection_covers_years_witness :
  initializeYearlyPerformance 540 (startDate bondAsset) (maturityDate bondAsset)
    (initialAmount bondAsset) (returns bondAsset)
  = Return (yearlyPerformance bondAsset) /\
  map year (yearlyPerformance bondAsset)
  = projectionYears 540 (startDate bondAsset) (maturityDate bondAsset).
Proof.
  split; [vm_compute; reflexivity |].
  apply (projection_covers_years 540 _ _ (initialAmount bondAsset) (returns bondAsset)).
  vm_compute. reflexivity.
Defined.

(** ** The dividend schedule *)

Lemma round_within_half (x : Q) :
  (x - (1 # 2) < inject_Z (Math.round x))%Q /\
  (inject_Z (Math.round x) <= x + (1 # 2))%Q.
Proof.
  unfold Math.round. split.
  - pose proof (Qlt_floor (x + (1 # 2))) as H.
    rewrite inject_Z_plus in H. change (inject_Z 1) with 1%Q in H. lra.
  - apply Qfloor_le.
Qed.

Lemma round_monotone (x y : Q) : (x <= y)%Q -> Math.round x <= Math.round y.
Proof.
  intros H. unfold Math.round. apply Qfloor_resp_le. lra.
Qed.

Lemma round_nonneg (x : Q) : (0 <= x)%Q -> 0 <= Math.round x.
Proof.
  intros H. rewrite <- (round_inject_Z 0). now apply round_monotone.
Qed.

Lemma paymentsIn_eqb (pf : string) :
  (if String.eqb pf "monthly" then 12
   else if String.eqb pf "quarterly" then 4 else 1) = paymentsIn pf.
Proof.
  unfold paymentsIn. rewrite !String_eqb_decide.
  destruct (decide (pf = "monthly")) as [E | E].
  - now rewrite bool_decide_eq_true_2.
  - rewrite bool_decide_eq_false_2 by assumption.
    destruct (decide (pf = "quarterly")) as [E' | E'].
    + now rewrite bool_decide_eq_true_2.
    + now rewrite bool_decide_eq_false_2.
Qed.

Lemma paymentsIn_cases (pf : string) :
  paymentsIn pf = 12 \/ paymentsIn pf = 4 \/ paymentsIn pf = 1.
Proof.
  unfold paymentsIn. destruct (decide (pf = "monthly")); [now left |].
  destruct (decide (pf = "quarterly")); [right; now left | right; now right].
Qed.

Lemma calculateDividends_loop_shape (tz : Z) (each : Q) (ppy y : Z) (n : nat) :
  forall (i : Z) (acc out : list DividendPayment),
    calculateDividends_loop tz each ppy y n i acc = Return out ->
    exists ext,
      out = acc ++ ext /\ length ext = n /\
      Forall (fun p => amount p = Math.round each) ext.
Proof.
  induction n as [| n IH]; intros i acc out H; cbn [calculateDividends_loop] in H.
  - injection H as <-. exists []. rewrite app_nil_r. repeat split. constructor.
  - destruct (Date.toISODateString _) as [d |]; cbn [bind] in H; [| discriminate].
    destruct (IH _ _ _ H) as (ext & -> & Hlen & Hall).
    eexists (_ :: ext). rewrite <- app_assoc. split; [reflexivity |].
    split; [cbn; now rewrite Hlen |]. now constructor.
Qed.

Lemma sumAmounts_constant (l : list DividendPayment) (e : Z) :
  Forall (fun p => amount p = e) l -> sumAmounts l = Z.of_nat (length l) * e.
Proof.
  unfold sumAmounts.
  assert (G : forall acc, Forall (fun p => amount p = e) l ->
                          fold_left (fun sum div => sum + amount div) l acc
                          = acc + Z.of_nat (length l) * e).
  { induction l as [| p rest IH]; intros acc Hall; cbn [fold_left length].
    - lia.
    - apply Forall_cons in Hall. destruct Hall as [Hp Hrest].
      rewrite IH by assumption. rewrite Hp. lia. }
  intros H. now rewrite G.
Qed.

(** X2: in whatever arithmetic, that of binary64 included, a dividend
    schedule that is returned has 12, 4 or 1 payments (monthly, quarterly,
    anything else), every payment is the per-payment dividend
    [(amount * dividendYield) / paymentsPerYear], as the arithmetic returns
    it, rounded to a whole amount, and the payments sum up to within half a
    unit per payment of [paymentsPerYear] times that dividend. *)
Theorem dividend_schedule_shape (ops : Number.Arithmetic) (tz : Z) (a dy : Q)
    (pf : string) (y : Z) (l : list DividendPayment) :
  Rounded.calculateDividends ops tz a dy pf y = Return l ->
  let perPayment :=
    Number.div ops (Number.mul ops a dy) (inject_Z (paymentsIn pf)) in
  let each := Math.round perPayment in
  length l = Z.to_nat (paymentsIn pf) /\
  Forall (fun p => amount p = each) l /\
  sumAmounts l = paymentsIn pf * each /\
  (Qabs (inject_Z (sumAmounts l) - inject_Z (paymentsIn pf) * perPayment)
   <= inject_Z (paymentsIn pf) * (1 # 2))%Q.
Proof.
  intros H perPayment each.
  unfold Rounded.calculateDividends in H. rewrite paymentsIn_eqb in H.
  apply calculateDividends_loop_shape in H.
  destruct H as (ext & -> & Hlen & Hall). cbn [app].
  fold perPayment in Hall. fold each in Hall.
  assert (Hsum : sumAmounts ext = paymentsIn pf * each).
  { rewrite (sumAmounts_constant ext each Hall), Hlen.
    destruct (paymentsIn_cases pf) as [-> | [-> | ->]]; reflexivity. }
  split; [assumption |]. split; [assumption |]. split; [assumption |].
  rewrite Hsum, inject_Z_mult. subst each.
  destruct (round_within_half perPayment) as [Hlo Hhi].
  clear Hsum Hall Hlen. clearbody perPayment.
  generalize dependent (inject_Z (Math.round perPayment)). intros rx Hlo Hhi.
  apply Qabs_case; intros _;
    destruct (paymentsIn_cases pf) as [-> | [-> | ->]];
    change (inject_Z 12) with 12%Q; change (inject_Z 4) with 4%Q;
    change (inject_Z 1) with 1%Q; lra.
Qed.

(** X2 in binary64, for 3000 at a yield of 1.8% paid quarterly: the
    product is the double just below 54 and its quarter the double just
    below 13.5, so every payment is 13. *)
Lemma dividend_schedule_shape_witness :
  exists l,
    Rounded.calculateDividends (Binary64.arithmetic Binary64.nearestPow)
      540 3000 rate18 "quarterly" 2024 = Return l /\
    map amount l = [13; 13; 13; 13] /\
    (let perPayment :=
       Binary64.round (Binary64.round (3000 * rate18)
                       / inject_Z (paymentsIn "quarterly")) in
     let each := Math.round perPayment in
     length l = Z.to_nat (paymentsIn "quarterly") /\
     Forall (fun p => amount p = each) l /\
     sumAmounts l = paymentsIn "quarterly" * each /\
     (Qabs (inject_Z (sumAmounts l) - inject_Z (paymentsIn "quarterly") * perPayment)
      <= inject_Z (paymentsIn "quarterly") * (1 # 2))%Q).
Proof.
  eexists. split; [vm_compute; reflexivity |]. split; [reflexivity |].
  apply (dividend_schedule_shape (Binary64.arithmetic Binary64.nearestPow)
           540 3000 rate18 "quarterly" 2024).
  vm_compute. reflexivity.
Defined.

(** ** Growth *)

Lemma periodsAndRate_cases (a : Q) (f : string) :
  periodsAndRate a f = (365, (a / 365)%Q) \/
  periodsAndRate a f = (12, (a / 12)%Q) \/
  periodsAndRate a f = (1, a).
Proof.
  unfold periodsAndRate. destruct (decide (f = "daily")); [now left |].
  destruct (decide (f = "monthly")); [right; now left | right; now right].
Qed.

Lemma periodsAndRate_nonneg (a : Q) (f : string) :
  (0 <= a)%Q ->
  0 < fst (periodsAndRate a f) /\ (0 <= snd (periodsAndRate a f))%Q.
Proof.
  intros Ha.
  destruct (periodsAndRate_cases a f) as [-> | [-> | ->]]; cbn [fst snd];
    (split; [lia |]); try assumption.
  - apply Qle_shift_div_l; [reflexivity | lra].
  - apply Qle_shift_div_l; [reflexivity | lra].
Qed.

(** With a principal and a rate that are not negative, a year of
    compounding does not lose value. *)
Lemma calculateCapitalGain_nonneg (v a : Q) (f : string) :
  (0 <= v)%Q -> (0 <= a)%Q ->
  (v <= CapitalGainResult.evaluationAmount (calculateCapitalGain v a f))%Q /\
  (0 <= CapitalGainResult.capitalGain (calculateCapitalGain v a f))%Q.
Proof.
  intros Hv Ha. rewrite calculateCapitalGain_schedule.
  cbn [CapitalGainResult.evaluationAmount CapitalGainResult.capitalGain].
  destruct (periodsAndRate_nonneg a f Ha) as [Hn Hr].
  assert (H1 : (1 <= (1 + snd (periodsAndRate a f)) ^ fst (periodsAndRate a f))%Q).
  { apply Qpower_1_le; [lra | lia]. }
  set (g := ((1 + snd (periodsAndRate a f)) ^ fst (periodsAndRate a f))%Q) in *.
  assert (H2 : (v * 1 <= v * g)%Q).
  { rewrite !(Qmult_comm v). now apply Qmult_le_compat_r. }
  split; lra.
Qed.

Lemma sumAmounts_nonneg (l : list DividendPayment) :
  Forall (fun p => 0 <= amount p) l -> 0 <= sumAmounts l.
Proof.
  unfold sumAmounts.
  assert (G : forall acc, 0 <= acc -> Forall (fun p => 0 <= amount p) l ->
                          0 <= fold_left (fun sum div => sum + amount div) l acc).
  { induction l as [| p rest IH]; intros acc Hacc Hall; cbn [fold_left].
    - assumption.
    - apply Forall_cons in Hall. destruct Hall as [Hp Hrest].
      apply IH; [lia | assumption]. }
  intros H. apply G; [lia | assumption].
Qed.

Lemma calculateYearPerformance_record (tz y : Z) (v : Q) (cg : CapitalGain)
    (dy : Q) (pf : string) (re : bool) (p : YearlyPerformance) :
  calculateYearPerformance tz y v
    {| capitalGain := cg;
       incomeGain := Some {| dividendYield := dy; paymentFrequency := pf;
                             reinvestDividends := re |} |} = Return p ->
  calculateDividends tz v dy pf y = Return (dividends p) /\
  year p = y /\
  startValue p = Math.round v /\
  capitalGains p
  = Math.round (CapitalGainResult.capitalGain
                  (calculateCapitalGain v (annualRate cg) (compoundingFrequency cg))) /\
  totalDividends p = sumAmounts (dividends p) /\
  endValue p
  = Math.round (CapitalGainResult.evaluationAmount
                  (calculateCapitalGain v (annualRate cg) (compoundingFrequency cg)))
    + (if re then sumAmounts (dividends p) else 0) /\
  actualEndValue p = None /\ actualCapitalGains p = None /\
  actualDividends p = None /\ actualTotalDividends p = None.
Proof.
  intros H.
  pose proof (calculateYearPerformance_endValue tz y v cg dy pf re p H) as E.
  cbv zeta in E. destruct E as (Hdiv & Htot & Hend).
  unfold calculateYearPerformance in H. cbn [capitalGain incomeGain] in H.
  destruct (calculateDividends tz v dy pf y) as [l |]; [| discriminate].
  cbn [bind] in H. injection H as <-.
  cbn [dividends year startValue capitalGains totalDividends endValue
       actualEndValue actualCapitalGains actualDividends actualTotalDividends] in *.
  repeat split; try assumption.
  rewrite Hend. destruct re; lia.
Qed.

Lemma calculateYearPerformance_nonneg (tz y : Z) (v : Q) (r : ReturnModel)
    (p : YearlyPerformance) :
  calculateYearPerformance tz y v r = Return p ->
  (0 <= v)%Q -> (0 <= annualRate (capitalGain r))%Q ->
  (forall ig, incomeGain r = Some ig -> (0 <= dividendYield ig)%Q) ->
  0 <= startValue p <= endValue p /\ 0 <= capitalGains p /\
  0 <= totalDividends p /\ Forall (fun d => 0 <= amount d) (dividends p).
Proof.
  intros H Hv Ha Hd. destruct r as [cg [[dy pf re] |]]; [| discriminate].
  specialize (Hd _ eq_refl). cbn [dividendYield capitalGain] in *.
  apply calculateYearPerformance_record in H.
  destruct H as (Hdiv & _ & Hs & Hc & Htot & Hend & _).
  unfold calculateDividends in Hdiv. rewrite paymentsIn_eqb in Hdiv.
  apply calculateDividends_loop_shape in Hdiv.
  destruct Hdiv as (ext & Hext & _ & Hall). cbn [app] in Hext.
  destruct (calculateCapitalGain_nonneg v (annualRate cg) (compoundingFrequency cg)
              Hv Ha) as [Hev Hcg].
  assert (Heach : 0 <= Math.round (v * dy / inject_Z (paymentsIn pf))%Q).
  { apply round_nonneg. apply Qle_shift_div_l.
    - destruct (paymentsIn_cases pf) as [-> | [-> | ->]]; reflexivity.
    - rewrite Qmult_0_l. now apply Qmult_le_0_compat. }
  assert (Hamounts : Forall (fun d => 0 <= amount d) (dividends p)).
  { rewrite Hext. eapply Forall_impl; [exact Hall |]. cbn. intros d ->. exact Heach. }
  pose proof (sumAmounts_nonneg _ Hamounts) as Hsum.
  pose proof (round_monotone _ _ Hev) as Hmono.
  pose proof (round_nonneg v Hv).
  pose proof (round_nonneg _ Hcg).
  repeat split; try lia; try assumption.
  rewrite Hs, Hend. destruct re; lia.
Qed.

Lemma initializeYearlyPerformance_loop_nonneg (tz : Z) (r : ReturnModel) :
  (0 <= annualRate (capitalGain r))%Q ->
  (forall ig, incomeGain r = Some ig -> (0 <= dividendYield ig)%Q) ->
  forall (n : nat) (y : Z) (cur : Q) (acc out : list YearlyPerformance),
    (0 <= cur)%Q ->
    initializeYearlyPerformance_loop tz r n y cur acc = Return out ->
    exists ext,
      out = acc ++ ext /\
      Forall (fun p => 0 <= startValue p <= endValue p /\ 0 <= capitalGains p /\
                       0 <= totalDividends p) ext.
Proof.
  intros Ha Hd. induction n as [| n IH]; intros y cur acc out Hcur H;
    cbn [initializeYearlyPerformance_loop] in H.
  - injection H as <-. exists []. rewrite app_nil_r. split; [reflexivity | constructor].
  - destruct (calculateYearPerformance tz y cur r) as [p |] eqn:Hp;
      cbn [bind] in H; [| discriminate].
    pose proof (calculateYearPerformance_nonneg tz y cur r p Hp Hcur Ha Hd)
      as (Hse & Hc & Ht & _).
    assert (Hnext : (0 <= inject_Z (endValue p))%Q).
    { rewrite <- (Zle_Qle 0). lia. }
    destruct (IH _ _ _ _ Hnext H) as (ext & -> & Hall).
    exists (p :: ext). rewrite <- app_assoc. split; [reflexivity |].
    constructor; [now repeat split | assumption].
Qed.

(** X3: with a principal, an annual rate and a dividend yield that are not
    negative, no projected year loses value: in every record
    [0 <= startValue <= endValue], and the capital gain and the total of
    dividends are not negative. *)
Theorem projection_never_loses_value (tz : Z) (s : Date.TimeValue)
    (m : option Date.TimeValue) (a : Q) (r : ReturnModel)
    (perf : list YearlyPerformance) :
  initializeYearlyPerformance tz s m a r = Return perf ->
  (0 <= a)%Q -> (0 <= annualRate (capitalGain r))%Q ->
  (forall ig, incomeGain r = Some ig -> (0 <= dividendYield ig)%Q) ->
  Forall (fun p => 0 <= startValue p <= endValue p /\ 0 <= capitalGains p /\
                   0 <= totalDividends p) perf.
Proof.
  intros H Hpos Ha Hd. unfold initializeYearlyPerformance in H.
  destruct (Date.getFullYear tz s) as [sy |];
    [destruct (match m with
               | Some maturity => Date.getFullYear tz maturity
               | None => option_map (fun y => y + 50) (Some sy)
               end) as [ey |] |].
  - apply (initializeYearlyPerformance_loop_nonneg tz r Ha Hd) in H; [| assumption].
    destruct H as (ext & -> & Hall). exact Hall.
  - injection H as <-. constructor.
  - destruct (match m with
              | Some maturity => Date.getFullYear tz maturity
              | None => option_map (fun y => y + 50) None
              end); injection H as <-; constructor.
Qed.

Lemma projection_never_loses_value_witness :
  initializeYearlyPerformance 540 (startDate bondAsset) (maturityDate bondAsset)
    (initialAmount bondAsset) (returns bondAsset)
  = Return (yearlyPerformance bondAsset) /\
  (0 <= initialAmount bondAsset)%Q /\
  (0 <= annualRate (capitalGain (returns bondAsset)))%Q /\
  (forall ig, incomeGain (returns bondAsset) = Some ig -> (0 <= dividendYield ig)%Q) /\
  Forall (fun p => 0 <= startValue p <= endValue p /\ 0 <= capitalGains p /\
                   0 <= totalDividends p) (yearlyPerformance bondAsset).
Proof.
  assert (H1 : initializeYearlyPerformance 540 (startDate bondAsset)
                 (maturityDate bondAsset) (initialAmount bondAsset)
                 (returns bondAsset) = Return (yearlyPerformance bondAsset))
    by (vm_compute; reflexivity).
  assert (H2 : (0 <= initialAmount bondAsset)%Q) by (vm_compute; discriminate).
  assert (H3 : (0 <= annualRate (capitalGain (returns bondAsset)))%Q)
    by (vm_compute; discriminate).
  assert (H4 : forall ig, incomeGain (returns bondAsset) = Some ig ->
                          (0 <= dividendYield ig)%Q).
  { intros ig [= <-]. vm_compute. discriminate. }
  split; [exact H1 |]. split; [exact H2 |]. split; [exact H3 |].
  split; [exact H4 |].
  exact (projection_never_loses_value 540 _ _ _ _ _ H1 H2 H3 H4).
Defined.

(** ** Updates of a stored asset *)

Lemma calculateYearPerformance_noActual (tz y : Z) (v : Q) (r : ReturnModel)
    (p : YearlyPerformance) :
  calculateYearPerformance tz y v r = Return p -> noActual p.
Proof.
  intros H. destruct r as [cg [[dy pf re] |]]; [| discriminate].
  apply calculateYearPerformance_record in H.
  destruct H as (_ & _ & _ & _ & _ & _ & H1 & H2 & H3 & H4).
  now repeat split.
Qed.

Lemma initializeYearlyPerformance_loop_noActual (tz : Z) (r : ReturnModel) (n : nat) :
  forall (y : Z) (cur : Q) (acc out : list YearlyPerformance),
    initializeYearlyPerformance_loop tz r n y cur acc = Return out ->
    exists ext, out = acc ++ ext /\ Forall noActual ext.
Proof.
  induction n as [| n IH]; intros y cur acc out H;
    cbn [initializeYearlyPerformance_loop] in H.
  - injection H as <-. exists []. rewrite app_nil_r. split; [reflexivity | constructor].
  - destruct (calculateYearPerformance tz y cur r) as [p |] eqn:Hp;
      cbn [bind] in H; [| discriminate].
    destruct (IH _ _ _ _ H) as (ext & -> & Hall).
    exists (p :: ext). rewrite <- app_assoc. split; [reflexivity |].
    constructor; [eapply calculateYearPerformance_noActual; eassumption | assumption].
Qed.

Lemma initializeYearlyPerformance_noActual (tz : Z) (s : Date.TimeValue)
    (m : option Date.TimeValue) (a : Q) (r : ReturnModel)
    (perf : list YearlyPerformance) :
  initializeYearlyPerformance tz s m a r = Return perf -> Forall noActual perf.
Proof.
  unfold initializeYearlyPerformance.
  destruct (Date.getFullYear tz s) as [sy |];
    [destruct (match m with
               | Some maturity => Date.getFullYear tz maturity
               | None => option_map (fun y => y + 50) (Some sy)
               end) as [ey |] |].
  - intros H. apply initializeYearlyPerformance_loop_noActual in H.
    destruct H as (ext & -> & Hall). exact Hall.
  - intros [= <-]. constructor.
  - destruct (match m with
              | Some maturity => Date.getFullYear tz maturity
              | None => option_map (fun y => y + 50) None
              end); intros [= <-]; constructor.
Qed.

Lemma mergeAsset_settings_withYearlyPerformance (a : Asset)
    (l : list YearlyPerformance) (data : AssetUpdate.t) :
  assetSettings (mergeAsset (withYearlyPerformance a l) data)
  = assetSettings (mergeAsset a data).
Proof. reflexivity. Qed.

(** X5: an edit that re-projects discards a reconciliation made before it:
    [updateAsset] with a payload that edits the principal, the returns or a
    date gives the same store whether or not [updateActualPerformance] ran
    first, and no record of the updated asset carries actual values. *)
Theorem reprojection_discards_actuals (tz : Z) (id : string)
    (data : AssetUpdate.t) (y : Z) (d : ActualData.t)
    (assets s' : gmap string Asset) :
  editsProjection data ->
  updateAsset tz id data assets = (Return tt, s') ->
  updateAsset tz id data (updateActualPerformance id y d assets) = (Return tt, s') /\
  forall asset', s' !! id = Some asset' -> Forall noActual (yearlyPerformance asset').
Proof.
  intros He Hu. apply affectsValuation_edits in He.
  destruct (assets !! id) as [old |] eqn:Ho.
  - unfold updateAsset in Hu. rewrite Ho, He in Hu.
    destruct (initializeYearlyPerformance tz (startDate (mergeAsset old data))
                (maturityDate (mergeAsset old data))
                (initialAmount (mergeAsset old data))
                (returns (mergeAsset old data))) as [perf |] eqn:E;
      [| discriminate].
    injection Hu as <-. split.
    + destruct (updateActualPerformance_cases id y d assets old Ho)
        as [[_ ->] | (k & _ & ->)].
      * unfold updateAsset. now rewrite Ho, He, E.
      * unfold updateAsset. rewrite lookup_insert_eq, He.
        change (initializeYearlyPerformance tz
                  (startDate (mergeAsset old data))
                  (maturityDate (mergeAsset old data))
                  (initialAmount (mergeAsset old data))
                  (returns (mergeAsset old data)))
          with (initializeYearlyPerformance tz
                  (startDate (mergeAsset (withYearlyPerformance old
                     (alter (withActual d) k (yearlyPerformance old))) data))
                  (maturityDate (mergeAsset (withYearlyPerformance old
                     (alter (withActual d) k (yearlyPerformance old))) data))
                  (initialAmount (mergeAsset (withYearlyPerformance old
                     (alter (withActual d) k (yearlyPerformance old))) data))
                  (returns (mergeAsset (withYearlyPerformance old
                     (alter (withActual d) k (yearlyPerformance old))) data))) in E.
        rewrite E. now rewrite insert_insert_eq.
    + intros asset'. rewrite lookup_insert_eq. intros [= <-].
      cbn [yearlyPerformance withYearlyPerformance].
      eapply initializeYearlyPerformance_noActual; eassumption.
  - unfold updateAsset in Hu. rewrite Ho in Hu. injection Hu as <-.
    rewrite (updateActualPerformance_unknown_id _ _ _ _ Ho).
    split; [unfold updateAsset; now rewrite Ho |].
    intros asset'. now rewrite Ho.
Qed.

Lemma reprojection_discards_actuals_witness :
  editsProjection newPrincipal /\
  updateAsset 540 "a1" newPrincipal bondStore
  = (Return tt, snd (updateAsset 540 "a1" newPrincipal bondStore)) /\
  (updateAsset 540 "a1" newPrincipal
     (updateActualPerformance "a1" 2025 bondActual bondStore)
   = (Return tt, snd (updateAsset 540 "a1" newPrincipal bondStore)) /\
   forall asset',
     snd (updateAsset 540 "a1" newPrincipal bondStore) !! "a1"%string = Some asset' ->
     Forall noActual (yearlyPerformance asset')).
Proof.
  assert (H1 : editsProjection newPrincipal) by (left; eexists; reflexivity).
  assert (H2 : updateAsset 540 "a1" newPrincipal bondStore
               = (Return tt, snd (updateAsset 540 "a1" newPrincipal bondStore)))
    by (vm_compute; reflexivity).
  split; [exact H1 |]. split; [exact H2 |].
  exact (reprojection_discards_actuals 540 "a1" newPrincipal 2025 bondActual
           bondStore _ H1 H2).
Defined.

Lemma mergeAsset_idempotent (a : Asset) (data : AssetUpdate.t) :
  assetSettings (mergeAsset (mergeAsset a data) data)
  = assetSettings (mergeAsset a data) /\
  (AssetUpdate.yearlyPerformance data = None \/
   is_Some (AssetUpdate.yearlyPerformance data) ->
   yearlyPerformance (mergeAsset (mergeAsset a data) data)
   = yearlyPerformance (mergeAsset a data)).
Proof.
  destruct data as [n i c s m r y], a as [aid an ai ac ass am ar ay].
  unfold assetSettings, mergeAsset; cbn.
  destruct n, i, c, s, m, r, y; cbn; split; auto.
Qed.

Lemma withYearlyPerformance_ext (a b : Asset) (l : list YearlyPerformance) :
  assetSettings a = assetSettings b ->
  withYearlyPerformance a l = withYearlyPerformance b l.
Proof.
  destruct a, b. unfold assetSettings, withYearlyPerformance; cbn.
  intros [= -> -> -> -> -> -> ->]. reflexivity.
Qed.

Lemma asset_ext (a b : Asset) :
  assetSettings a = assetSettings b ->
  yearlyPerformance a = yearlyPerformance b -> a = b.
Proof.
  destruct a, b. unfold assetSettings; cbn.
  intros [= -> -> -> -> -> -> ->] ->. reflexivity.
Qed.

Lemma projection_of_settings (tz : Z) (a b : Asset) :
  assetSettings a = assetSettings b ->
  initializeYearlyPerformance tz (startDate a) (maturityDate a)
    (initialAmount a) (returns a)
  = initializeYearlyPerformance tz (startDate b) (maturityDate b)
      (initialAmount b) (returns b).
Proof.
  destruct a, b. unfold assetSettings; cbn.
  intros [= -> -> -> -> -> -> ->]. reflexivity.
Qed.

(** X6: [updateAsset] is idempotent: applying the same payload a second
    time to the store the first application returned changes nothing. *)
Theorem updateAsset_idempotent (tz : Z) (id : string) (data : AssetUpdate.t)
    (assets s' : gmap string Asset) :
  updateAsset tz id data assets = (Return tt, s') ->
  updateAsset tz id data s' = (Return tt, s').
Proof.
  intros Hu. destruct (assets !! id) as [old |] eqn:Ho.
  - unfold updateAsset in Hu. rewrite Ho in Hu.
    destruct (mergeAsset_idempotent old data) as [Hset Hyp].
    destruct (affectsValuation data) eqn:Ha.
    + destruct (initializeYearlyPerformance tz (startDate (mergeAsset old data))
                  (maturityDate (mergeAsset old data))
                  (initialAmount (mergeAsset old data))
                  (returns (mergeAsset old data))) as [perf |] eqn:E;
        [| discriminate].
      injection Hu as <-. unfold updateAsset. rewrite lookup_insert_eq, Ha.
      assert (S2 : assetSettings (mergeAsset
                     (withYearlyPerformance (mergeAsset old data) perf) data)
                   = assetSettings (mergeAsset old data))
        by (rewrite mergeAsset_settings_withYearlyPerformance; exact Hset).
      rewrite (projection_of_settings tz _ _ S2), E.
      rewrite insert_insert_eq. f_equal. f_equal.
      now apply withYearlyPerformance_ext.
    + injection Hu as <-. unfold updateAsset. rewrite lookup_insert_eq, Ha.
      rewrite insert_insert_eq. f_equal. f_equal.
      apply asset_ext; [exact Hset |].
      apply Hyp. destruct (AssetUpdate.yearlyPerformance data); eauto.
  - unfold updateAsset in Hu. rewrite Ho in Hu. injection Hu as <-.
    unfold updateAsset. now rewrite Ho.
Qed.

Lemma updateAsset_idempotent_witness :
  updateAsset 540 "a1" newPrincipal bondStore
  = (Return tt, snd (updateAsset 540 "a1" newPrincipal bondStore)) /\
  updateAsset 540 "a1" newPrincipal (snd (updateAsset 540 "a1" newPrincipal bondStore))
  = (Return tt, snd (updateAsset 540 "a1" newPrincipal bondStore)).
Proof.
  assert (H : updateAsset 540 "a1" newPrincipal bondStore
              = (Return tt, snd (updateAsset 540 "a1" newPrincipal bondStore)))
    by (vm_compute; reflexivity).
  split; [exact H |].
  exact (updateAsset_idempotent 540 "a1" newPrincipal bondStore _ H).
Defined.

(** X7: [updateAsset] never adds or removes an asset and never touches an
    asset other than [id]; when it raises, and when [id] is unknown, the
    store is left as it was; a payload that edits neither the principal,
    the returns nor a date, and carries no [yearlyPerformance], leaves the
    asset's yearly records as they were. *)
Theorem updateAsset_frame (tz : Z) (id : string) (data : AssetUpdate.t)
    (assets : gmap string Asset) :
  let out := fst (updateAsset tz id data assets) in
  let s' := snd (updateAsset tz id data assets) in
  dom s' = dom assets /\
  (forall other, other <> id -> s' !! other = assets !! other) /\
  (isThrow out -> s' = assets) /\
  (assets !! id = None -> out = Return tt /\ s' = assets) /\
  (forall old, assets !! id = Some old ->
               affectsValuation data = false ->
               AssetUpdate.yearlyPerformance data = None ->
               exists new, s' !! id = Some new /\
                           yearlyPerformance new = yearlyPerformance old).
Proof.
  cbv zeta. unfold updateAsset.
  destruct (assets !! id) as [old |] eqn:Ho.
  - destruct (affectsValuation data) eqn:Ha.
    + destruct (initializeYearlyPerformance tz _ _ _ _) as [perf |];
        cbn [fst snd].
      * split; [apply dom_insert_lookup_L; eauto |].
        split; [intros other Hne; now rewrite lookup_insert_ne |].
        split; [intros [e He]; discriminate |].
        split; [discriminate | discriminate].
      * split; [reflexivity |]. split; [reflexivity |].
        split; [reflexivity |]. split; [discriminate | discriminate].
    + cbn [fst snd].
      split; [apply dom_insert_lookup_L; eauto |].
      split; [intros other Hne; now rewrite lookup_insert_ne |].
      split; [intros [e He]; discriminate |].
      split; [discriminate |].
      intros old' [= <-] _ Hy. eexists. split; [apply lookup_insert_eq |].
      cbn [yearlyPerformance mergeAsset]. now rewrite Hy.
  - cbn [fst snd]. split; [reflexivity |]. split; [reflexivity |].
    split; [reflexivity |]. split; [now split | discriminate].
Qed.

(** ** Reconciliation *)

Lemma findIndexFrom_alter {A : Type} (f : A -> bool) (g : A -> A) (k : nat)
    (l : list A) :
  (forall x, f (g x) = f x) ->
  forall i, findIndexFrom f (alter g k l) i = findIndexFrom f l i.
Proof.
  intros Hfg. revert k. induction l as [| a rest IH]; intros k i.
  - reflexivity.
  - destruct k as [| k]; cbn [alter list_alter findIndexFrom].
    + now rewrite Hfg.
    + destruct (f a); [reflexivity |]. apply IH.
Qed.

Lemma updateActualPerformance_unfold (id : string) (y : Z) (d : ActualData.t)
    (assets : gmap string Asset) (asset : Asset) :
  assets !! id = Some asset ->
  updateActualPerformance id y d assets
  = let k := findIndex (fun p => year p =? y) (yearlyPerformance asset) in
    if k =? -1 then assets
    else <[id := withYearlyPerformance asset
                   (alter (withActual d) (Z.to_nat k) (yearlyPerformance asset))]>
           assets.
Proof. intros H. unfold updateActualPerformance. now rewrite H. Qed.

Lemma findIndex_year_alter (y : Z) (d : ActualData.t) (k : nat)
    (l : list YearlyPerformance) :
  findIndex (fun p => year p =? y) (alter (withActual d) k l)
  = findIndex (fun p => year p =? y) l.
Proof. unfold findIndex. now apply findIndexFrom_alter. Qed.

(** X8: reconciling the same year again replaces the actual values (the
    last payload wins, so repeating a payload changes nothing), and
    reconciliations of two different years commute. *)
Theorem reconciliations_compose (id : string) (y1 y2 : Z)
    (d1 d2 : ActualData.t) (assets : gmap string Asset) :
  updateActualPerformance id y1 d2 (updateActualPerformance id y1 d1 assets)
  = updateActualPerformance id y1 d2 assets /\
  (y1 <> y2 ->
   updateActualPerformance id y2 d2 (updateActualPerformance id y1 d1 assets)
   = updateActualPerformance id y1 d1 (updateActualPerformance id y2 d2 assets)).
Proof.
  destruct (assets !! id) as [asset |] eqn:Ha.
  2:{ rewrite !(updateActualPerformance_unknown_id _ _ _ _ Ha). now split. }
  split.
  - rewrite (updateActualPerformance_unfold id y1 d1 assets asset Ha). cbv zeta.
    rewrite (updateActualPerformance_unfold id y1 d2 assets asset Ha). cbv zeta.
    destruct (findIndex (fun p => year p =? y1) (yearlyPerformance asset) =? -1) eqn:E.
    + rewrite (updateActualPerformance_unfold id y1 d2 assets asset Ha). cbv zeta.
      now rewrite E.
    + erewrite updateActualPerformance_unfold by apply lookup_insert_eq.
      cbv zeta. cbn [yearlyPerformance withYearlyPerformance].
      rewrite findIndex_year_alter, E, insert_insert_eq.
      rewrite list_alter_alter_eq. reflexivity.
  - intros Hne.
    rewrite (updateActualPerformance_unfold id y1 d1 assets asset Ha). cbv zeta.
    rewrite (updateActualPerformance_unfold id y2 d2 assets asset Ha). cbv zeta.
    set (k1 := findIndex (fun p => year p =? y1) (yearlyPerformance asset)).
    set (k2 := findIndex (fun p => year p =? y2) (yearlyPerformance asset)).
    destruct (k1 =? -1) eqn:E1; destruct (k2 =? -1) eqn:E2.
    + rewrite (updateActualPerformance_unfold id y2 d2 assets asset Ha). cbv zeta.
      fold k2. rewrite E2.
      rewrite (updateActualPerformance_unfold id y1 d1 assets asset Ha). cbv zeta.
      fold k1. now rewrite E1.
    + rewrite (updateActualPerformance_unfold id y2 d2 assets asset Ha). cbv zeta.
      fold k2. rewrite E2.
      erewrite updateActualPerformance_unfold by apply lookup_insert_eq.
      cbv zeta. cbn [yearlyPerformance withYearlyPerformance].
      rewrite findIndex_year_alter. fold k1. now rewrite E1.
    + rewrite (updateActualPerformance_unfold id y1 d1 assets asset Ha). cbv zeta.
      fold k1. rewrite E1.
      erewrite updateActualPerformance_unfold by apply lookup_insert_eq.
      cbv zeta. cbn [yearlyPerformance withYearlyPerformance].
      rewrite findIndex_year_alter. fold k2. now rewrite E2.
    + erewrite !updateActualPerformance_unfold by apply lookup_insert_eq.
      cbv zeta. cbn [yearlyPerformance withYearlyPerformance].
      rewrite !findIndex_year_alter. fold k1 k2. rewrite E1, E2.
      rewrite !insert_insert_eq. f_equal. f_equal.
      apply list_alter_alter_ne.
      (* the two positions hold records of different years *)
      intros Hk.
      destruct (findIndexFrom_spec (fun p => year p =? y1)
                  (yearlyPerformance asset) 0)
        as [[F1 _] | [(i1 & x1 & F1 & L1 & P1 & _) | ?]]; [| | lia].
      { unfold k1, findIndex in E1. rewrite F1 in E1. discriminate. }
      destruct (findIndexFrom_spec (fun p => year p =? y2)
                  (yearlyPerformance asset) 0)
        as [[F2 _] | [(i2 & x2 & F2 & L2 & P2 & _) | ?]]; [| | lia].
      { unfold k2, findIndex in E2. rewrite F2 in E2. discriminate. }
      unfold k1, k2, findIndex in Hk. rewrite F1, F2 in Hk.
      assert (i1 = i2) by lia. subst i2.
      rewrite L1 in L2. injection L2 as <-.
      apply Z.eqb_eq in P1, P2. congruence.
Qed.

Lemma chainedFrom_alter_withActual (d : ActualData.t) (k : nat)
    (l : list YearlyPerformance) :
  forall v, chainedFrom v l -> chainedFrom v (alter (withActual d) k l).
Proof.
  revert k. induction l as [| p rest IH]; intros k v Hc; [exact Hc |].
  destruct Hc as [Hs Hr]. destruct k as [| k]; cbn [alter list_alter chainedFrom].
  - split; assumption.
  - split; [assumption | now apply IH].
Qed.

Lemma map_year_alter_withActual (d : ActualData.t) (k : nat)
    (l : list YearlyPerformance) :
  map year (alter (withActual d) k l) = map year l.
Proof.
  revert k. induction l as [| p rest IH]; intros k; [reflexivity |].
  destruct k as [| k]; cbn [alter list_alter map]; [reflexivity |].
  now rewrite IH.
Qed.

(** X9: a reconciliation keeps the projection's shape: the asset's records
    keep their years and stay chained, each starting at the end value of
    the record before it. *)
Theorem reconciliation_keeps_chain (id : string) (y : Z) (d : ActualData.t)
    (assets : gmap string Asset) (asset : Asset) (v : Z) :
  assets !! id = Some asset ->
  chainedFrom v (yearlyPerformance asset) ->
  exists asset',
    updateActualPerformance id y d assets !! id = Some asset' /\
    map year (yearlyPerformance asset') = map year (yearlyPerformance asset) /\
    chainedFrom v (yearlyPerformance asset').
Proof.
  intros Ha Hc.
  destruct (updateActualPerformance_cases id y d assets asset Ha)
    as [[_ ->] | (k & _ & ->)].
  - exists asset. now repeat split.
  - eexists. split; [apply lookup_insert_eq |].
    cbn [yearlyPerformance withYearlyPerformance].
    split; [apply map_year_alter_withActual | now apply chainedFrom_alter_withActual].
Qed.

Lemma reconciliation_keeps_chain_witness :
  bondStore !! "a1"%string = Some bondAsset /\
  chainedFrom 100000 (yearlyPerformance bondAsset) /\
  exists asset',
    updateActualPerformance "a1" 2025 bondActual bondStore !! "a1"%string
    = Some asset' /\
    map year (yearlyPerformance asset') = map year (yearlyPerformance bondAsset) /\
    chainedFrom 100000 (yearlyPerformance asset').
Proof.
  assert (H1 : bondStore !! "a1"%string = Some bondAsset) by reflexivity.
  assert (H2 : chainedFrom 100000 (yearlyPerformance bondAsset))
    by (cbn; repeat split).
  split; [exact H1 |]. split; [exact H2 |].
  exact (reconciliation_keeps_chain "a1" 2025 bondActual bondStore bondAsset
           100000 H1 H2).
Defined.

(** ** Deleting an asset *)

(** X10: once [deleteAsset(id)] ran, the asset is gone for every operation:
    a lookup finds nothing, [updateAsset] and [updateActualPerformance] on
    that id change nothing, the simulation returns [null], deleting again
    changes nothing; the other assets are untouched. *)
Theorem deleted_asset_is_gone (Math_exp : Q -> Q) (normalRandom : nat -> Q)
    (tz : Z) (id : string) (data : AssetUpdate.t) (y : Z) (d : ActualData.t)
    (years : Z) (iterations : option Z) (assets : gmap string Asset) (k : nat) :
  let s := deleteAsset id assets in
  s !! id = None /\
  (forall other, other <> id -> s !! other = assets !! other) /\
  updateAsset tz id data s = (Return tt, s) /\
  updateActualPerformance id y d s = s /\
  runMonteCarloSimulation Math_exp normalRandom id years iterations s k
  = (Return None, s, k) /\
  deleteAsset id s = s.
Proof.
  cbv zeta. unfold deleteAsset.
  assert (H : delete id assets !! id = None) by apply lookup_delete_eq.
  split; [exact H |].
  split; [intros other Hne; now apply lookup_delete_ne |].
  split; [unfold updateAsset; now rewrite H |].
  split; [now apply updateActualPerformance_unknown_id |].
  split; [unfold runMonteCarloSimulation; now rewrite H |].
  now apply delete_id.
Qed.

(** X11: creating an asset under a fresh id and deleting it again restores
    the store. *)
Theorem create_then_delete (tz : Z) (id : string) (data : AssetData.t)
    (assets s' : gmap string Asset) :
  assets !! id = None ->
  createAsset tz id data assets = (Return id, s') ->
  is_Some (s' !! id) /\ deleteAsset id s' = assets.
Proof.
  intros Hfresh Hc. unfold createAsset in Hc.
  destruct (initializeYearlyPerformance tz _ _ _ _) as [perf |]; [| discriminate].
  injection Hc as <-. split.
  - rewrite lookup_insert_eq. eauto.
  - unfold deleteAsset. rewrite delete_insert_eq. now apply delete_id.
Qed.

Lemma create_then_delete_witness :
  (∅ : gmap string Asset) !! "a1"%string = None /\
  createAsset 540 "a1" bondData ∅ = (Return "a1"%string, bondStore) /\
  is_Some (bondStore !! "a1"%string) /\ deleteAsset "a1" bondStore = ∅.
Proof.
  assert (H1 : (∅ : gmap string Asset) !! "a1"%string = None) by reflexivity.
  assert (H2 : createAsset 540 "a1" bondData ∅ = (Return "a1"%string, bondStore))
    by (vm_compute; reflexivity).
  split; [exact H1 |]. split; [exact H2 |].
  exact (create_then_delete 540 "a1" bondData ∅ bondStore H1 H2).
Defined.

(** ** The shape of a simulation *)

Section SimulationShape.

Variable Math_exp : Q -> Q.
Variable normalRandom : nat -> Q.

Lemma simulatePath_shape (a vol : Q) (n : nat) :
  forall (k : nat) (value : Q) (path : list Q),
    exists ext,
      simulatePath Math_exp normalRandom a vol n k value path
      = (path ++ ext, (k + n)%nat) /\ length ext = n.
Proof.
  induction n as [| n IH]; intros k value path; cbn [simulatePath].
  - exists []. rewrite app_nil_r, Nat.add_0_r. now split.
  - destruct (IH (S k)
                (value * (1 + (Math_exp (a - 0.5 * vol * vol + vol * normalRandom k) - 1)))%Q
                (path ++ [(value * (1 + (Math_exp (a - 0.5 * vol * vol
                                                   + vol * normalRandom k) - 1)))%Q]))
      as (ext & E & Hlen).
    eexists (_ :: ext). rewrite E, <- app_assoc. split.
    + cbn [app]. f_equal. lia.
    + cbn. now rewrite Hlen.
Qed.

Lemma simulatePaths_shape (asset : Asset) (vol : Q) (years : Z) (n : nat) :
  forall (k : nat) (results : list (list Q)),
    exists ext,
      simulatePaths Math_exp normalRandom asset vol years n k results
      = (results ++ ext, (k + n * Z.to_nat years)%nat) /\
      length ext = n /\
      Forall (fun path => length path = S (Z.to_nat years) /\
                          head path = Some (initialAmount asset)) ext.
Proof.
  induction n as [| n IH]; intros k results; cbn [simulatePaths].
  - exists []. rewrite app_nil_r. split; [f_equal; lia |]. split; [reflexivity | constructor].
  - destruct (simulatePath_shape (annualRate (capitalGain (returns asset))) vol
                (Z.to_nat years) k (initialAmount asset) [initialAmount asset])
      as (p & -> & Hp).
    destruct (IH (k + Z.to_nat years)%nat
                (results ++ [[initialAmount asset] ++ p]))
      as (ext & -> & Hlen & Hall).
    exists (([initialAmount asset] ++ p) :: ext). rewrite <- app_assoc.
    split; [cbn [app]; f_equal; lia |].
    split; [cbn; now rewrite Hlen |].
    constructor; [| assumption]. cbn. now rewrite Hp.
Qed.

End SimulationShape.

(** X12: for a stored asset, the simulation returns as many paths as
    [iterations] (none when it is not positive), each of [years + 1] values
    beginning with the principal, and calls [normalRandom] exactly
    [iterations * years] times; the store is not written. *)
Theorem simulation_shape (Math_exp : Q -> Q) (normalRandom : nat -> Q)
    (assetId : string) (years : Z) (iterations : option Z)
    (assets : gmap string Asset) (asset : Asset) (k : nat) :
  assets !! assetId = Some asset ->
  let n := Z.to_nat (default 1000 iterations) in
  exists result,
    runMonteCarloSimulation Math_exp normalRandom assetId years iterations assets k
    = (Return (Some result), assets, (k + n * Z.to_nat years)%nat) /\
    length (paths result) = n /\
    Forall (fun path => length path = S (Z.to_nat years) /\
                        head path = Some (initialAmount asset)) (paths result).
Proof.
  intros Ha n. unfold runMonteCarloSimulation. rewrite Ha. fold n.
  destruct (simulatePaths_shape Math_exp normalRandom asset 0.15 years n k [])
    as (ext & -> & Hlen & Hall).
  eexists. split; [reflexivity |]. cbn [paths app]. now split.
Qed.

Lemma simulation_shape_witness :
  bondStore !! "a1"%string = Some bondAsset /\
  (let n := Z.to_nat (default 1000 (Some 3)) in
   exists result,
     runMonteCarloSimulation idleExp idleNormal "a1" 2 (Some 3) bondStore 0
     = (Return (Some result), bondStore, (0 + n * Z.to_nat 2)%nat) /\
     length (paths result) = n /\
     Forall (fun path => length path = S (Z.to_nat 2) /\
                         head path = Some (initialAmount bondAsset))
       (paths result)).
Proof.
  split; [reflexivity |].
  apply (simulation_shape idleExp idleNormal "a1" 2 (Some 3) bondStore bondAsset 0).
  reflexivity.
Defined.

(** ** Sorting and the order of the percentiles *)

Lemma insertAscending_elem (x v : Q) (l : list Q) :
  v ∈ insertAscending x l <-> v = x \/ v ∈ l.
Proof.
  induction l as [| y rest IH]; cbn [insertAscending].
  - rewrite list_elem_of_singleton. split; [auto | intros [H | H]; [assumption |]].
    now apply not_elem_of_nil in H.
  - destruct (Qle_bool x y).
    + now rewrite elem_of_cons.
    + rewrite !elem_of_cons, IH. tauto.
Qed.

Lemma sortAscending_elem (v : Q) (l : list Q) :
  v ∈ sortAscending l <-> v ∈ l.
Proof.
  induction l as [| y rest IH]; cbn [sortAscending]; [reflexivity |].
  rewrite insertAscending_elem, elem_of_cons, IH. reflexivity.
Qed.

Lemma insertAscending_length (x : Q) (l : list Q) :
  length (insertAscending x l) = S (length l).
Proof.
  induction l as [| y rest IH]; cbn [insertAscending]; [reflexivity |].
  destruct (Qle_bool x y); cbn; [reflexivity | now rewrite IH].
Qed.

Lemma sortAscending_length (l : list Q) :
  length (sortAscending l) = length l.
Proof.
  induction l as [| y rest IH]; cbn [sortAscending]; [reflexivity |].
  rewrite insertAscending_length. cbn. now rewrite IH.
Qed.

Lemma insertAscending_sorted (x : Q) (l : list Q) :
  StronglySorted Qle l -> StronglySorted Qle (insertAscending x l).
Proof.
  induction l as [| y rest IH]; intros Hs; cbn [insertAscending].
  - repeat constructor.
  - apply StronglySorted_cons in Hs. destruct Hs as [Hall Hrest].
    destruct (Qle_bool x y) eqn:E.
    + apply Qle_bool_iff in E. apply StronglySorted_cons. split.
      * constructor; [assumption |].
        eapply Forall_impl; [exact Hall |]. cbn. intros z Hz.
        eapply Qle_trans; eassumption.
      * apply StronglySorted_cons. now split.
    + assert (Hyx : (y <= x)%Q).
      { destruct (Qlt_le_dec y x) as [H | H]; [now apply Qlt_le_weak |].
        apply Qle_bool_iff in H. congruence. }
      apply StronglySorted_cons. split; [| now apply IH].
      apply Forall_forall. intros z Hz. apply insertAscending_elem in Hz.
      destruct Hz as [-> | Hz]; [assumption |].
      rewrite Forall_forall in Hall. now apply Hall.
Qed.

Lemma sortAscending_sorted (l : list Q) : StronglySorted Qle (sortAscending l).
Proof.
  induction l as [| y rest IH]; cbn [sortAscending]; [constructor |].
  now apply insertAscending_sorted.
Qed.

Lemma sorted_lookup_le (l : list Q) :
  StronglySorted Qle l ->
  forall (i j : nat) a b,
    (i <= j)%nat -> l !! i = Some a -> l !! j = Some b -> (a <= b)%Q.
Proof.
  induction l as [| y rest IH]; intros Hs i j a b Hij Ha Hb; [discriminate |].
  apply StronglySorted_cons in Hs. destruct Hs as [Hall Hrest].
  destruct i as [| i], j as [| j]; cbn in Ha, Hb.
  - injection Ha as <-. injection Hb as <-. apply Qle_refl.
  - injection Ha as <-. rewrite Forall_forall in Hall. apply Hall.
    eapply list_elem_of_lookup_2; eassumption.
  - lia.
  - eapply (IH Hrest i j); [lia | eassumption ..].
Qed.

(** X13: for a stored asset and at least one iteration, the three
    percentiles are defined and ordered, [worstCase <= expected <=
    bestCase], and each of them is the final value of one of the returned
    paths. *)
Theorem percentiles_ordered (Math_exp : Q -> Q) (normalRandom : nat -> Q)
    (assetId : string) (years : Z) (iterations : option Z)
    (assets : gmap string Asset) (asset : Asset) (k : nat) :
  assets !! assetId = Some asset ->
  0 < default 1000 iterations ->
  exists result w e b,
    fst (fst (runMonteCarloSimulation Math_exp normalRandom assetId years
                iterations assets k)) = Return (Some result) /\
    worstCase result = Some w /\ expected result = Some e /\
    bestCase result = Some b /\
    (w <= e)%Q /\ (e <= b)%Q /\
    Forall (fun v => exists path, path ∈ paths result /\ v = List.last path 0%Q)
      [w; e; b].
Proof.
  intros Ha Hn. unfold runMonteCarloSimulation. rewrite Ha.
  destruct (simulatePaths_shape Math_exp normalRandom asset 0.15 years
              (Z.to_nat (default 1000 iterations)) k [])
    as (ext & -> & Hlen & _).
  cbn [app fst]. set (finals := map (fun path => List.last path 0%Q) ext).
  assert (Hne : sortAscending finals <> []).
  { intros E. apply (f_equal length) in E.
    rewrite sortAscending_length in E. subst finals.
    rewrite length_map, Hlen in E. cbn in E. lia. }
  destruct (getPercentile_in_bounds (sortAscending finals) 0.05
              ltac:(right; right; reflexivity) Hne)
    as (iw & w & Fw & _ & Lw & Gw).
  destruct (getPercentile_in_bounds (sortAscending finals) 0.5
              ltac:(right; left; reflexivity) Hne)
    as (ie & e & Fe & _ & Le & Ge).
  destruct (getPercentile_in_bounds (sortAscending finals) 0.95
              ltac:(left; reflexivity) Hne)
    as (ib & b & Fb & _ & Lb & Gb).
  set (len := inject_Z (Z.of_nat (length (sortAscending finals)))) in *.
  assert (Hlen0 : (0 <= len)%Q) by (subst len; rewrite <- (Zle_Qle 0); lia).
  assert (Hwe : (iw <= ie)%nat).
  { apply Nat2Z.inj_le. rewrite <- Fw, <- Fe. apply Qfloor_resp_le.
    rewrite !(Qmult_comm len). apply Qmult_le_compat_r; [discriminate | assumption]. }
  assert (Heb : (ie <= ib)%nat).
  { apply Nat2Z.inj_le. rewrite <- Fe, <- Fb. apply Qfloor_resp_le.
    rewrite !(Qmult_comm len). apply Qmult_le_compat_r; [discriminate | assumption]. }
  pose proof (sortAscending_sorted finals) as Hsorted.
  exists {| bestCase := getPercentile (sortAscending finals) 0.95;
            expected := getPercentile (sortAscending finals) 0.5;
            worstCase := getPercentile (sortAscending finals) 0.05;
            paths := ext |}, w, e, b.
  cbn [worstCase expected bestCase paths].
  split; [reflexivity |]. split; [assumption |]. split; [assumption |].
  split; [assumption |].
  split; [eapply (sorted_lookup_le _ Hsorted iw ie); eassumption |].
  split; [eapply (sorted_lookup_le _ Hsorted ie ib); eassumption |].
  assert (Hfinal : forall (i : nat) v, sortAscending finals !! i = Some v ->
                     exists path, path ∈ ext /\ v = List.last path 0%Q).
  { intros i v Hv. apply list_elem_of_lookup_2 in Hv.
    apply (proj1 (sortAscending_elem _ _)) in Hv. subst finals.
    apply list_elem_of_In, in_map_iff in Hv. destruct Hv as (path & <- & Hin).
    exists path. split; [now apply list_elem_of_In | reflexivity]. }
  repeat constructor; eapply Hfinal; eassumption.
Qed.

Lemma percentiles_ordered_witness :
  bondStore !! "a1"%string = Some bondAsset /\
  0 < default 1000 (Some 3) /\
  exists result w e b,
    fst (fst (runMonteCarloSimulation idleExp idleNormal "a1" 2 (Some 3)
                bondStore 0)) = Return (Some result) /\
    worstCase result = Some w /\ expected result = Some e /\
    bestCase result = Some b /\
    (w <= e)%Q /\ (e <= b)%Q /\
    Forall (fun v => exists path, path ∈ paths result /\ v = List.last path 0%Q)
      [w; e; b].
Proof.
  split; [reflexivity |]. split; [reflexivity |].
  apply (percentiles_ordered idleExp idleNormal "a1" 2 (Some 3) bondStore bondAsset 0);
    reflexivity.
Defined.

(** ** The ordered Map *)

Module JsMapFacts.
Section Facts.

Context {V : Type}.
Implicit Types (m : list (string * V)) (k : string) (v : V).

Lemma get_set k k' v m :
  JsMap.get k (JsMap.set k' v m) = if decide (k = k') then Some v else JsMap.get k m.
Proof.
  induction m as [| [k0 v0] rest IH]; cbn [JsMap.set JsMap.get].
  - destruct (String.eqb_spec k' k) as [-> | Hne].
    + now rewrite decide_True.
    + rewrite decide_False by congruence. reflexivity.
  - destruct (String.eqb_spec k0 k') as [-> | Hne]; cbn [JsMap.get].
    + destruct (String.eqb_spec k' k) as [-> | Hne'].
      * now rewrite decide_True.
      * rewrite decide_False by congruence. reflexivity.
    + destruct (String.eqb_spec k0 k) as [-> | Hne'].
      * rewrite decide_False by congruence. reflexivity.
      * exact IH.
Qed.

Lemma set_fresh k v m :
  k ∉ JsMap.keys m -> JsMap.set k v m = m ++ [(k, v)].
Proof.
  induction m as [| [k0 v0] rest IH]; intros Hk; cbn [JsMap.set]; [reflexivity |].
  cbn [JsMap.keys map fst] in Hk. apply not_elem_of_cons in Hk.
  destruct Hk as [Hne Hrest].
  destruct (String.eqb_spec k0 k) as [-> | _]; [congruence |].
  cbn [app]. f_equal. now apply IH.
Qed.

Lemma keys_set_known k v m :
  k ∈ JsMap.keys m -> JsMap.keys (JsMap.set k v m) = JsMap.keys m.
Proof.
  induction m as [| [k0 v0] rest IH]; intros Hk; cbn [JsMap.set].
  - now apply not_elem_of_nil in Hk.
  - destruct (String.eqb_spec k0 k) as [-> | Hne]; [reflexivity |].
    cbn [JsMap.keys map fst] in *. apply elem_of_cons in Hk.
    destruct Hk as [-> | Hk]; [congruence |].
    f_equal. now apply IH.
Qed.

Lemma NoDup_keys_set k v m :
  NoDup (JsMap.keys m) -> NoDup (JsMap.keys (JsMap.set k v m)).
Proof.
  intros Hnd. destruct (decide (k ∈ JsMap.keys m)) as [Hin | Hout].
  - now rewrite keys_set_known.
  - rewrite set_fresh by assumption. unfold JsMap.keys. rewrite map_app.
    apply NoDup_app. split; [assumption |]. split.
    + intros x Hx Hx'. cbn in Hx'. apply list_elem_of_singleton in Hx'. now subst.
    + cbn. apply NoDup_singleton.
Qed.

Lemma view_lookup k m : JsMap.view m !! k = JsMap.get k m.
Proof.
  unfold JsMap.view. induction m as [| [k0 v0] rest IH]; cbn [list_to_map foldr JsMap.get].
  - apply lookup_empty.
  - cbn. destruct (String.eqb_spec k0 k) as [-> | Hne].
    + apply lookup_insert_eq.
    + rewrite lookup_insert_ne by assumption. exact IH.
Qed.

Lemma view_set k v m : JsMap.view (JsMap.set k v m) = <[k := v]> (JsMap.view m).
Proof.
  apply map_eq. intros j. rewrite view_lookup, get_set.
  destruct (decide (j = k)) as [-> | Hne].
  - now rewrite lookup_insert_eq.
  - rewrite lookup_insert_ne by congruence. now rewrite view_lookup.
Qed.

Lemma get_values k v m : JsMap.get k m = Some v -> v ∈ JsMap.values m.
Proof.
  induction m as [| [k0 v0] rest IH]; cbn [JsMap.get JsMap.values map snd];
    [discriminate |].
  destruct (String.eqb k0 k).
  - intros [= ->]. apply list_elem_of_here.
  - intros H. apply list_elem_of_further. now apply IH.
Qed.

Lemma set_get_id k v m : JsMap.get k m = Some v -> JsMap.set k v m = m.
Proof.
  induction m as [| [k0 v0] rest IH]; cbn [JsMap.get JsMap.set]; [discriminate |].
  destruct (String.eqb_spec k0 k) as [-> | Hne].
  - now intros [= ->].
  - intros H. f_equal. now apply IH.
Qed.

Lemma set_set k v v' m :
  JsMap.set k v (JsMap.set k v' m) = JsMap.set k v m.
Proof.
  induction m as [| [k0 v0] rest IH]; cbn [JsMap.set].
  - now rewrite String.eqb_refl.
  - destruct (String.eqb_spec k0 k) as [-> | Hne]; cbn [JsMap.set].
    + now rewrite String.eqb_refl.
    + destruct (String.eqb_spec k0 k); [congruence |]. f_equal. exact IH.
Qed.

Lemma get_keys k v m : JsMap.get k m = Some v -> k ∈ JsMap.keys m.
Proof.
  induction m as [| [k0 v0] rest IH]; cbn [JsMap.get JsMap.keys map fst];
    [discriminate |].
  destruct (String.eqb_spec k0 k) as [-> | Hne].
  - intros _. apply list_elem_of_here.
  - intros H. apply list_elem_of_further. now apply IH.
Qed.

Lemma Forall_set (P : string * V -> Prop) k v m :
  Forall P m -> P (k, v) -> Forall P (JsMap.set k v m).
Proof.
  intros Hm Hk. induction m as [| [k0 v0] rest IH]; cbn [JsMap.set].
  - now repeat constructor.
  - apply Forall_cons in Hm. destruct Hm as [H0 Hrest].
    destruct (String.eqb k0 k); constructor; auto.
Qed.

Lemma Forall_delete (P : string * V -> Prop) k m :
  Forall P m -> Forall P (JsMap.delete k m).
Proof.
  intros Hm. induction m as [| [k0 v0] rest IH]; cbn [JsMap.delete]; [constructor |].
  apply Forall_cons in Hm. destruct Hm as [H0 Hrest].
  destruct (String.eqb k0 k); [assumption | constructor; auto].
Qed.

Lemma get_Forall (P : string * V -> Prop) k v m :
  Forall P m -> JsMap.get k m = Some v -> exists k', P (k', v).
Proof.
  intros Hm. induction m as [| [k0 v0] rest IH]; cbn [JsMap.get]; [discriminate |].
  apply Forall_cons in Hm. destruct Hm as [H0 Hrest].
  destruct (String.eqb k0 k).
  - intros [= <-]. eauto.
  - now apply IH.
Qed.

End Facts.
End JsMapFacts.

(** ** serialize and hydrate *)

Lemma hydrate_snoc (data : list Asset) (a : Asset) (old : list (string * Asset)) :
  hydrate (data ++ [a]) old = JsMap.set (id a) a (hydrate data old).
Proof. unfold hydrate. now rewrite fold_left_app. Qed.

Lemma hydrate_keys_subset (data : list Asset) (old : list (string * Asset)) :
  forall k, k ∈ JsMap.keys (hydrate data old) -> k ∈ map id data.
Proof.
  induction data as [| a data IH] using rev_ind; intros k Hk.
  - cbn in Hk. now apply not_elem_of_nil in Hk.
  - rewrite hydrate_snoc in Hk. rewrite map_app, elem_of_app. cbn [map].
    destruct (decide (id a ∈ JsMap.keys (hydrate data old))) as [Hin | Hout].
    + rewrite JsMapFacts.keys_set_known in Hk by assumption. left. now apply IH.
    + rewrite JsMapFacts.set_fresh in Hk by assumption.
      unfold JsMap.keys in Hk. rewrite map_app, elem_of_app in Hk.
      destruct Hk as [Hk | Hk]; [left; now apply IH | right; exact Hk].
Qed.

Lemma hydrate_distinct (data : list Asset) (old : list (string * Asset)) :
  NoDup (map id data) ->
  hydrate data old = map (fun a => (id a, a)) data.
Proof.
  induction data as [| a data IH] using rev_ind; intros Hnd; [reflexivity |].
  rewrite map_app in Hnd. apply NoDup_app in Hnd.
  destruct Hnd as (Hnd & Hdisj & _).
  rewrite hydrate_snoc, map_app. cbn [map].
  rewrite JsMapFacts.set_fresh.
  - now rewrite IH.
  - intros Hin. apply hydrate_keys_subset in Hin.
    apply (Hdisj (id a)); [assumption |]. cbn. apply list_elem_of_here.
Qed.

Lemma keyed_entries (m : list (string * Asset)) :
  keyedById m -> m = map (fun a => (id a, a)) (serialize m) /\
                 JsMap.keys m = map id (serialize m).
Proof.
  unfold keyedById, serialize, JsMap.values, JsMap.keys.
  induction m as [| [k a] rest IH]; intros H; [now split |].
  apply Forall_cons in H. destruct H as [Hk Hrest]. cbn in Hk. subst k.
  destruct (IH Hrest) as [E1 E2]. cbn [map fst snd]. split; congruence.
Qed.

(** X14: saving and restoring is a round trip: for a map whose entries are
    stored under the ids of their assets, [hydrate(serialize())] rebuilds
    the same entries in the same order, whatever the map held before. *)
Theorem hydrate_serialize_round_trip (assets old : list (string * Asset)) :
  NoDup (JsMap.keys assets) -> keyedById assets ->
  hydrate (serialize assets) old = assets /\
  serialize (hydrate (serialize assets) old) = serialize assets.
Proof.
  intros Hnd Hk. destruct (keyed_entries assets Hk) as [E1 E2].
  assert (H : hydrate (serialize assets) old = assets).
  { rewrite hydrate_distinct by (rewrite <- E2; exact Hnd). now rewrite <- E1. }
  split; [exact H | now rewrite H].
Qed.

Lemma hydrate_serialize_round_trip_witness :
  NoDup (JsMap.keys twoAssets) /\ keyedById twoAssets /\
  hydrate (serialize twoAssets) [("zz"%string, noAsset)] = twoAssets /\
  serialize (hydrate (serialize twoAssets) [("zz"%string, noAsset)])
  = serialize twoAssets.
Proof.
  assert (H1 : NoDup (JsMap.keys twoAssets)).
  { cbn. apply NoDup_cons. split.
    - intros H. apply list_elem_of_singleton in H. discriminate.
    - apply NoDup_singleton. }
  assert (H2 : keyedById twoAssets) by (repeat constructor).
  split; [exact H1 |]. split; [exact H2 |].
  exact (hydrate_serialize_round_trip twoAssets [("zz"%string, noAsset)] H1 H2).
Defined.

(** X15: whatever the data, [hydrate] drops the former content and leaves a
    map with distinct keys, every asset stored under its own id; when two
    assets of the data share an id the later one is kept. *)
Theorem hydrate_result (data : list Asset) (old : list (string * Asset)) :
  hydrate data old = hydrate data [] /\
  NoDup (JsMap.keys (hydrate data old)) /\
  keyedById (hydrate data old) /\
  forall k, JsMap.get k (hydrate data old)
            = last (filter (fun a => id a = k) data).
Proof.
  split; [reflexivity |].
  induction data as [| a data IH] using rev_ind.
  - split; [constructor |]. split; [constructor | reflexivity].
  - destruct IH as (Hnd & Hk & Hget). rewrite hydrate_snoc.
    split; [now apply JsMapFacts.NoDup_keys_set |]. split.
    + destruct (decide (id a ∈ JsMap.keys (hydrate data old))) as [Hin | Hout].
      * clear Hget Hnd. revert Hk Hin. generalize (hydrate data old) as m.
        induction m as [| [k0 a0] rest IHm]; intros Hk Hin.
        -- now apply not_elem_of_nil in Hin.
        -- apply Forall_cons in Hk. destruct Hk as [Hk0 Hrest].
           cbn [JsMap.set]. destruct (String.eqb_spec k0 (id a)) as [-> | Hne].
           ++ constructor; [reflexivity | assumption].
           ++ constructor; [assumption |]. apply IHm; [assumption |].
              cbn [JsMap.keys map fst] in Hin. apply elem_of_cons in Hin.
              destruct Hin as [E | Hin]; [congruence | assumption].
      * rewrite JsMapFacts.set_fresh by assumption.
        apply Forall_app. split; [assumption |]. now repeat constructor.
    + intros k. rewrite JsMapFacts.get_set, filter_app, Hget.
      cbn [filter list_filter]. destruct (decide (id a = k)) as [E | E].
      * rewrite decide_True by congruence. now rewrite last_snoc.
      * rewrite decide_False by congruence. now rewrite app_nil_r.
Qed.

(** ** totalAssetValue *)

Lemma Array_get_last {A : Type} (l : list A) :
  Array_get l (Z.of_nat (length l) - 1) = last l.
Proof.
  unfold Array_get. destruct l as [| x rest] using rev_ind.
  - reflexivity.
  - rewrite length_app, last_snoc. cbn [length].
    destruct (Z.ltb_spec (Z.of_nat (length rest + 1) - 1) 0); [lia |].
    replace (Z.to_nat (Z.of_nat (length rest + 1) - 1)) with (length rest) by lia.
    rewrite lookup_app_r by lia. now rewrite Nat.sub_diag.
Qed.

Lemma totalAssetValue_reduce_spec (assets : list Asset) :
  forall total,
    (Forall (fun a => yearlyPerformance a <> []) assets ->
     exists result,
       totalAssetValue_reduce assets total = Return result /\
       (result == total + sumQ (map countedValue assets))%Q) /\
    (Exists (fun a => yearlyPerformance a = []) assets ->
     totalAssetValue_reduce assets total = Throw TypeError).
Proof.
  induction assets as [| a rest IH]; intros total; cbn [totalAssetValue_reduce].
  - split.
    + intros _. exists total. split; [reflexivity |]. cbn. lra.
    + intros H. inversion H.
  - rewrite Array_get_last.
    destruct (last (yearlyPerformance a)) as [p |] eqn:Hl.
    + destruct (IH (total + latestValue p)%Q) as [IH1 IH2]. split.
      * intros H. apply Forall_cons in H. destruct H as [_ Hrest].
        destruct (IH1 Hrest) as (result & -> & E).
        exists result. split; [reflexivity |].
        change (sumQ (map countedValue (a :: rest)))
          with (countedValue a + sumQ (map countedValue rest))%Q.
        unfold countedValue at 1. rewrite Hl, E. unfold latestValue. ring.
      * intros H. apply Exists_cons in H. destruct H as [E | H]; [| now apply IH2].
        rewrite E in Hl. discriminate.
    + split; [| reflexivity].
      intros H. apply Forall_cons in H. destruct H as [Hne _].
      apply last_None in Hl. contradiction.
Qed.

Lemma rounded_reduce_spec (ops : Number.Arithmetic) (assets : list Asset) :
  forall total,
    (Forall (fun a => yearlyPerformance a <> []) assets ->
     Rounded.totalAssetValue_reduce ops assets total
     = Return (fold_left (fun sum a => Number.add ops sum (countedValue a))
                 assets total)) /\
    (Exists (fun a => yearlyPerformance a = []) assets ->
     Rounded.totalAssetValue_reduce ops assets total = Throw TypeError).
Proof.
  induction assets as [| a rest IH]; intros total;
    cbn [Rounded.totalAssetValue_reduce fold_left].
  - split; [reflexivity |]. intros H. inversion H.
  - rewrite Array_get_last.
    destruct (last (yearlyPerformance a)) as [p |] eqn:Hl.
    + assert (Hc : countedValue a = latestValue p)
        by (unfold countedValue, latestValue; now rewrite Hl).
      destruct (IH (Number.add ops total (latestValue p))) as [IH1 IH2]. split.
      * intros H. apply Forall_cons in H. destruct H as [_ Hrest].
        rewrite Hc. exact (IH1 Hrest).
      * intros H. apply Exists_cons in H. destruct H as [E | H]; [| now apply IH2].
        rewrite E in Hl. discriminate.
    + split; [| reflexivity].
      intros H. apply Forall_cons in H. destruct H as [Hne _].
      apply last_None in Hl. contradiction.
Qed.

Lemma totalAssetValue_exact (assets : list (string * Asset)) :
  Rounded.totalAssetValue Number.exact assets = totalAssetValue assets.
Proof.
  unfold Rounded.totalAssetValue, totalAssetValue.
  generalize 0%Q. induction (JsMap.values assets) as [| a rest IH]; intros total;
    cbn [Rounded.totalAssetValue_reduce totalAssetValue_reduce]; [reflexivity |].
  destruct (Array_get _ _); [apply IH | reflexivity].
Qed.

(** X16: [totalAssetValue] raises a TypeError as soon as one stored asset
    has no yearly record.  Otherwise it adds up, from zero and in the order
    of the map, what each asset counts for: the actual end value of its
    last record where that is recorded and not zero, the projected end
    value of that record where not.  That holds in whatever arithmetic the
    additions are made, that of binary64 included.  For an empty store the
    total is zero. *)
Theorem totalAssetValue_spec (ops : Number.Arithmetic)
    (assets : list (string * Asset)) :
  (Forall (fun a => yearlyPerformance a <> []) (serialize assets) ->
   Rounded.totalAssetValue ops assets
   = Return (fold_left (fun sum a => Number.add ops sum (countedValue a))
               (serialize assets) 0%Q)) /\
  (Exists (fun a => yearlyPerformance a = []) (serialize assets) ->
   Rounded.totalAssetValue ops assets = Throw TypeError) /\
  Rounded.totalAssetValue ops [] = Return 0%Q.
Proof.
  unfold Rounded.totalAssetValue, serialize.
  destruct (rounded_reduce_spec ops (JsMap.values assets) 0) as [H1 H2].
  split; [exact H1 |]. split; [exact H2 | reflexivity].
Qed.

(** X17: [createAsset] accepts an asset whose start date does not parse and
    stores it with an empty projection, raising nothing; from then on
    [totalAssetValue] raises a TypeError. *)
Theorem undated_asset_breaks_total (tz : Z) (id : string) (data : AssetData.t)
    (assets : gmap string Asset) (entries : list (string * Asset)) :
  AssetData.startDate data = None ->
  JsMap.view entries = snd (createAsset tz id data assets) ->
  fst (createAsset tz id data assets) = Return id /\
  (exists asset,
      snd (createAsset tz id data assets) !! id = Some asset /\
      yearlyPerformance asset = []) /\
  totalAssetValue entries = Throw TypeError.
Proof.
  intros Hs Hview. unfold createAsset in *.
  assert (E : initializeYearlyPerformance tz (AssetData.startDate data)
                (AssetData.maturityDate data) (AssetData.initialAmount data)
                (AssetData.returns data) = Return []).
  { rewrite Hs. unfold initializeYearlyPerformance. cbn.
    now destruct (AssetData.maturityDate data). }
  rewrite E in *. cbn [fst snd] in *.
  split; [reflexivity |].
  split; [eexists; split; [apply lookup_insert_eq | reflexivity] |].
  unfold totalAssetValue.
  apply (proj2 (totalAssetValue_reduce_spec (JsMap.values entries) 0)).
  apply Exists_exists.
  eexists. split.
  - eapply JsMapFacts.get_values. rewrite <- JsMapFacts.view_lookup, Hview.
    apply lookup_insert_eq.
  - reflexivity.
Qed.

Lemma undated_asset_breaks_total_witness :
  AssetData.startDate undatedData = None /\
  JsMap.view [("a1"%string, bondAsset);
              ("c3"%string,
               storedAt "c3" (snd (createAsset (-300) "c3" undatedData bondStore))
                 noAsset)]
  = snd (createAsset (-300) "c3" undatedData bondStore) /\
  fst (createAsset (-300) "c3" undatedData bondStore) = Return "c3"%string /\
  (exists asset,
      snd (createAsset (-300) "c3" undatedData bondStore) !! "c3"%string = Some asset /\
      yearlyPerformance asset = []) /\
  totalAssetValue
    [("a1"%string, bondAsset);
     ("c3"%string,
      storedAt "c3" (snd (createAsset (-300) "c3" undatedData bondStore)) noAsset)]
  = Throw TypeError.
Proof.
  assert (H1 : AssetData.startDate undatedData = None) by reflexivity.
  assert (H3 : JsMap.view
                 [("a1"%string, bondAsset);
                  ("c3"%string,
                   storedAt "c3"
                     (snd (createAsset (-300) "c3" undatedData bondStore)) noAsset)]
               = snd (createAsset (-300) "c3" undatedData bondStore))
    by (vm_compute; reflexivity).
  split; [exact H1 |]. split; [exact H3 |].
  exact (undated_asset_breaks_total (-300) "c3" undatedData bondStore _ H1 H3).
Defined.

(** ** sortedAssets *)

Lemma insertSorted_Permutation {A : Type} (notAfter : A -> A -> bool) (x : A)
    (l : list A) :
  insertSorted notAfter x l ≡ₚ x :: l.
Proof.
  induction l as [| y rest IH]; cbn [insertSorted]; [reflexivity |].
  destruct (notAfter x y); [reflexivity |].
  rewrite IH. apply Permutation_swap.
Qed.

Lemma stableSort_Permutation {A : Type} (notAfter : A -> A -> bool) (l : list A) :
  stableSort notAfter l ≡ₚ l.
Proof.
  induction l as [| y rest IH]; cbn [stableSort]; [reflexivity |].
  rewrite insertSorted_Permutation. now rewrite IH.
Qed.

Lemma startsNoEarlier_valid (a b : Asset) :
  is_Some (startDate a) -> is_Some (startDate b) ->
  startsNoEarlier a b = (startTime b <=? startTime a).
Proof.
  intros [ta Ha] [tb Hb]. unfold startsNoEarlier, startTime. rewrite Ha, Hb. cbn.
  destruct (Z.leb_spec (tb - ta) 0), (Z.leb_spec tb ta); (reflexivity || lia).
Qed.

Lemma insertSorted_startTime (x : Asset) (l : list Asset) :
  is_Some (startDate x) -> Forall (fun a => is_Some (startDate a)) l ->
  StronglySorted (fun a b => startTime b <= startTime a) l ->
  StronglySorted (fun a b => startTime b <= startTime a)
    (insertSorted startsNoEarlier x l) /\
  forall t, filter (fun a => startTime a = t) (insertSorted startsNoEarlier x l)
            = filter (fun a => startTime a = t) (x :: l).
Proof.
  intros Hx. induction l as [| y rest IH]; intros Hv Hs; cbn [insertSorted].
  - split; [repeat constructor | reflexivity].
  - apply Forall_cons in Hv. destruct Hv as [Hy Hv].
    apply StronglySorted_cons in Hs. destruct Hs as [Hall Hrest].
    rewrite (startsNoEarlier_valid x y Hx Hy).
    destruct (Z.leb_spec (startTime y) (startTime x)) as [Hle | Hgt].
    + split; [| reflexivity].
      apply StronglySorted_cons. split.
      * constructor; [assumption |].
        eapply Forall_impl; [exact Hall |]. cbn. intros z Hz. lia.
      * apply StronglySorted_cons. now split.
    + destruct (IH Hv Hrest) as [IHs IHf]. split.
      * apply StronglySorted_cons. split; [| assumption].
        apply Forall_forall. intros z Hz.
        rewrite insertSorted_Permutation in Hz. apply elem_of_cons in Hz.
        destruct Hz as [-> | Hz]; [lia |].
        rewrite Forall_forall in Hall. now apply Hall.
      * intros t. rewrite !filter_cons, IHf, !filter_cons.
        destruct (decide (startTime y = t)), (decide (startTime x = t));
          (reflexivity || lia).
Qed.

(** X18: for assets with valid start dates, [sortedAssets] returns the
    stored assets rearranged, latest start date first; assets that start at
    the same time keep the order in which they were stored. *)
Theorem sortedAssets_spec (assets : list (string * Asset)) :
  Forall (fun a => is_Some (startDate a)) (serialize assets) ->
  sortedAssets assets ≡ₚ serialize assets /\
  StronglySorted (fun a b => startTime b <= startTime a) (sortedAssets assets) /\
  forall t, filter (fun a => startTime a = t) (sortedAssets assets)
            = filter (fun a => startTime a = t) (serialize assets).
Proof.
  unfold sortedAssets, serialize. generalize (JsMap.values assets) as l.
  clear assets. intros l Hv.
  split; [apply stableSort_Permutation |].
  induction l as [| x rest IH]; cbn [stableSort].
  - split; [constructor | reflexivity].
  - apply Forall_cons in Hv. destruct Hv as [Hx Hv].
    destruct (IH Hv) as [IHs IHf].
    assert (Hv' : Forall (fun a => is_Some (startDate a))
                    (stableSort startsNoEarlier rest)).
    { rewrite (stableSort_Permutation startsNoEarlier rest). exact Hv. }
    destruct (insertSorted_startTime x _ Hx Hv' IHs) as [Hs Hf].
    split; [exact Hs |].
    intros t. rewrite Hf, !filter_cons, IHf. reflexivity.
Qed.

Lemma sortedAssets_spec_witness :
  Forall (fun a => is_Some (startDate a)) (serialize twoAssets) /\
  sortedAssets twoAssets = [savingsAsset; bondAsset] /\
  (sortedAssets twoAssets ≡ₚ serialize twoAssets /\
   StronglySorted (fun a b => startTime b <= startTime a) (sortedAssets twoAssets) /\
   forall t, filter (fun a => startTime a = t) (sortedAssets twoAssets)
             = filter (fun a => startTime a = t) (serialize twoAssets)).
Proof.
  assert (H : Forall (fun a => is_Some (startDate a)) (serialize twoAssets))
    by (repeat constructor; eexists; reflexivity).
  split; [exact H |]. split; [vm_compute; reflexivity |].
  exact (sortedAssets_spec twoAssets H).
Defined.

(** ** The start year in local time *)

Lemma parseDateOnly_first_of_January (y : Z) :
  yearInRange y ->
  Date.parseDateOnly y 1 1 = Some (Date.DayFromYear y * Date.msPerDay).
Proof.
  intros Hy. unfold Date.parseDateOnly. change (1 - 1) with 0.
  rewrite DateFacts.MakeDay_first by lia. cbn [Date.monthStart].
  rewrite Z.add_0_r. unfold Date.TimeClip.
  pose proof (DateFacts.DayFromYear_bounds y Hy).
  destruct (Z.leb_spec (Z.abs (Date.DayFromYear y * Date.msPerDay)) 8640000000000000);
    [reflexivity |].
  unfold Date.msPerDay in *. lia.
Qed.

(** X19: the projection starts in the local year of the start date: for a
    start date given as the first of January of year [y] (a date-only
    string, midnight UTC), the first projected year is [y] where local time
    is UTC or ahead of it, and [y - 1] where it is behind. *)
Theorem start_year_is_local (tz y : Z) (m : option Date.TimeValue) (a : Q)
    (r : ReturnModel) (perf : list YearlyPerformance) (p : YearlyPerformance) :
  yearInRange y -> -1440 < tz < 1440 ->
  initializeYearlyPerformance tz (Date.parseDateOnly y 1 1) m a r = Return perf ->
  perf !! 0%nat = Some p ->
  year p = if 0 <=? tz then y else y - 1.
Proof.
  intros Hy Htz Hperf Hp.
  apply initializeYearlyPerformance_years in Hperf.
  assert (Hsy : Date.getFullYear tz (Date.parseDateOnly y 1 1)
                = Some (if 0 <=? tz then y else y - 1)).
  { rewrite parseDateOnly_first_of_January by assumption.
    unfold Date.getFullYear. f_equal.
    destruct (Z.leb_spec 0 tz) as [Hpos | Hneg].
    - destruct (DateFacts.calendar_fields
                  (Date.DayFromYear y * Date.msPerDay + Date.LocalTZA tz) y 0)
        as (Hyear & _).
      + unfold Date.Day, Date.LocalTZA, Date.msPerDay, Date.msPerMinute.
        Z.div_mod_to_equations. lia.
      + pose proof (DateFacts.InLeapYear_range y). lia.
      + exact Hyear.
    - pose proof (DateFacts.InLeapYear_range (y - 1)) as Hl.
      pose proof (DateFacts.DayFromYear_succ (y - 1)) as Hs.
      replace (y - 1 + 1) with y in Hs by lia.
      destruct (DateFacts.calendar_fields
                  (Date.DayFromYear y * Date.msPerDay + Date.LocalTZA tz) (y - 1)
                  (364 + Date.InLeapYear (y - 1)))
        as (Hyear & _).
      + unfold Date.Day, Date.LocalTZA, Date.msPerDay, Date.msPerMinute.
        Z.div_mod_to_equations. lia.
      + lia.
      + exact Hyear. }
  unfold projectionYears in Hperf. rewrite Hsy in Hperf.
  assert (Hhead : head (map year perf) = Some (year p)).
  { destruct perf as [| q rest]; [discriminate |]. cbn in Hp. now injection Hp as ->. }
  rewrite Hperf in Hhead.
  destruct m as [maturity |].
  - destruct (Date.getFullYear tz maturity) as [ey |]; [| discriminate].
    destruct (Z.le_gt_cases (ey - (if 0 <=? tz then y else y - 1) + 1) 0) as [H0 | H0].
    + rewrite seqZ_nil in Hhead by assumption. discriminate.
    + rewrite seqZ_cons in Hhead by lia. cbn in Hhead. congruence.
  - rewrite seqZ_cons in Hhead by lia. cbn in Hhead. congruence.
Qed.

Lemma start_year_is_local_witness :
  exists perf p,
    yearInRange 2024 /\ -1440 < -300 < 1440 /\
    initializeYearlyPerformance (-300) (Date.parseDateOnly 2024 1 1) None 100000
      zeroYieldReturns = Return perf /\
    perf !! 0%nat = Some p /\
    year p = if 0 <=? -300 then 2024 else 2024 - 1.
Proof.
  eexists. eexists.
  assert (H1 : yearInRange 2024) by (unfold yearInRange; lia).
  assert (H2 : -1440 < -300 < 1440) by lia.
  split; [exact H1 |]. split; [exact H2 |].
  split; [vm_compute; reflexivity |]. split; [reflexivity |].
  eapply (start_year_is_local (-300) 2024 None 100000 zeroYieldReturns _ _ H1 H2);
    [vm_compute; reflexivity | reflexivity].
Defined.

(** ** GroupStore *)

Module GroupFacts.
Import GroupStore.
Section Facts.

Context {F : Type}.
Variable nanoid : nat -> string.
Implicit Types (items : list (@Item F)) (st : @State F).

Lemma withFreshIds_spec items :
  forall k,
    snd (withFreshIds nanoid items k) = (k + length items)%nat /\
    map itemFields (fst (withFreshIds nanoid items k)) = map itemFields items /\
    map itemId (fst (withFreshIds nanoid items k))
    = map (fun i => Some (nanoid (k + i)%nat)) (seq 0 (length items)).
Proof.
  induction items as [| item rest IH]; intros k; cbn [withFreshIds].
  - cbn. split; [lia | now split].
  - destruct (withFreshIds nanoid rest (S k)) as [rest' k'] eqn:E.
    specialize (IH (S k)). rewrite E in IH. cbn [fst snd] in *.
    destruct IH as (Hk & Hf & Hi). cbn [length map seq].
    split; [lia |]. split; [now rewrite Hf |].
    rewrite Hi, Nat.add_0_r. f_equal.
    rewrite <- seq_shift, map_map. apply map_ext. intros i. do 2 f_equal. lia.
Qed.

Lemma withMissingIds_spec items :
  forall k,
    (k <= snd (withMissingIds nanoid items k) <= k + length items)%nat /\
    map itemFields (fst (withMissingIds nanoid items k)) = map itemFields items /\
    (forall (i : nat) item,
        items !! i = Some item -> truthy (itemId item) = true ->
        fst (withMissingIds nanoid items k) !! i = Some item) /\
    ((forall j, nanoid j <> ""%string) ->
     Forall (fun item => truthy (itemId item) = true)
       (fst (withMissingIds nanoid items k))).
Proof.
  induction items as [| item rest IH]; intros k; cbn [withMissingIds].
  - cbn. split; [lia |]. split; [reflexivity |]. split; [discriminate | constructor].
  - destruct (truthy (itemId item)) eqn:Ht.
    + destruct (withMissingIds nanoid rest k) as [rest' k'] eqn:E.
      specialize (IH k). rewrite E in IH. cbn [fst snd] in *.
      destruct IH as (Hk & Hf & Hkeep & Hall). cbn [length map].
      split; [lia |]. split; [now rewrite Hf |]. split.
      * intros [| i] it Hi Hit; cbn in *; [assumption | now apply Hkeep].
      * intros Hn. constructor; [assumption | now apply Hall].
    + destruct (withMissingIds nanoid rest (S k)) as [rest' k'] eqn:E.
      specialize (IH (S k)). rewrite E in IH. cbn [fst snd] in *.
      destruct IH as (Hk & Hf & Hkeep & Hall). cbn [length map itemFields].
      split; [lia |]. split; [now rewrite Hf |]. split.
      * intros [| i] it Hi Hit; cbn in *; [| now apply Hkeep].
        injection Hi as <-. congruence.
      * intros Hn. constructor; [| now apply Hall].
        cbn. destruct (String.eqb_spec (nanoid k) ""); [now apply Hn in e | reflexivity].
Qed.

Lemma withMissingIds_drawn items :
  forall k,
    snd (withMissingIds nanoid items k)
    = (k + length (List.filter (fun item => negb (truthy (itemId item))) items))%nat.
Proof.
  induction items as [| item rest IH]; intros k; cbn [withMissingIds List.filter].
  - cbn. lia.
  - destruct (truthy (itemId item)); cbn [negb].
    + specialize (IH k). destruct (withMissingIds nanoid rest k). exact IH.
    + specialize (IH (S k)). destruct (withMissingIds nanoid rest (S k)).
      cbn [snd length] in *. lia.
Qed.

Lemma truthy_fresh k : nanoid k <> ""%string -> truthy (Some (nanoid k)) = true.
Proof.
  intros Hk. cbn. destruct (String.eqb_spec (nanoid k) ""); [contradiction | reflexivity].
Qed.

Lemma identified_get (groups : list (string * @Group F)) id group :
  identified groups -> JsMap.get id groups = Some group ->
  groupId group = id /\
  Forall (fun item => truthy (itemId item) = true) (groupItems group).
Proof.
  intros Hg. induction groups as [| [k0 g0] rest IH]; cbn [JsMap.get]; [discriminate |].
  apply Forall_cons in Hg. destruct Hg as [[Hid Hitems] Hrest]. cbn [fst snd] in *.
  destruct (String.eqb_spec k0 id) as [-> | Hne].
  - intros [= <-]. now split.
  - now apply IH.
Qed.

Lemma createGroup_identified data (groups : list (string * @Group F)) k :
  (forall j, nanoid j <> ""%string) ->
  identified groups ->
  identified (snd (fst (createGroup nanoid data groups k))).
Proof.
  intros Hn Hg. unfold createGroup.
  destruct (dataItems data) as [items |]; [| exact Hg].
  pose proof (withFreshIds_spec items (S k)) as (_ & _ & Hids).
  destruct (withFreshIds nanoid items (S k)) as [items' k'].
  cbn [fst snd] in *. apply JsMapFacts.Forall_set; [exact Hg |].
  cbn [fst snd groupId groupItems]. split; [reflexivity |].
  apply Forall_forall. intros item Hitem.
  apply list_elem_of_In, (in_map itemId) in Hitem. rewrite Hids in Hitem.
  apply in_map_iff in Hitem. destruct Hitem as (i & Hi & _).
  rewrite <- Hi. now apply truthy_fresh.
Qed.

Lemma updateGroup_identified id data (groups : list (string * @Group F)) k :
  (forall j, nanoid j <> ""%string) ->
  identified groups ->
  identified (fst (updateGroup nanoid id data groups k)).
Proof.
  intros Hn Hg. unfold updateGroup.
  destruct (JsMap.get id groups) as [group |] eqn:Hget; [| exact Hg].
  destruct (identified_get _ _ _ Hg Hget) as [Hid Hitems].
  destruct (updateItems data) as [items |].
  - pose proof (withMissingIds_spec items k) as (_ & _ & _ & Hall).
    destruct (withMissingIds nanoid items k) as [items' k'].
    cbn [fst snd] in *. apply JsMapFacts.Forall_set; [exact Hg |].
    cbn [fst snd groupId groupItems]. split; [now symmetry | now apply Hall].
  - cbn [fst]. apply JsMapFacts.Forall_set; [exact Hg |].
    cbn [fst snd groupId groupItems]. split; [now symmetry | assumption].
Qed.

Lemma addGroupItem_identified g item (groups : list (string * @Group F)) k :
  (forall j, nanoid j <> ""%string) ->
  identified groups ->
  identified (fst (addGroupItem nanoid g item groups k)).
Proof.
  intros Hn Hg. unfold addGroupItem.
  destruct (JsMap.get g groups) as [group |] eqn:Hget; [| exact Hg].
  destruct (identified_get _ _ _ Hg Hget) as [Hid Hitems].
  cbn [fst]. apply JsMapFacts.Forall_set; [exact Hg |].
  cbn [fst snd groupId groupItems]. split; [now symmetry |].
  apply Forall_app. split; [assumption |].
  constructor; [now apply truthy_fresh | constructor].
Qed.

Lemma removeGroupItem_identified g i (groups : list (string * @Group F)) :
  identified groups -> identified (removeGroupItem g i groups).
Proof.
  intros Hg. unfold removeGroupItem.
  destruct (JsMap.get g groups) as [group |] eqn:Hget; [| exact Hg].
  destruct (identified_get _ _ _ Hg Hget) as [Hid Hitems].
  apply JsMapFacts.Forall_set; [exact Hg |].
  cbn [fst snd groupId groupItems]. split; [now symmetry |].
  apply Forall_forall. intros item Hitem.
  apply list_elem_of_filter in Hitem. destruct Hitem as [_ Hitem].
  revert item Hitem. now apply Forall_forall.
Qed.

Lemma createIncomeGroup_wellIdentified data (st : @State F) :
  (forall j, nanoid j <> ""%string) ->
  wellIdentified st -> wellIdentified (snd (createIncomeGroup nanoid data st)).
Proof.
  intros Hn [Hi He].
  pose proof (createGroup_identified data _ (drawn st) Hn Hi) as H.
  unfold createIncomeGroup.
  destruct (createGroup nanoid data (incomeGroups st) (drawn st)) as [[out groups] k].
  now split.
Qed.

Lemma createExpenseGroup_wellIdentified data (st : @State F) :
  (forall j, nanoid j <> ""%string) ->
  wellIdentified st -> wellIdentified (snd (createExpenseGroup nanoid data st)).
Proof.
  intros Hn [Hi He].
  pose proof (createGroup_identified data _ (drawn st) Hn He) as H.
  unfold createExpenseGroup.
  destruct (createGroup nanoid data (expenseGroups st) (drawn st)) as [[out groups] k].
  now split.
Qed.

Lemma initializeDefaultGroups_wellIdentified
    (defaultIncome defaultExpense : list (string * list F)) (st : @State F) :
  (forall j, nanoid j <> ""%string) ->
  wellIdentified st ->
  wellIdentified (initializeDefaultGroups nanoid defaultIncome defaultExpense st).
Proof.
  intros Hn Hst. unfold initializeDefaultGroups.
  destruct (literalGroups nanoid defaultIncome (drawn st)) as [income k1].
  destruct (literalGroups nanoid defaultExpense k1) as [expense k2].
  assert (Hincome : forall groups st0,
             wellIdentified st0 ->
             wellIdentified
               (fold_left (fun st' group => snd (createIncomeGroup nanoid group st'))
                  groups st0)).
  { induction groups as [| group rest IH]; intros st0 H0; [exact H0 |].
    cbn [fold_left]. apply IH. now apply createIncomeGroup_wellIdentified. }
  assert (Hexpense : forall groups st0,
             wellIdentified st0 ->
             wellIdentified
               (fold_left (fun st' group => snd (createExpenseGroup nanoid group st'))
                  groups st0)).
  { induction groups as [| group rest IH]; intros st0 H0; [exact H0 |].
    cbn [fold_left]. apply IH. now apply createExpenseGroup_wellIdentified. }
  apply Hexpense, Hincome. exact Hst.
Qed.

Lemma hydrateGroups_identified (groups : option (list (@Group F))) :
  Forall identifiedGroup (default [] groups) -> identified (hydrateGroups groups).
Proof.
  unfold hydrateGroups. generalize (default [] groups). clear groups.
  intros groups.
  assert (G : forall m, identified m -> Forall identifiedGroup groups ->
                        identified
                          (fold_left (fun m group => JsMap.set (groupId group) group m)
                             groups m)).
  { induction groups as [| group rest IH]; intros m Hm Hall; [exact Hm |].
    apply Forall_cons in Hall. destruct Hall as [Hgroup Hrest].
    cbn [fold_left]. apply IH; [| exact Hrest].
    apply JsMapFacts.Forall_set; [exact Hm |]. now split. }
  apply G. constructor.
Qed.

(** What [serialize] returns from a store whose items carry their ids is a
    snapshot whose items carry theirs. *)
Lemma serialize_identified (st : @State F) :
  wellIdentified st -> identifiedSnapshot (serialize st).
Proof.
  assert (G : forall groups : list (string * @Group F),
             identified groups -> Forall identifiedGroup (JsMap.values groups)).
  { induction groups as [| [k g] rest IH]; intros H; [constructor |].
    apply Forall_cons in H. destruct H as [[_ Hitems] Hrest].
    constructor; [exact Hitems | now apply IH]. }
  intros [Hi He]. split; cbn; now apply G.
Qed.

End Facts.
End GroupFacts.

(** X20: [createIncomeGroup] returns the id it drew first and stores under
    it a group with the name and the items of the payload, every item
    getting the next drawn id in place of any id it came with; the expense
    groups are untouched.  Without [items] in the payload it raises a
    TypeError and stores nothing, one id being spent. *)
Theorem createIncomeGroup_spec {F : Type} (nanoid : nat -> string)
    (data : @GroupStore.GroupData F) (st : @GroupStore.State F) :
  let k := GroupStore.drawn st in
  let out := fst (GroupStore.createIncomeGroup nanoid data st) in
  let st' := snd (GroupStore.createIncomeGroup nanoid data st) in
  GroupStore.expenseGroups st' = GroupStore.expenseGroups st /\
  match GroupStore.dataItems data with
  | None =>
      out = Throw TypeError /\
      GroupStore.incomeGroups st' = GroupStore.incomeGroups st /\
      GroupStore.drawn st' = S k
  | Some items =>
      out = Return (nanoid k) /\
      GroupStore.drawn st' = (k + 1 + length items)%nat /\
      exists group,
        JsMap.get (nanoid k) (GroupStore.incomeGroups st') = Some group /\
        GroupStore.groupId group = nanoid k /\
        GroupStore.groupName group = GroupStore.dataName data /\
        map GroupStore.itemFields (GroupStore.groupItems group)
        = map GroupStore.itemFields items /\
        map GroupStore.itemId (GroupStore.groupItems group)
        = map (fun i => Some (nanoid (k + 1 + i)%nat)) (seq 0 (length items))
  end.
Proof.
  cbv zeta. unfold GroupStore.createIncomeGroup, GroupStore.createGroup.
  destruct (GroupStore.dataItems data) as [items |].
  - pose proof (GroupFacts.withFreshIds_spec nanoid items (S (GroupStore.drawn st)))
      as (Hk & Hf & Hi).
    destruct (GroupStore.withFreshIds nanoid items (S (GroupStore.drawn st)))
      as [items' k'] eqn:E.
    cbn [fst snd GroupStore.expenseGroups GroupStore.incomeGroups GroupStore.drawn] in *.
    split; [reflexivity |]. split; [reflexivity |]. split; [lia |].
    eexists. split.
    + rewrite JsMapFacts.get_set. now rewrite decide_True.
    + cbn [GroupStore.groupId GroupStore.groupName GroupStore.groupItems].
      split; [reflexivity |]. split; [reflexivity |]. split; [assumption |].
      rewrite Hi. apply map_ext. intros i. do 2 f_equal. lia.
  - cbn. now repeat split.
Qed.

Lemma exampleIds_not_empty (k : nat) : exampleIds k <> ""%string.
Proof. do 9 (destruct k as [| k]; [discriminate |]). discriminate. Qed.

(** X21: as long as [nanoid] never returns the empty string, the methods
    that write the store keep this invariant: each group is stored under
    its own id and each of its items carries an id that is not empty.  The
    ten methods that create, update and delete groups and add and remove
    items keep it, and so do [initializeDefaultGroups] and [reset],
    whatever the default groups are.  [hydrate] stores the groups of a
    snapshot as they come: it keeps the invariant for a snapshot whose
    items carry their ids. *)
Theorem groups_stay_identified {F : Type} (nanoid : nat -> string)
    (defaultIncome defaultExpense : list (string * list F))
    (st st' : @GroupStore.State F) :
  (forall k, nanoid k <> ""%string) ->
  GroupStore.wellIdentified st ->
  GroupStore.step nanoid defaultIncome defaultExpense st st' ->
  GroupStore.wellIdentified st'.
Proof.
  intros Hn Hst Hstep. pose proof Hst as [Hi He].
  destruct Hstep as [data st | data st | id data st | id data st | id st | id st
                    | g item st | g item st | g i st | g i st | st | st
                    | data st [Hincome Hexpense]].
  - now apply GroupFacts.createIncomeGroup_wellIdentified.
  - now apply GroupFacts.createExpenseGroup_wellIdentified.
  - pose proof (GroupFacts.updateGroup_identified nanoid id data _ (GroupStore.drawn st) Hn Hi) as H.
    unfold GroupStore.updateIncomeGroup.
    destruct (GroupStore.updateGroup nanoid id data (GroupStore.incomeGroups st)
                (GroupStore.drawn st)) as [groups k]. now split.
  - pose proof (GroupFacts.updateGroup_identified nanoid id data _ (GroupStore.drawn st) Hn He) as H.
    unfold GroupStore.updateExpenseGroup.
    destruct (GroupStore.updateGroup nanoid id data (GroupStore.expenseGroups st)
                (GroupStore.drawn st)) as [groups k]. now split.
  - split; [| exact He]. now apply JsMapFacts.Forall_delete.
  - split; [exact Hi |]. now apply JsMapFacts.Forall_delete.
  - pose proof (GroupFacts.addGroupItem_identified nanoid g item _ (GroupStore.drawn st) Hn Hi) as H.
    unfold GroupStore.addIncomeGroupItem.
    destruct (GroupStore.addGroupItem nanoid g item (GroupStore.incomeGroups st)
                (GroupStore.drawn st)) as [groups k]. now split.
  - pose proof (GroupFacts.addGroupItem_identified nanoid g item _ (GroupStore.drawn st) Hn He) as H.
    unfold GroupStore.addExpenseGroupItem.
    destruct (GroupStore.addGroupItem nanoid g item (GroupStore.expenseGroups st)
                (GroupStore.drawn st)) as [groups k]. now split.
  - split; [| exact He]. now apply GroupFacts.removeGroupItem_identified.
  - split; [exact Hi |]. now apply GroupFacts.removeGroupItem_identified.
  - now apply GroupFacts.initializeDefaultGroups_wellIdentified.
  - apply GroupFacts.initializeDefaultGroups_wellIdentified; [exact Hn |].
    split; constructor.
  - split; now apply GroupFacts.hydrateGroups_identified.
Qed.

Lemma numberedIds_not_empty (k : nat) : numberedIds k <> ""%string.
Proof. unfold numberedIds. discriminate. Qed.

(** X21, on the store that the constructor builds and [reset] rebuilds:
    two income and two expense groups each time, 22 ids drawn each time. *)
Lemma groups_stay_identified_witness :
  (length (GroupStore.incomeGroups rebuilt) = 2%nat /\
   length (GroupStore.expenseGroups rebuilt) = 2%nat /\
   GroupStore.drawn rebuilt = 44%nat) /\
  GroupStore.wellIdentified rebuilt.
Proof.
  split; [vm_compute; repeat split |].
  apply (groups_stay_identified numberedIds defaultIncomeGroups defaultExpenseGroups
           (constructed numberedIds)).
  - exact numberedIds_not_empty.
  - vm_compute. repeat constructor.
  - unfold rebuilt. apply GroupStore.step_reset.
Defined.

(** A snapshot with an item that has no id is stored as it comes, whatever
    the store held: after it the invariant is lost. *)
Lemma hydrate_stores_as_given :
  GroupStore.wellIdentified salaryStore /\
  ~ GroupStore.wellIdentified (GroupStore.hydrate foreignSnapshot salaryStore).
Proof.
  split.
  - unfold salaryStore.
    apply GroupFacts.createIncomeGroup_wellIdentified;
      [exact exampleIds_not_empty | split; constructor].
  - intros [H _]. apply Forall_cons in H. destruct H as [[_ H] _].
    apply Forall_cons in H. destruct H as [H _]. discriminate H.
Qed.

(** X22: adding an item to a known income group and removing it again by
    the id it was given leaves both maps as they were, provided no item of
    the group already carried that id; only the id stays spent. *)
Theorem add_then_remove_item {F : Type} (nanoid : nat -> string)
    (gid : string) (item : @GroupStore.Item F) (group : @GroupStore.Group F)
    (st : @GroupStore.State F) :
  JsMap.get gid (GroupStore.incomeGroups st) = Some group ->
  Forall (fun it => GroupStore.itemId it <> Some (nanoid (GroupStore.drawn st)))
    (GroupStore.groupItems group) ->
  GroupStore.removeIncomeGroupItem gid (nanoid (GroupStore.drawn st))
    (GroupStore.addIncomeGroupItem nanoid gid item st)
  = {| GroupStore.incomeGroups := GroupStore.incomeGroups st;
       GroupStore.expenseGroups := GroupStore.expenseGroups st;
       GroupStore.drawn := S (GroupStore.drawn st) |}.
Proof.
  intros Hget Hfresh.
  unfold GroupStore.addIncomeGroupItem, GroupStore.addGroupItem. rewrite Hget.
  unfold GroupStore.removeIncomeGroupItem, GroupStore.removeGroupItem.
  cbn [GroupStore.incomeGroups GroupStore.expenseGroups GroupStore.drawn].
  rewrite JsMapFacts.get_set, decide_True by reflexivity.
  cbn [GroupStore.groupId GroupStore.groupName GroupStore.groupItems].
  rewrite JsMapFacts.set_set. f_equal.
  apply JsMapFacts.set_get_id. rewrite Hget. f_equal.
  destruct group as [gi gn items]. cbn [GroupStore.groupId GroupStore.groupName
                                         GroupStore.groupItems] in *.
  f_equal. rewrite filter_app.
  assert (Hkeep : filter (fun it : GroupStore.Item =>
                            GroupStore.itemId it <> Some (nanoid (GroupStore.drawn st)))
                    items = items).
  { clear Hget. induction items as [| it rest IH]; [reflexivity |].
    apply Forall_cons in Hfresh. destruct Hfresh as [Hit Hrest].
    rewrite filter_cons_True by exact Hit. f_equal. now apply IH. }
  rewrite Hkeep. rewrite filter_cons_False, filter_nil by (cbn; tauto).
  symmetry. apply app_nil_r.
Qed.

(** X22, on the group of [salaryStore]. *)
Lemma add_then_remove_item_witness :
  GroupStore.removeIncomeGroupItem "id-0" "id-3"
    (GroupStore.addIncomeGroupItem exampleIds "id-0"
       {| GroupStore.itemId := None; GroupStore.itemFields := "bonus"%string |}
       salaryStore)
  = {| GroupStore.incomeGroups := GroupStore.incomeGroups salaryStore;
       GroupStore.expenseGroups := [];
       GroupStore.drawn := 4 |}.
Proof.
  eapply (add_then_remove_item exampleIds "id-0" _ _ salaryStore).
  - reflexivity.
  - repeat constructor; discriminate.
Defined.

(** X23: [updateIncomeGroup] on an unknown id changes nothing and draws no
    id.  On a known id it keeps the place and the id of the group and every
    other group; the name is replaced only by a name that is not empty; the
    items are kept when the payload has none, and otherwise replaced by the
    payload's, in order, with their fields, every item that came with an id
    that is not empty stored as it came, and exactly one id drawn for each
    of the others.  The expense groups are not touched. *)
Theorem updateIncomeGroup_spec {F : Type} (nanoid : nat -> string)
    (id : string) (data : @GroupStore.GroupUpdate F) (st : @GroupStore.State F) :
  let st' := GroupStore.updateIncomeGroup nanoid id data st in
  GroupStore.expenseGroups st' = GroupStore.expenseGroups st /\
  match JsMap.get id (GroupStore.incomeGroups st) with
  | None => st' = st
  | Some group =>
      JsMap.keys (GroupStore.incomeGroups st') = JsMap.keys (GroupStore.incomeGroups st) /\
      (forall other, other <> id ->
         JsMap.get other (GroupStore.incomeGroups st')
         = JsMap.get other (GroupStore.incomeGroups st)) /\
      exists group',
        JsMap.get id (GroupStore.incomeGroups st') = Some group' /\
        GroupStore.groupId group' = GroupStore.groupId group /\
        GroupStore.groupName group'
        = match GroupStore.updateName data with
          | Some name => if String.eqb name "" then GroupStore.groupName group else name
          | None => GroupStore.groupName group
          end /\
        match GroupStore.updateItems data with
        | None =>
            GroupStore.groupItems group' = GroupStore.groupItems group /\
            GroupStore.drawn st' = GroupStore.drawn st
        | Some items =>
            map GroupStore.itemFields (GroupStore.groupItems group')
            = map GroupStore.itemFields items /\
            (forall (i : nat) item,
               items !! i = Some item ->
               GroupStore.truthy (GroupStore.itemId item) = true ->
               GroupStore.groupItems group' !! i = Some item) /\
            GroupStore.drawn st'
            = (GroupStore.drawn st
               + length (List.filter
                           (fun item => negb (GroupStore.truthy (GroupStore.itemId item)))
                           items))%nat
        end
  end.
Proof.
  cbv zeta. unfold GroupStore.updateIncomeGroup, GroupStore.updateGroup.
  destruct (JsMap.get id (GroupStore.incomeGroups st)) as [group |] eqn:Hget.
  - assert (Hname :
        (if GroupStore.truthy (GroupStore.updateName data)
         then default (GroupStore.groupName group) (GroupStore.updateName data)
         else GroupStore.groupName group)
        = match GroupStore.updateName data with
          | Some name => if String.eqb name "" then GroupStore.groupName group else name
          | None => GroupStore.groupName group
          end).
    { destruct (GroupStore.updateName data) as [name |]; cbn; [| reflexivity].
      now destruct (String.eqb name ""). }
    pose proof (JsMapFacts.get_keys _ _ _ Hget) as Hin.
    destruct (GroupStore.updateItems data) as [items |].
    + pose proof (GroupFacts.withMissingIds_spec nanoid items (GroupStore.drawn st))
        as (_ & Hfields & Hkept & _).
      pose proof (GroupFacts.withMissingIds_drawn nanoid items (GroupStore.drawn st))
        as Hdrawn.
      destruct (GroupStore.withMissingIds nanoid items (GroupStore.drawn st))
        as [items' k'].
      cbn [fst snd GroupStore.incomeGroups GroupStore.expenseGroups GroupStore.drawn] in *.
      split; [reflexivity |]. split; [now apply JsMapFacts.keys_set_known |].
      split.
      { intros other Hother. rewrite JsMapFacts.get_set.
        now rewrite decide_False by exact Hother. }
      eexists. split; [rewrite JsMapFacts.get_set; now rewrite decide_True |].
      cbn [GroupStore.groupId GroupStore.groupName GroupStore.groupItems].
      split; [reflexivity |]. split; [exact Hname |]. now repeat split.
    + cbn [fst snd GroupStore.incomeGroups GroupStore.expenseGroups GroupStore.drawn] in *.
      split; [reflexivity |]. split; [now apply JsMapFacts.keys_set_known |].
      split.
      { intros other Hother. rewrite JsMapFacts.get_set.
        now rewrite decide_False by exact Hother. }
      eexists. split; [rewrite JsMapFacts.get_set; now rewrite decide_True |].
      cbn [GroupStore.groupId GroupStore.groupName GroupStore.groupItems].
      split; [reflexivity |]. split; [exact Hname |]. now split.
  - split; [reflexivity |]. now destruct st.
Qed.
